(** * HiCExplorer: Capture Hi-C aggregation and differential testing

    A shallow embedding of the aggregation and statistical-testing core of
    [hicexplorer/chicAggregateStatistic.py] and
    [hicexplorer/chicDifferentialTest.py]:

    - [Py]: the fragment of Python the two files rely on (exceptions, list
      indexing with negative indices, slices, [sorted], [int()], [float()]);
    - [Intervals]: the query interface of the [intervaltree] package;
    - [Aggregate]: [filter_scores_target_list] over an explicit object store,
      since the function overwrites records of its argument in place;
    - [Dispatch]: the fan-out / polling loop both tools share;
    - [DiffTest]: [chisquare_test] and [fisher_exact_test];
    - [Store]: the two HDF5 writers over a path-indexed model of an h5py file.

    Python floats are IEEE binary64 numbers, modelled by Rocq's primitive
    floats. *)

From Stdlib Require Import String Ascii.
From Stdlib Require Import ZArith List Bool Lia Floats Permutation.
From Stdlib Require Sorted.
Import ListNotations.
Local Open Scope Z_scope.

(* ================================================================== *)
(** * Python fragment *)

Module Py.

Inductive exn : Type :=
| IndexError
| KeyError
| ValueError
| TypeError
| OverflowError
| ZeroDivisionError
| Exception (msg : string).

(** A computation either returns a value or raises. *)
Inductive result (A : Type) : Type :=
| Ok (a : A)
| Raise (e : exn).
Arguments Ok {A} a.
Arguments Raise {A} e.

Definition bind {A B} (m : result A) (k : A -> result B) : result B :=
  match m with
  | Ok a => k a
  | Raise e => Raise e
  end.

Declare Scope py_scope.
Delimit Scope py_scope with py.
Notation "x <- m ;; k" := (bind m (fun x => k))
  (at level 61, m at next level, right associativity) : py_scope.
Notation "' pat <- m ;; k" := (bind m (fun x => match x with pat => k end))
  (at level 61, pat pattern, m at next level, right associativity) : py_scope.

(** Values stored in the fields of a record line. *)
Inductive value : Type :=
| VStr (s : string)
| VInt (z : Z)
| VFloat (x : float).

(** A record line: the list of its fields. *)
Definition record : Type := list value.

(** ** Lists *)

(** Position designated by index [i] in a list of length [n]; a negative
    index counts from the end. *)
Definition position (n : nat) (i : Z) : option nat :=
  let j := if i <? 0 then Z.of_nat n + i else i in
  if (0 <=? j) && (j <? Z.of_nat n) then Some (Z.to_nat j) else None.

(** [l[i]] *)
Definition getitem {A} (l : list A) (i : Z) : result A :=
  match position (length l) i with
  | Some j => match nth_error l j with
              | Some x => Ok x
              | None => Raise IndexError
              end
  | None => Raise IndexError
  end.

Fixpoint replace_nth {A} (l : list A) (j : nat) (x : A) : list A :=
  match l, j with
  | [], _ => []
  | _ :: t, O => x :: t
  | y :: t, S j' => y :: replace_nth t j' x
  end.

(** [l[i] = x] *)
Definition setitem {A} (l : list A) (i : Z) (x : A) : result (list A) :=
  match position (length l) i with
  | Some j => Ok (replace_nth l j x)
  | None => Raise IndexError
  end.

(** Bound of a slice, clipped to the list. *)
Definition slice_bound (n : nat) (i : Z) : nat :=
  if i <? 0 then Z.to_nat (Z.max 0 (Z.of_nat n + i))
  else Z.to_nat (Z.min i (Z.of_nat n)).

(** [l[a:b]] *)
Definition slice {A} (l : list A) (a b : Z) : list A :=
  let a' := slice_bound (length l) a in
  let b' := slice_bound (length l) b in
  firstn (b' - a') (skipn a' l).

(** [l[a:]] *)
Definition slice_from {A} (l : list A) (a : Z) : list A :=
  skipn (slice_bound (length l) a) l.

(** [l[-1]] and [l[0]] are [getitem l (-1)] and [getitem l 0]. *)

(** ** [sorted] *)

Section Sorted.
Context {A : Type} (ltb : A -> A -> bool).

(** Stable insertion: [x] goes before the first element that is not
    smaller than it. *)
Fixpoint insert (x : A) (l : list A) : list A :=
  match l with
  | [] => [x]
  | y :: t => if ltb y x then y :: insert x t else x :: y :: t
  end.

Definition sorted (l : list A) : list A := fold_right insert [] l.
End Sorted.

(** ** Numeric conversions *)

Definition float_of_Z (z : Z) : float :=
  SF2Prim (binary_normalize prec emax z 0 false).

Section Conversions.
(** Parsing of numerals held in strings is the interpreter's. *)
Variable int_of_str : string -> option Z.
Variable float_of_str : string -> option float.

(** [int(v)] *)
Definition py_int (v : value) : result Z :=
  match v with
  | VInt z => Ok z
  | VFloat x =>
      match Prim2SF x with
      | S754_zero _ => Ok 0
      | S754_finite s m e =>
          let a := Z.shiftl (Z.pos m) e in
          Ok (if s then - a else a)
      | S754_infinity _ => Raise OverflowError
      | S754_nan => Raise ValueError
      end
  | VStr s =>
      match int_of_str s with
      | Some z => Ok z
      | None => Raise ValueError
      end
  end.

(** [float(v)] *)
Definition py_float (v : value) : result float :=
  match v with
  | VFloat x => Ok x
  | VInt z =>
      let x := float_of_Z z in
      if is_infinity x then Raise OverflowError else Ok x
  | VStr s =>
      match float_of_str s with
      | Some x => Ok x
      | None => Raise ValueError
      end
  end.
End Conversions.

(** [list(map(f, l))] for an [f] that may raise. *)
Fixpoint map_result {A B} (f : A -> result B) (l : list A) : result (list B) :=
  match l with
  | [] => Ok []
  | x :: t =>
      (y <- f x ;; ys <- map_result f t ;; Ok (y :: ys))%py
  end.

End Py.

Import Py.
Local Open Scope py_scope.

(* ================================================================== *)
(** * Interval index

    The [intervaltree] package: an [Interval] is the named tuple
    [(begin, end, data)], ordered and compared on these three components;
    a tree is a set of intervals, and [tree[b:e]] is the set of stored
    intervals that overlap the half-open range. *)

Module Intervals.

Record Interval : Type := mkInterval { ibegin : Z; iend : Z; idata : Z }.

Definition Interval_eqb (x y : Interval) : bool :=
  (ibegin x =? ibegin y) && (iend x =? iend y) && (idata x =? idata y).

(** [x < y]: by [begin], then [end], then [data]. *)
Definition Interval_ltb (x y : Interval) : bool :=
  if ibegin x =? ibegin y then
    if iend x =? iend y then idata x <? idata y
    else iend x <? iend y
  else ibegin x <? ibegin y.

Definition IntervalTree : Type := list Interval.

(** [tree[b:e]] *)
Definition overlap (t : IntervalTree) (b e : Z) : list Interval :=
  if e <=? b then []
  else filter (fun iv => (ibegin iv <? e) && (b <? iend iv)) t.

(** Per-chromosome index: a dict from chromosome name to tree. *)
Definition index : Type := list (string * IntervalTree).

Fixpoint find_tree (ix : index) (c : string) : option IntervalTree :=
  match ix with
  | [] => None
  | (c', t) :: rest => if String.eqb c' c then Some t else find_tree rest c
  end.

(** [chromosome in index], then [index[chromosome]]; only a string can be
    equal to one of the keys. *)
Definition lookup (ix : index) (chromosome : value) : option IntervalTree :=
  match chromosome with
  | VStr c => find_tree ix c
  | _ => None
  end.

End Intervals.

Import Intervals.

(* ================================================================== *)
(** * Interval aggregator ([chicAggregateStatistic.filter_scores_target_list])

    A record line is a Python list, and the function stores into lines it
    reaches through its argument. The embedding therefore separates the
    dicts, which hold references, from the store that maps a reference to
    the current content of the line. *)

Module Aggregate.

Definition ref : Type := nat.
Definition store : Type := ref -> record.

(** [line[i] = v] for the line referenced by [a]. *)
Definition store_item (h : store) (a : ref) (i : Z) (v : value)
  : result store :=
  line <- setitem (h a) i v ;;
  Ok (fun b => if Nat.eqb b a then line else h b).

(** The content of the HDF5 object named by [pTargetList] in [pTargetFile]:
    its [chromosome], [start_list] and [end_list] entries. *)
Record target_object : Type := mkTarget
  { chromosome : string; start_list : list Z; end_list : list Z }.

(** The three-component accumulator [values]. *)
Definition float3 : Type := (float * float * float)%type.

(** [values += xs] for a one-dimensional array [xs]: shapes (3,) and (1,)
    broadcast against (3,), any other shape is refused. *)
Definition np_iadd (values : float3) (xs : list float) : result float3 :=
  let '(v0, v1, v2) := values in
  match xs with
  | [x0; x1; x2] => Ok (v0 + x0, v1 + x1, v2 + x2)%float
  | [x] => Ok (v0 + x, v1 + x, v2 + x)%float
  | _ => Raise ValueError
  end.

Section Filter.
(** Keys of the scores dict, with their [==] and [<]. *)
Context {K : Type}.
Variable K_eqb : K -> K -> bool.
Variable K_ltb : K -> K -> bool.
Variable int_of_str : string -> option Z.
Variable float_of_str : string -> option float.
(** [hicmatrix.HiCMatrix.intervalListToIntervalTree(...)[0]] *)
Variable intervalListToIntervalTree : list (string * Z * Z) -> index.

(** A dict in insertion order. *)
Definition dict (V : Type) : Type := list (K * V).

Fixpoint dict_get {V} (d : dict V) (k : K) : result V :=
  match d with
  | [] => Raise KeyError
  | (k', v) :: rest => if K_eqb k' k then Ok v else dict_get rest k
  end.

Fixpoint dict_set {V} (d : dict V) (k : K) (v : V) : dict V :=
  match d with
  | [] => [(k, v)]
  | (k', v') :: rest =>
      if K_eqb k' k then (k', v) :: rest else (k', v') :: dict_set rest k v
  end.

(** [same_target_dict]: target interval to the keys assigned to it. *)
Definition groups : Type := list (Interval * list K).

(** [if t in d: d[t].append(key) else: d[t] = [key]] *)
Fixpoint group_append (d : groups) (t : Interval) (key : K) : groups :=
  match d with
  | [] => [(t, [key])]
  | (t', ks) :: rest =>
      if Interval_eqb t' t then (t', ks ++ [key]) :: rest
      else (t', ks) :: group_append rest t key
  end.

(** Body of the first loop for one line: the target the line is
    assigned to, if any. *)
Definition locate (ix : index) (line : record) : result (option Interval) :=
  chromosome <- getitem line 0 ;;
  start <- (v <- getitem line 1 ;; py_int int_of_str v) ;;
  end_ <- (v <- getitem line 2 ;; py_int int_of_str v) ;;
  match lookup ix chromosome with
  | None => Ok None
  | Some tree =>
      let target_interval := overlap tree start end_ in
      match target_interval with
      | [] => Ok None
      | _ :: _ =>
          t <- getitem (sorted Interval_ltb target_interval) 0 ;;
          Ok (Some t)
      end
  end.

(** [for key in pScoresDictionary: ...] *)
Fixpoint assign_loop (h : store) (scores : dict ref) (ix : index)
    (keys : list K) (same_target_dict : groups) : result groups :=
  match keys with
  | [] => Ok same_target_dict
  | key :: rest =>
      a <- dict_get scores key ;;
      t <- locate ix (h a) ;;
      match t with
      | Some target_interval =>
          assign_loop h scores ix rest
            (group_append same_target_dict target_interval key)
      | None => assign_loop h scores ix rest same_target_dict
      end
  end.

Definition assign_targets (h : store) (scores : dict ref) (ix : index)
  : result groups :=
  assign_loop h scores ix (map fst scores) [].

(** [for key in keys: values += np.array(list(map(float, line[-3:])))] *)
Fixpoint sum_values (h : store) (scores : dict ref) (keys : list K)
    (values : float3) : result float3 :=
  match keys with
  | [] => Ok values
  | key :: rest =>
      a <- dict_get scores key ;;
      xs <- map_result (py_float float_of_str) (slice_from (h a) (-3)) ;;
      values' <- np_iadd values xs ;;
      sum_values h scores rest values'
  end.

(** Body of the second loop for one target. *)
Definition merge_target (h : store) (scores : dict ref) (keys : list K)
    (accepted_scores : dict ref) : result (store * dict ref) :=
  let keys := sorted K_ltb keys in
  '(v0, v1, v2) <- sum_values h scores keys (0, 0, 0)%float ;;
  first <- getitem keys 0 ;;
  new_data_line <- dict_get scores first ;;
  last <- getitem keys (-1) ;;
  a <- dict_get scores last ;;
  v <- getitem (h a) 2 ;;
  h <- store_item h new_data_line 2 v ;;
  last <- getitem keys (-1) ;;
  a <- dict_get scores last ;;
  v <- getitem (h a) (-5) ;;
  h <- store_item h new_data_line (-5) v ;;
  h <- store_item h new_data_line (-3) (VFloat v0) ;;
  h <- store_item h new_data_line (-2) (VFloat v1) ;;
  h <- store_item h new_data_line (-1) (VFloat v2) ;;
  first <- getitem keys 0 ;;
  Ok (h, dict_set accepted_scores first new_data_line).

(** [for target in same_target_dict: ...] *)
Fixpoint merge_loop (h : store) (scores : dict ref) (g : groups)
    (accepted_scores : dict ref) : result (store * dict ref) :=
  match g with
  | [] => Ok (h, accepted_scores)
  | (_, keys) :: rest =>
      '(h', accepted_scores') <- merge_target h scores keys accepted_scores ;;
      merge_loop h' scores rest accepted_scores'
  end.

(** The two loops, once the interval index is known. *)
Definition aggregate (h : store) (scores : dict ref) (ix : index)
  : result (store * dict ref) :=
  same_target_dict <- assign_targets h scores ix ;;
  merge_loop h scores same_target_dict [].

(** The function returns the final store together with
    [accepted_scores]; the object read from the target file stands for
    [pTargetList] and [pTargetFile]. *)
Definition filter_scores_target_list (h : store)
    (pScoresDictionary : dict ref) (pTargetList : option target_object)
    (pTargetIntervalTree : option index) : result (store * dict ref) :=
  match pTargetList with
  | Some target =>
      let chromosome :=
        repeat (chromosome target) (length (start_list target)) in
      let target_regions :=
        combine (combine chromosome (start_list target)) (end_list target) in
      if Nat.eqb (length target_regions) 0 then Ok (h, [])
      else aggregate h pScoresDictionary
             (intervalListToIntervalTree target_regions)
  | None =>
      match pTargetIntervalTree with
      | Some ix => aggregate h pScoresDictionary ix
      | None => Raise (Exception "No target list given.")
      end
  end.

End Filter.
End Aggregate.

(* ================================================================== *)
(** * Statistical tester ([chicDifferentialTest]) *)

Module DiffTest.

(** A group is the pair [[sum of interactions, raw target count]] read for
    one location. *)
Definition group : Type := list float.

(** [x >= y] on floats. *)
Definition float_geb (x y : float) : bool := (y <=? x)%float.

(** The three lists both tests return, and what they log. *)
Record outcome : Type := mkOutcome
  { test_result : list float;
    accepted : list (Z * float);
    rejected : list (Z * float) }.

Inductive log_entry : Type :=
| LogInfo (zero_values_counter : Z)
| LogError (msg : string).

Section Tests.
(** [scipy.stats]: [chi2.ppf(q, df)], and the two tests, which raise
    [ValueError] ([None]) where they are undefined. [chi2_contingency]
    gives the statistic and the p-value, [fisher_exact] the p-value. *)
Variable chi2_ppf : float -> Z -> float.
Variable chi2_contingency : group -> group -> option (float * float).
Variable fisher_exact : list group -> option float.
(** [numpy.ceil] on one number. *)
Variable ceil : float -> float.

(** Loop state of [chisquare_test]. *)
Record chi_state : Type := mkChi
  { chi_out : outcome; zero_values_counter : Z }.

Definition chisquare_step (critical_value : float) (st : chi_state)
    (i : Z) (group1 group2 : group) : chi_state :=
  let o := chi_out st in
  match chi2_contingency group1 group2 with
  | Some (chi2, p_value) =>
      if float_geb chi2 critical_value then
        mkChi (mkOutcome (test_result o ++ [p_value]) (accepted o)
                 (rejected o ++ [(i, p_value)]))
          (zero_values_counter st)
      else
        mkChi (mkOutcome (test_result o ++ [p_value])
                 (accepted o ++ [(i, p_value)]) (rejected o))
          (zero_values_counter st)
  | None =>
      mkChi (mkOutcome (test_result o ++ [nan])
               (accepted o ++ [(i, 1%float)]) (rejected o))
        (zero_values_counter st + 1)
  end.

(** [for i, (group1, group2) in enumerate(zip(pDataFile1, pDataFile2))] *)
Fixpoint chisquare_loop (critical_value : float) (i : Z)
    (pairs : list (group * group)) (st : chi_state) : chi_state :=
  match pairs with
  | [] => st
  | (group1, group2) :: rest =>
      chisquare_loop critical_value (i + 1) rest
        (chisquare_step critical_value st i group1 group2)
  end.

Definition chisquare_test (pDataFile1 pDataFile2 : list group) (pAlpha : float)
  : list log_entry * outcome :=
  let critical_value := chi2_ppf (1 - pAlpha)%float 1 in
  let st :=
    chisquare_loop critical_value 0 (combine pDataFile1 pDataFile2)
      (mkChi (mkOutcome [] [] []) 0) in
  (if 0 <? zero_values_counter st then [LogInfo (zero_values_counter st)]
   else [],
   chi_out st).

Definition fisher_step (pAlpha : float) (o : outcome) (i : Z)
    (group1 group2 : group) : outcome :=
  match fisher_exact [map ceil group1; map ceil group2] with
  | Some p_value =>
      if (p_value <=? pAlpha)%float then
        mkOutcome (test_result o ++ [p_value]) (accepted o)
          (rejected o ++ [(i, p_value)])
      else
        mkOutcome (test_result o ++ [p_value])
          (accepted o ++ [(i, p_value)]) (rejected o)
  | None =>
      mkOutcome (test_result o ++ [nan]) (accepted o ++ [(i, 1%float)])
        (rejected o)
  end.

Fixpoint fisher_loop (pAlpha : float) (i : Z) (pairs : list (group * group))
    (o : outcome) : outcome :=
  match pairs with
  | [] => o
  | (group1, group2) :: rest =>
      fisher_loop pAlpha (i + 1) rest (fisher_step pAlpha o i group1 group2)
  end.

Definition fisher_exact_test (pDataFile1 pDataFile2 : list group)
    (pAlpha : float) : outcome :=
  fisher_loop pAlpha 0 (combine pDataFile1 pDataFile2) (mkOutcome [] [] []).

End Tests.
End DiffTest.

(* ================================================================== *)
(** * Parallel dispatcher

    [chicAggregateStatistic.call_multi_core] and the dispatch code in
    [chicDifferentialTest.main]. A worker is a process that puts one
    message on its queue; what the parent sees of the timing is, for each
    polling pass, which queues are not empty. *)

Module Dispatch.

(** How a call of the parent ends. *)
Inductive outcome (A : Type) : Type :=
| Returned (a : A)
| Exited (status : Z)
| Uncaught (e : exn).
Arguments Returned {A} a.
Arguments Exited {A} status.
Arguments Uncaught {A} e.


Inductive log_entry : Type :=
| LogError (msg : string).

(** What a worker puts on its queue: a string, or the lists of results. *)
Inductive message (P : Type) : Type :=
| MStr (s : string)
| MData (p : P).
Arguments MStr {P} s.
Arguments MData {P} p.

(** [needle in s] for strings. *)
Definition contains (needle s : string) : bool :=
  match String.index 0 needle s with
  | Some _ => true
  | None => false
  end.

(** [s[n:]] for a string. *)
Definition str_from (n : nat) (s : string) : string :=
  substring n (String.length s - n) s.

(** The slice handed to thread [i]. *)
Definition thread_slice {A} (l : list A) (threads per : Z) (i : nat) : list A :=
  if Z.of_nat i <? threads - 1
  then slice l (Z.of_nat i * per) ((Z.of_nat i + 1) * per)
  else slice_from l (Z.of_nat i * per).

(** [[item for sublist in l for item in sublist]]; [None] is not iterable. *)
Fixpoint flatten {A} (l : list (option (list A))) : result (list A) :=
  match l with
  | [] => Ok []
  | None :: _ => Raise TypeError
  | Some sublist :: rest => items <- flatten rest ;; Ok (sublist ++ items)
  end.

(** ** The polling loop *)

(** [queue[i]] is [None] exactly when [thread_done[i]] is set, so the state
    keeps the latter; [outputs] stands for the result lists, filled at the
    same index from one message. *)
Record poll_state (P : Type) : Type := mkPoll
  { thread_done : list bool;
    fail_flag : bool;
    fail_message : string;
    outputs : list (option P) }.
Arguments mkPoll {P}.
Arguments thread_done {P}.
Arguments fail_flag {P}.
Arguments fail_message {P}.
Arguments outputs {P}.

Definition init_state (P : Type) (threads : Z) : poll_state P :=
  mkPoll (repeat false (Z.to_nat threads)) false ""
    (repeat None (Z.to_nat threads)).

(** Body of the [if] for a queue that holds message [m]. A string without
    the marker cannot be unpacked into the result lists. *)
Definition receive {P} (i : nat) (m : message P) (st : poll_state P)
  : result (poll_state P) :=
  match m with
  | MStr s =>
      if contains "Fail:" s then
        Ok (mkPoll (replace_nth (thread_done st) i true) true (str_from 6 s)
              (outputs st))
      else Raise ValueError
  | MData p =>
      Ok (mkPoll (replace_nth (thread_done st) i true) (fail_flag st)
            (fail_message st) (replace_nth (outputs st) i (Some p)))
  end.

Section Poll.
Context {P : Type}.
(** The message of each worker and the polling pass from which its queue
    is not empty. *)
Variable queue : nat -> message P.
Variable arrival : nat -> nat.

(** [for i in range(threads): if queue[i] is not None and not
    queue[i].empty(): ...] during polling pass [pass]. *)
Fixpoint poll_pass (pass : nat) (indices : list nat) (st : poll_state P)
  : result (poll_state P) :=
  match indices with
  | [] => Ok st
  | i :: rest =>
      if negb (nth i (thread_done st) true) && (arrival i <=? pass)%nat then
        st' <- receive i (queue i) st ;;
        poll_pass pass rest st'
      else poll_pass pass rest st
  end.

(** [while not all_data_collected: ...]; [None] when the passes allowed
    by [fuel] do not suffice. *)
Fixpoint poll_loop (fuel pass : nat) (threads : Z) (st : poll_state P)
  : option (result (poll_state P)) :=
  match fuel with
  | O => None
  | S fuel' =>
      match poll_pass pass (seq 0 (Z.to_nat threads)) st with
      | Raise e => Some (Raise e)
      | Ok st' =>
          if forallb (fun done => done) (thread_done st') then Some (Ok st')
          else poll_loop fuel' (S pass) threads st'
      end
  end.
End Poll.

(** ** [call_multi_core] *)

(** [pTargetList] as a worker receives it: the single target file, or its
    slice of the list of targets. [pOneTarget] is set exactly in the first
    case. *)
Inductive target_arg (target : Type) : Type :=
| OneTarget (t : target)
| TargetSlice (l : list target).
Arguments OneTarget {target} t.
Arguments TargetSlice {target} l.

Definition thread_targets {target} (pTargetFileList : list target)
    (threads per : Z) (i : nat) : target_arg target :=
  match pTargetFileList with
  | [t] => OneTarget t
  | _ => TargetSlice (thread_slice pTargetFileList threads per i)
  end.

Section CallMultiCore.
Context {item target A B : Type}.

Definition call_multi_core (pInteractionFilesList : list item)
    (pTargetFileList : list target)
    (pFunctionName : list item -> target_arg target -> message (list A * list B))
    (threads : Z) (arrival : nat -> nat) (fuel : nat)
  : option (list log_entry * outcome (list A * list B)) :=
  let n := Z.of_nat (length pInteractionFilesList) in
  let threads := if n <? threads then n else threads in
  if threads =? 0 then Some ([], Uncaught ZeroDivisionError)
  else
    let interactionFilesPerThread := n / threads in
    let queue i :=
      pFunctionName
        (thread_slice pInteractionFilesList threads interactionFilesPerThread i)
        (thread_targets pTargetFileList threads interactionFilesPerThread i) in
    match poll_loop queue arrival fuel 0 threads (init_state _ threads) with
    | None => None
    | Some (Raise e) => Some ([], Uncaught e)
    | Some (Ok st) =>
        if fail_flag st then Some ([LogError (fail_message st)], Exited 1)
        else
          match flatten (map (option_map fst) (outputs st)) with
          | Raise e => Some ([], Uncaught e)
          | Ok outfile_names_list =>
              match flatten (map (option_map snd) (outputs st)) with
              | Raise e => Some ([], Uncaught e)
              | Ok accepted_scores_list =>
                  Some ([], Returned (outfile_names_list, accepted_scores_list))
              end
          end
    end.
End CallMultiCore.

(** ** The dispatch code of [chicDifferentialTest.main] *)

Section DifferentialDispatch.
Context {item A : Type}.

(** The three result lists, in the order of the worker's message:
    accepted, rejected, all. *)
Definition lists3 : Type := (list A * list A * list A)%type.

Definition dispatch_tests (aggregatedList : list item)
    (run_statistical_tests : list item -> message lists3)
    (threads : Z) (arrival : nat -> nat) (fuel : nat)
  : option (list log_entry * outcome lists3) :=
  let n := Z.of_nat (length aggregatedList) in
  if threads =? 0 then Some ([], Uncaught ZeroDivisionError)
  else
    let aggregatedListPerThread := n / threads in
    let queue i :=
      run_statistical_tests
        (thread_slice aggregatedList threads aggregatedListPerThread i) in
    match poll_loop queue arrival fuel 0 threads (init_state _ threads) with
    | None => None
    | Some (Raise e) => Some ([], Uncaught e)
    | Some (Ok st) =>
        if fail_flag st then Some ([LogError (fail_message st)], Exited 1)
        else
          match flatten (map (option_map (fun p => fst (fst p))) (outputs st))
          with
          | Raise e => Some ([], Uncaught e)
          | Ok accepted_data =>
              match flatten (map (option_map (fun p => snd (fst p))) (outputs st))
              with
              | Raise e => Some ([], Uncaught e)
              | Ok rejected_data =>
                  match flatten (map (option_map snd) (outputs st)) with
                  | Raise e => Some ([], Uncaught e)
                  | Ok all_data =>
                      Some ([], Returned (accepted_data, rejected_data, all_data))
                  end
              end
          end
    end.
End DifferentialDispatch.

End Dispatch.

(* ================================================================== *)
(** * Hierarchical result store

    An h5py file opened in mode ['w'] is modelled by the objects it holds,
    each under its absolute path, in creation order. Names are taken as
    single path components. *)

Module Store.

Definition path : Type := list string.

Inductive content : Type :=
| Group
| Scalar (v : value)
| Dataset (data : list value)
| Link (target : path).

Record file : Type := mkFile
  { attrs : list (string * float);
    objects : list (path * content) }.

Definition path_eqb (p q : path) : bool :=
  if list_eq_dec string_dec p q then true else false.

(** [name in group], for the object at path [p]. *)
Definition has (f : file) (p : path) : bool :=
  existsb (fun o => path_eqb (fst o) p) (objects f).

(** Creation of an object under a name that is free; h5py refuses a name
    that is taken. *)
Definition create (f : file) (p : path) (c : content) : result file :=
  if has f p then Raise ValueError
  else Ok (mkFile (attrs f) (objects f ++ [(p, c)])).

(** [if name not in parent: parent.create_group(name) else: parent[name]] *)
Definition require_group (f : file) (p : path) : result file :=
  if has f p then Ok f else create f p Group.

(** ** [chicAggregateStatistic.writeAggregateHDF] *)

Section Aggregated.
Context {K : Type}.

(** Accepted scores of one sample, as a worker sent them: the lines by key,
    in dict order. *)
Definition scores : Type := list (K * record).

(** Locals of the loop over the accepted lines. *)
Record fields : Type := mkFields
  { chromosome : option value;
    start_list : list value;
    end_list : list value;
    gene_name : option value;
    sum_of_interactions : option value;
    relative_distance_list : list value;
    raw_target_list : list value }.

Fixpoint collect (data : scores) (acc : fields) : result fields :=
  match data with
  | [] => Ok acc
  | (_, line) :: rest =>
      c <- getitem line 0 ;;
      s <- getitem line 1 ;;
      e <- getitem line 2 ;;
      g <- getitem line 3 ;;
      i <- getitem line 4 ;;
      d <- getitem line 5 ;;
      r <- getitem line (-1) ;;
      collect rest
        (mkFields (Some c) (start_list acc ++ [s]) (end_list acc ++ [e])
           (Some g) (Some i) (relative_distance_list acc ++ [d])
           (raw_target_list acc ++ [r]))
  end.

(** A scalar entry; [None] stands for Python's [None], which h5py cannot
    store. *)
Definition scalar (v : option value) : result content :=
  match v with
  | Some x => Ok (Scalar x)
  | None => Raise TypeError
  end.

(** [matrixGroup[chromosome]] *)
Definition lookup_name (f : file) (parent : path) (name : option value)
  : result path :=
  match name with
  | Some (VStr c) => if has f (parent ++ [c]) then Ok (parent ++ [c])
                     else Raise KeyError
  | _ => Raise TypeError
  end.

(** Body of the inner loop for one [(key, data)], inside the group
    [combination] of the matrix combination. *)
Definition write_key (f : file) (combination : path) (key : list string)
    (data : scores) : result file :=
  if Nat.eqb (length data) 0 then Ok f
  else
    fl <- collect data (mkFields None [] [] None None [] []) ;;
    k0 <- getitem key 0 ;;
    let matrixGroup := combination ++ [k0] in
    f <- require_group f matrixGroup ;;
    k1 <- getitem key 1 ;;
    '(f, chromosomeObject) <-
      (if negb (has f (matrixGroup ++ [k1]))
       then f' <- create f (matrixGroup ++ [k1]) Group ;;
            Ok (f', matrixGroup ++ [k1])
       else p <- lookup_name f matrixGroup (chromosome fl) ;; Ok (f, p)) ;;
    let geneGroup := matrixGroup ++ ["genes"%string] in
    f <- require_group f geneGroup ;;
    kl <- getitem key (-1) ;;
    let groupObject := chromosomeObject ++ [kl] in
    f <- create f groupObject Group ;;
    c <- scalar (chromosome fl) ;;
    f <- create f (groupObject ++ ["chromosome"%string]) c ;;
    f <- create f (groupObject ++ ["start_list"%string])
           (Dataset (start_list fl)) ;;
    f <- create f (groupObject ++ ["end_list"%string])
           (Dataset (end_list fl)) ;;
    g <- scalar (gene_name fl) ;;
    f <- create f (groupObject ++ ["gene_name"%string]) g ;;
    s <- scalar (sum_of_interactions fl) ;;
    f <- create f (groupObject ++ ["sum_of_interactions"%string]) s ;;
    f <- create f (groupObject ++ ["relative_distance_list"%string])
           (Dataset (relative_distance_list fl)) ;;
    f <- create f (groupObject ++ ["raw_target_list"%string])
           (Dataset (raw_target_list fl)) ;;
    kl <- getitem key (-1) ;;
    _ <- (if has f (chromosomeObject ++ [kl]) then Ok tt else Raise KeyError) ;;
    create f (geneGroup ++ [kl]) (Link (chromosomeObject ++ [kl])).

(** [for key, data in zip(key_outer, data_outer): ...] *)
Fixpoint write_keys (f : file) (combination : path)
    (pairs : list (list string * scores)) : result file :=
  match pairs with
  | [] => Ok f
  | (key, data) :: rest =>
      f' <- write_key f combination key data ;;
      write_keys f' combination rest
  end.

(** [for key_outer, data_outer in zip(pOutfileNamesList,
    pAcceptedScoresList): ...] *)
Fixpoint write_outer (f : file)
    (pairs : list (list (list string) * list scores)) : result file :=
  match pairs with
  | [] => Ok f
  | (key_outer, data_outer) :: rest =>
      a <- (k <- getitem key_outer 0 ;; getitem k 0) ;;
      b <- (k <- getitem key_outer 1 ;; getitem k 0) ;;
      let matrix_combination_key := (a ++ "_" ++ b)%string in
      f <- require_group f [matrix_combination_key] ;;
      f <- write_keys f [matrix_combination_key] (combine key_outer data_outer) ;;
      write_outer f rest
  end.

Definition writeAggregateHDF (pOutfileNamesList : list (list (list string)))
    (pAcceptedScoresList : list (list scores)) : result file :=
  write_outer (mkFile [] []) (combine pOutfileNamesList pAcceptedScoresList).

End Aggregated.

(** ** [chicDifferentialTest.writeResultHDF] *)

(** One line of a result list:
    [[line_content1[i], line_content2[i], p_value, data1[i], data2[i]]]. *)
Record result_line : Type := mkLine
  { line1 : record;
    line2 : record;
    pvalue : float;
    stats1 : list float;
    stats2 : list float }.

Section Differential.
(** [str(v)]. *)
Variable py_str : value -> string.

Record dfields : Type := mkDFields
  { d_chromosome : option value;
    d_start_list : list value;
    d_end_list : list value;
    d_sum_1 : option float;
    d_sum_2 : option float;
    d_relative_distance_list : list value;
    d_pvalue_list : list value;
    d_raw_target_list_1 : list value;
    d_raw_target_list_2 : list value }.

Fixpoint dcollect (data_object : list result_line) (acc : dfields)
  : result dfields :=
  match data_object with
  | [] => Ok acc
  | data :: rest =>
      c <- getitem (line1 data) 0 ;;
      s <- getitem (line1 data) 1 ;;
      e <- getitem (line1 data) 2 ;;
      d <- getitem (line1 data) 5 ;;
      s1 <- getitem (stats1 data) 0 ;;
      s2 <- getitem (stats2 data) 0 ;;
      r1 <- getitem (stats1 data) 1 ;;
      r2 <- getitem (stats2 data) 1 ;;
      dcollect rest
        (mkDFields (Some c) (d_start_list acc ++ [s]) (d_end_list acc ++ [e])
           (Some s1) (Some s2) (d_relative_distance_list acc ++ [d])
           (d_pvalue_list acc ++ [VFloat (pvalue data)])
           (d_raw_target_list_1 acc ++ [VFloat r1])
           (d_raw_target_list_2 acc ++ [VFloat r2]))
  end.

Definition fscalar (x : option float) : result content :=
  match x with
  | Some y => Ok (Scalar (VFloat y))
  | None => Raise TypeError
  end.

(** [str(chromosome)], where [chromosome] may still be [None]. *)
Definition str_opt (v : option value) : string :=
  match v with
  | Some x => py_str x
  | None => "None"
  end.

(** Body of the loop over the categories, for the object [write_object]
    and the lines [data_object] of the category. *)
Definition write_category (f : file) (write_object : path)
    (gene_name : string) (data_object : list result_line) : result file :=
  if Nat.eqb (length data_object) 0 then Ok f
  else
    fl <- dcollect data_object
            (mkDFields None [] [] None None [] [] [] []) ;;
    f <- create f (write_object ++ ["chromosome"%string])
           (Scalar (VStr (str_opt (d_chromosome fl)))) ;;
    f <- create f (write_object ++ ["start_list"%string])
           (Dataset (d_start_list fl)) ;;
    f <- create f (write_object ++ ["end_list"%string])
           (Dataset (d_end_list fl)) ;;
    f <- create f (write_object ++ ["gene"%string]) (Scalar (VStr gene_name)) ;;
    f <- create f (write_object ++ ["relative_distance_list"%string])
           (Dataset (d_relative_distance_list fl)) ;;
    s1 <- fscalar (d_sum_1 fl) ;;
    f <- create f (write_object ++ ["sum_of_interactions_1"%string]) s1 ;;
    s2 <- fscalar (d_sum_2 fl) ;;
    f <- create f (write_object ++ ["sum_of_interactions_2"%string]) s2 ;;
    f <- create f (write_object ++ ["raw_target_list_1"%string])
           (Dataset (d_raw_target_list_1 fl)) ;;
    f <- create f (write_object ++ ["raw_target_list_2"%string])
           (Dataset (d_raw_target_list_2 fl)) ;;
    create f (write_object ++ ["pvalue_list"%string])
      (Dataset (d_pvalue_list fl)).

(** The groups made for one input key before its categories are looked
    at: the gene group and its three category groups. *)
Definition open_gene (f : file) (inputData : list (list string))
  : result (file * path * string) :=
  matrix1_name <- (k <- getitem inputData 0 ;; getitem k 1) ;;
  matrix2_name <- (k <- getitem inputData 1 ;; getitem k 1) ;;
  chromosome <- (k <- getitem inputData 0 ;; getitem k 2) ;;
  gene_name <- (k <- getitem inputData 0 ;; getitem k 3) ;;
  f <- require_group f [matrix1_name] ;;
  f <- require_group f [matrix1_name; matrix2_name] ;;
  f <- require_group f [matrix1_name; matrix2_name; chromosome] ;;
  let gene_object := [matrix1_name; matrix2_name; chromosome; gene_name] in
  f <- create f gene_object Group ;;
  f <- create f (gene_object ++ ["accepted"%string]) Group ;;
  f <- create f (gene_object ++ ["rejected"%string]) Group ;;
  f <- create f (gene_object ++ ["all"%string]) Group ;;
  Ok (f, gene_object, gene_name).

(** [for category in ['accepted', 'rejected', 'all']: ...] *)
Fixpoint write_categories (f : file) (gene_object : path) (gene_name : string)
    (all_data_dict : list (string * list (list result_line))) (i : Z)
  : result file :=
  match all_data_dict with
  | [] => Ok f
  | (category, lists) :: rest =>
      _ <- (if has f (gene_object ++ [category]) then Ok tt
            else Raise KeyError) ;;
      data_object <- getitem lists i ;;
      f <- write_category f (gene_object ++ [category]) gene_name data_object ;;
      write_categories f gene_object gene_name rest i
  end.

(** [for i, inputData in enumerate(pInputData): ...] *)
Fixpoint write_inputs (f : file)
    (all_data_dict : list (string * list (list result_line)))
    (i : Z) (pInputData : list (list (list string))) : result file :=
  match pInputData with
  | [] => Ok f
  | inputData :: rest =>
      '(f, gene_object, gene_name) <- open_gene f inputData ;;
      f <- write_categories f gene_object gene_name all_data_dict i ;;
      write_inputs f all_data_dict (i + 1) rest
  end.

Definition writeResultHDF
    (pAcceptedData pRejectedData pAllResultData : list (list result_line))
    (pInputData : list (list (list string))) (pAlpha : float) : result file :=
  let all_data_dict :=
    [("accepted"%string, pAcceptedData); ("rejected"%string, pRejectedData);
     ("all"%string, pAllResultData)] in
  write_inputs (mkFile [("alpha"%string, pAlpha)] []) all_data_dict 0 pInputData.

End Differential.
End Store.

(* ================================================================== *)
(** * The workers and the aggregation tool's [main] *)

Module Tools.
Import Aggregate DiffTest Dispatch.

(** A sample names one viewpoint: [[matrix, chromosome, gene]]. *)
Definition sample_key : Type := list string.

(** ** [chicAggregateStatistic.run_target_list_compilation] *)

Section AggregateWorker.
Context {K target : Type}.
Variable K_eqb : K -> K -> bool.
Variable K_ltb : K -> K -> bool.
Variable int_of_str : string -> option Z.
Variable float_of_str : string -> option float.
Variable intervalListToIntervalTree : list (string * Z * Z) -> index.
(** [utilities.readBed], the viewpoint reader, and the reads
    [filter_scores_target_list] makes in the target file. *)
Variable readBed : target -> result (list (string * Z * Z)).
Variable readInteractionFileForAggregateStatistics :
  sample_key -> result (store * @dict K ref).
Variable read_target_object : target -> result target_object.
(** [str(exp) + traceback.format_exc()] *)
Variable describe : exn -> string.

(** Accepted scores as they leave the worker: the lines by key. *)
Definition scores_out : Type := list (K * record).

(** [for sample in interactionFile: ...], for the file at index [i]. *)
Fixpoint samples_loop (tree : option index) (pTargetList : target_arg target)
    (i : Z) (interactionFile : list sample_key)
    (outfile_names_list_intern : list sample_key)
    (accepted_scores_list_intern : list scores_out)
  : result (list sample_key * list scores_out) :=
  match interactionFile with
  | [] => Ok (outfile_names_list_intern, accepted_scores_list_intern)
  | sample :: rest =>
      '(h, interaction_file_data) <-
        readInteractionFileForAggregateStatistics sample ;;
      target_file <-
        match pTargetList with
        | OneTarget _ => Ok None
        | TargetSlice l => t <- getitem l i ;; Ok (Some t)
        end ;;
      target_object <-
        match target_file with
        | Some t => o <- read_target_object t ;; Ok (Some o)
        | None => Ok None
        end ;;
      '(h', accepted_scores) <-
        filter_scores_target_list K_eqb K_ltb int_of_str float_of_str
          intervalListToIntervalTree h interaction_file_data target_object tree ;;
      samples_loop tree pTargetList i rest
        (outfile_names_list_intern ++ [sample])
        (accepted_scores_list_intern
           ++ [map (fun e => (fst e, h' (snd e))) accepted_scores])
  end.

(** [for i, interactionFile in enumerate(pInteractionFilesList): ...] *)
Fixpoint files_loop (tree : option index) (pTargetList : target_arg target)
    (i : Z) (pInteractionFilesList : list (list sample_key))
    (outfile_names_list : list (list sample_key))
    (accepted_scores_list : list (list scores_out))
  : result (list (list sample_key) * list (list scores_out)) :=
  match pInteractionFilesList with
  | [] => Ok (outfile_names_list, accepted_scores_list)
  | interactionFile :: rest =>
      '(names, scores) <- samples_loop tree pTargetList i interactionFile [] [] ;;
      files_loop tree pTargetList (i + 1) rest
        (outfile_names_list ++ [names]) (accepted_scores_list ++ [scores])
  end.

(** The body of the [try] block. *)
Definition compile_targets (pInteractionFilesList : list (list sample_key))
    (pTargetList : target_arg target)
  : result (list (list sample_key) * list (list scores_out)) :=
  tree <-
    match pTargetList with
    | OneTarget t =>
        target_regions <- readBed t ;;
        Ok (Some (intervalListToIntervalTree target_regions))
    | TargetSlice _ => Ok None
    end ;;
  files_loop tree pTargetList 0 pInteractionFilesList [] [].

(** The message the worker puts on its queue. *)
Definition run_target_list_compilation
    (pInteractionFilesList : list (list sample_key))
    (pTargetList : target_arg target)
  : message (list (list sample_key) * list (list scores_out)) :=
  match compile_targets pInteractionFilesList pTargetList with
  | Raise exp => MStr ("Fail: " ++ describe exp)
  | Ok r => MData r
  end.

(** ** [chicAggregateStatistic.main] *)

Definition too_few_matrices : string :=
  "To aggregate and prepare the data for the differential test, at least two matrices need to be stored, but only one is present.".

(** The entries appended to [interactionList] for a pair of matrices. *)
Variable viewpoint_pairs : string -> string -> result (list (list sample_key)).

(** [for sample2 in keys_interactionFile[i + 1:]: ...] *)
Fixpoint pair_with (sample : string) (others : list string)
  : result (list (list sample_key)) :=
  match others with
  | [] => Ok []
  | sample2 :: rest =>
      l <- viewpoint_pairs sample sample2 ;;
      ls <- pair_with sample rest ;;
      Ok (l ++ ls)
  end.

(** [for i, sample in enumerate(keys_interactionFile): ...] *)
Fixpoint interaction_list (keys_interactionFile : list string)
  : result (list (list sample_key)) :=
  match keys_interactionFile with
  | [] => Ok []
  | sample :: rest =>
      l <- pair_with sample rest ;;
      ls <- interaction_list rest ;;
      Ok (l ++ ls)
  end.

Definition main (keys_interactionFile : list string) (targetList : list target)
    (threads : Z) (arrival : nat -> nat) (fuel : nat)
  : option (list Dispatch.log_entry * outcome Store.file) :=
  let '(log0, built) :=
    if (1 <? length keys_interactionFile)%nat
    then ([], interaction_list keys_interactionFile)
    else ([Dispatch.LogError too_few_matrices], Ok []) in
  match built with
  | Raise e => Some (log0, Uncaught e)
  | Ok interactionList =>
      match call_multi_core interactionList targetList
              run_target_list_compilation threads arrival fuel with
      | None => None
      | Some (log1, Exited status) => Some (log0 ++ log1, Exited status)
      | Some (log1, Uncaught e) => Some (log0 ++ log1, Uncaught e)
      | Some (log1, Returned (outfile_names_list, accepted_scores_list)) =>
          match Store.writeAggregateHDF outfile_names_list accepted_scores_list
          with
          | Raise e => Some (log0 ++ log1, Uncaught e)
          | Ok f => Some (log0 ++ log1, Returned f)
          end
      end
  end.

End AggregateWorker.

(** ** [chicDifferentialTest.run_statistical_tests] *)

Inductive statistic : Type := chi2 | fisher.

Section DifferentialWorker.
Context {key : Type}.
Variable chi2_ppf : float -> Z -> float.
Variable chi2_contingency : group -> group -> option (float * float).
Variable fisher_exact : list group -> option float.
Variable ceil : float -> float.
(** The viewpoint reader: the lines and the number pairs of one entry. *)
Variable readAggregatedFileHDF : key -> result (list record * list group).
(** [str(exp)] *)
Variable describe : exn -> string.

(** [[line_content1[i], line_content2[i], p, data1[i], data2[i]]] *)
Definition write_out_line (line_content1 line_content2 : list record)
    (data1 data2 : list group) (i : Z) (p : float)
  : result Store.result_line :=
  l1 <- getitem line_content1 i ;;
  l2 <- getitem line_content2 i ;;
  d1 <- getitem data1 i ;;
  d2 <- getitem data2 i ;;
  Ok (Store.mkLine l1 l2 p d1 d2).

(** [for i, result in enumerate(test_result): ...] *)
Fixpoint all_lines (line_content1 line_content2 : list record)
    (data1 data2 : list group) (i : Z) (test_result : list float)
  : result (list Store.result_line) :=
  match test_result with
  | [] => Ok []
  | p :: rest =>
      l <- write_out_line line_content1 line_content2 data1 data2 i p ;;
      ls <- all_lines line_content1 line_content2 data1 data2 (i + 1) rest ;;
      Ok (l :: ls)
  end.

(** The body of the loop for one pair of entries: nothing for an empty
    entry, otherwise the accepted, rejected and all lines. *)
Definition test_pair (statisticTest : statistic) (alpha : float)
    (interactionFile : key * key)
  : result (option (list Store.result_line * list Store.result_line
                    * list Store.result_line)) :=
  '(line_content1, data1) <- readAggregatedFileHDF (fst interactionFile) ;;
  '(line_content2, data2) <- readAggregatedFileHDF (snd interactionFile) ;;
  if Nat.eqb (length line_content1) 0 || Nat.eqb (length line_content2) 0
  then Ok None
  else
    let o :=
      match statisticTest with
      | chi2 => snd (chisquare_test chi2_ppf chi2_contingency data1 data2 alpha)
      | fisher => fisher_exact_test fisher_exact ceil data1 data2 alpha
      end in
    write_out_lines <-
      all_lines line_content1 line_content2 data1 data2 0 (test_result o) ;;
    write_out_lines_accepted <-
      map_result (fun r => write_out_line line_content1 line_content2
                             data1 data2 (fst r) (snd r)) (accepted o) ;;
    write_out_lines_rejected <-
      map_result (fun r => write_out_line line_content1 line_content2
                             data1 data2 (fst r) (snd r)) (rejected o) ;;
    Ok (Some (write_out_lines_accepted, write_out_lines_rejected,
              write_out_lines)).

(** [for interactionFile in pInteractionFilesList: ...] *)
Fixpoint tests_loop (statisticTest : statistic) (alpha : float)
    (pInteractionFilesList : list (key * key))
    (lists : @lists3 (list Store.result_line))
  : result (@lists3 (list Store.result_line)) :=
  match pInteractionFilesList with
  | [] => Ok lists
  | interactionFile :: rest =>
      r <- test_pair statisticTest alpha interactionFile ;;
      match r with
      | None => tests_loop statisticTest alpha rest lists
      | Some (a, b, c) =>
          let '(accepted_list, rejected_list, all_results_list) := lists in
          tests_loop statisticTest alpha rest
            (accepted_list ++ [a], rejected_list ++ [b], all_results_list ++ [c])
      end
  end.

Definition run_statistical_tests (statisticTest : statistic) (alpha : float)
    (pInteractionFilesList : list (key * key))
  : message (@lists3 (list Store.result_line)) :=
  match tests_loop statisticTest alpha pInteractionFilesList ([], [], []) with
  | Raise exp => MStr ("Fail: " ++ describe exp)
  | Ok r => MData r
  end.

End DifferentialWorker.
End Tools.

(** ** Notions used to state the aggregator's properties *)

Module AggregateSpec.
Import Aggregate.

Section Spec.
Context {K : Type}.
Variable K_eqb : K -> K -> bool.
Variable K_ltb : K -> K -> bool.
Variable int_of_str : string -> option Z.
Variable float_of_str : string -> option float.

(** The target of the line behind a reference, when it has one. *)
Definition class (h : store) (ix : index) (a : ref) : option Interval :=
  match locate int_of_str ix (h a) with
  | Ok o => o
  | Raise _ => None
  end.

Definition key_class (h : store) (scores : dict ref) (ix : index) (k : K)
  : option Interval :=
  match dict_get K_eqb scores k with
  | Ok a => class h ix a
  | Raise _ => None
  end.

Definition has_target (cls : K -> option Interval) (t : Interval) (k : K)
  : bool :=
  match cls k with
  | Some t' => Interval_eqb t' t
  | None => false
  end.

(** The keys recorded for a target in [same_target_dict]. *)
Fixpoint group_of (g : @groups K) (t : Interval) : list K :=
  match g with
  | [] => []
  | (t', ks) :: rest => if Interval_eqb t' t then ks else group_of rest t
  end.

(** The three trailing fields of a line, as floats. *)
Definition trailing (line : record) : result float3 :=
  x0 <- (v <- getitem line (-3) ;; py_float float_of_str v) ;;
  x1 <- (v <- getitem line (-2) ;; py_float float_of_str v) ;;
  x2 <- (v <- getitem line (-1) ;; py_float float_of_str v) ;;
  Ok (x0, x1, x2).

(** Left-to-right floating-point sum, started at 0.0. *)
Definition fsum (xs : list float) : float := fold_left PrimFloat.add xs 0%float.

Definition add3 (v c : float3) : float3 :=
  let '(v0, v1, v2) := v in
  let '(c0, c1, c2) := c in
  (v0 + c0, v1 + c1, v2 + c2)%float.

Definition fst3 (c : float3) : float := fst (fst c).
Definition snd3 (c : float3) : float := snd (fst c).
Definition thd3 (c : float3) : float := snd c.

(** The stores of the second loop on the line [line] of the first key,
    given the line [last] of the last key; [same] tells whether both keys
    hold the same list object. *)
Definition write_line (line last : record) (same : bool) (values : float3)
  : result record :=
  let '(v0, v1, v2) := values in
  v <- getitem last 2 ;;
  l1 <- setitem line 2 v ;;
  v' <- getitem (if same then l1 else last) (-5) ;;
  l2 <- setitem l1 (-5) v' ;;
  l3 <- setitem l2 (-3) (VFloat v0) ;;
  l4 <- setitem l3 (-2) (VFloat v1) ;;
  setitem l4 (-1) (VFloat v2).

(** The first loop without its error cases. *)
Fixpoint pure_assign (c : K -> option Interval) (keys : list K)
    (acc : @groups K) : groups :=
  match keys with
  | [] => acc
  | k :: rest =>
      match c k with
      | Some t => pure_assign c rest (group_append acc t k)
      | None => pure_assign c rest acc
      end
  end.

(** The reference held by the first key, in sorted order, of a group. *)
Definition first_ref (scores : dict ref) (ks : list K) : option ref :=
  match sorted K_ltb ks with
  | [] => None
  | k1 :: _ =>
      match dict_get K_eqb scores k1 with
      | Ok a => Some a
      | Raise _ => None
      end
  end.

(** The pair of a store and an output dict after the second loop has
    handled the group [ks], read against the store [h0] the function was
    called with. *)
Definition merged (h0 : store) (scores : dict ref) (ks : list K)
    (h' : store) (acc' : dict ref) : Prop :=
  exists k1 rest kn a1 an vals,
    sorted K_ltb ks = k1 :: rest /\
    getitem (sorted K_ltb ks) (-1) = Ok kn /\
    dict_get K_eqb scores k1 = Ok a1 /\
    dict_get K_eqb scores kn = Ok an /\
    sum_values K_eqb float_of_str h0 scores (sorted K_ltb ks) (0, 0, 0)%float
      = Ok vals /\
    write_line (h0 a1) (h0 an) (Nat.eqb an a1) vals = Ok (h' a1) /\
    dict_get K_eqb acc' k1 = Ok a1.

(** The interval index the function works with, when it reaches the loops. *)
Definition index_used (intervalListToIntervalTree : list (string * Z * Z) -> index)
    (pTargetList : option target_object) (pTargetIntervalTree : option index)
  : option index :=
  match pTargetList with
  | Some target =>
      let regions :=
        combine (combine (repeat (chromosome target) (length (start_list target)))
                   (start_list target)) (end_list target) in
      if Nat.eqb (length regions) 0 then None
      else Some (intervalListToIntervalTree regions)
  | None => pTargetIntervalTree
  end.

End Spec.
End AggregateSpec.

(** ** Notions used to state the tester's properties *)

Module DiffTestSpec.
Import DiffTest.

(** [enumerate(l)], counting from [i]. *)
Fixpoint indexed {A} (i : Z) (l : list A) : list (Z * A) :=
  match l with
  | [] => []
  | x :: t => (i, x) :: indexed (i + 1) t
  end.

(** What a test decides for one pair of groups: the entry of the full
    result list, the bucket, and the p-value stored in the bucket. *)
Record verdict : Type := mkVerdict
  { recorded : float; reject : bool; bucket : float }.

Definition chi_verdict
    (chi2_contingency : group -> group -> option (float * float))
    (critical_value : float) (group1 group2 : group) : verdict :=
  match chi2_contingency group1 group2 with
  | Some (chi2, p_value) =>
      mkVerdict p_value (float_geb chi2 critical_value) p_value
  | None => mkVerdict nan false 1%float
  end.

Definition fisher_verdict (fisher_exact : list group -> option float)
    (ceil : float -> float) (pAlpha : float) (group1 group2 : group)
  : verdict :=
  match fisher_exact [map ceil group1; map ceil group2] with
  | Some p_value => mkVerdict p_value (p_value <=? pAlpha)%float p_value
  | None => mkVerdict nan false 1%float
  end.

(** The entries a bucket receives from the enumerated pairs. *)
Definition bucket_of (rejecting : bool) (v : group -> group -> verdict)
    (pairs : list (Z * (group * group))) : list (Z * float) :=
  flat_map (fun e =>
              let d := v (fst (snd e)) (snd (snd e)) in
              if Bool.eqb (reject d) rejecting then [(fst e, bucket d)]
              else [])
    pairs.

(** The pairs on which the chi-squared computation is undefined. *)
Definition untestable
    (chi2_contingency : group -> group -> option (float * float))
    (pairs : list (group * group)) : list (group * group) :=
  filter (fun p => match chi2_contingency (fst p) (snd p) with
                   | Some _ => false
                   | None => true
                   end) pairs.

(** Every index of the zipped input is in exactly one bucket. *)
Definition complete (pDataFile1 pDataFile2 : list group) (o : outcome) : Prop :=
  (length (accepted o) + length (rejected o) = length (test_result o))%nat /\
  length (test_result o) = Nat.min (length pDataFile1) (length pDataFile2) /\
  Permutation (map fst (accepted o) ++ map fst (rejected o))
    (map (fun k => 0 + Z.of_nat k) (seq 0 (length (combine pDataFile1 pDataFile2)))).

End DiffTestSpec.

(** ** Notions used to state the writers' properties *)

Module StoreSpec.
Import Store.

(** [f'] holds the objects of [f] and, after them, new ones. *)
Definition extends (f f' : file) : Prop :=
  exists l, objects f' = objects f ++ l.

(** The path of the gene group of an input key. *)
Definition gene_path (inputData : list (list string)) : result path :=
  matrix1_name <- (k <- getitem inputData 0 ;; getitem k 1) ;;
  matrix2_name <- (k <- getitem inputData 1 ;; getitem k 1) ;;
  chromosome <- (k <- getitem inputData 0 ;; getitem k 2) ;;
  gene_name <- (k <- getitem inputData 0 ;; getitem k 3) ;;
  Ok [matrix1_name; matrix2_name; chromosome; gene_name].

(** The entries of the inner loop that carry lines. *)
Definition with_data {K} (pairs : list (list string * @scores K))
  : list (list string * scores) :=
  filter (fun p => negb (Nat.eqb (length (snd p)) 0)) pairs.

End StoreSpec.

(** ** Notions used to state the dispatcher's properties *)

Module DispatchSpec.
Import Dispatch.

(** The workers whose queue fills at polling pass [pass]. *)
Definition arrivals_at (arrival : nat -> nat) (T pass : nat) : list nat :=
  filter (fun i => Nat.eqb (arrival i) pass) (seq 0 T).

(** The last pass at which a queue fills. *)
Definition last_arrival (arrival : nat -> nat) (T : nat) : nat :=
  fold_right Nat.max 0%nat (map arrival (seq 0 T)).

(** The workers in the order in which the parent takes their messages:
    by pass, and by index within a pass. *)
Definition reception_order (arrival : nat -> nat) (T : nat) : list nat :=
  flat_map (arrivals_at arrival T) (seq 0 (S (last_arrival arrival T))).

(** The messages of the workers of [order], taken one after the other. *)
Fixpoint receive_all {P} (queue : nat -> message P) (order : list nat)
    (st : poll_state P) : result (poll_state P) :=
  match order with
  | [] => Ok st
  | i :: rest => st' <- receive i (queue i) st ;; receive_all queue rest st'
  end.

(** The failure text a message carries, if it reports a failure. *)
Definition failure_text {P} (m : message P) : option string :=
  match m with
  | MStr s => if contains "Fail:" s then Some (str_from 6 s) else None
  | MData _ => None
  end.

(** The payload a message carries, if it reports results. *)
Definition payload {P} (m : message P) : option P :=
  match m with
  | MStr _ => None
  | MData p => Some p
  end.

(** Workers put either their results or a failure report. *)
Definition well_formed {P} (m : message P) : Prop :=
  match m with
  | MStr s => contains "Fail:" s = true
  | MData _ => True
  end.

(** The failure text of the last, and of the first, failing worker of
    [order]. *)
Fixpoint last_failure {P} (queue : nat -> message P) (order : list nat)
    (before : option string) : option string :=
  match order with
  | [] => before
  | i :: rest =>
      last_failure queue rest
        (match failure_text (queue i) with
         | Some text => Some text
         | None => before
         end)
  end.


(** The message a worker makes of the outcome of its [try] block. *)
Definition report {P} (describe : exn -> string) (r : result P) : message P :=
  match r with
  | Raise exp => MStr ("Fail: " ++ describe exp)
  | Ok p => MData p
  end.

(** State of the parent before pass [pass]: the workers taken so far are
    those whose queue filled earlier. *)
Definition taken_before {P} (arrival : nat -> nat) (T pass : nat)
    (st : poll_state P) : Prop :=
  length (thread_done st) = T /\
  forall i, (i < T)%nat -> nth i (thread_done st) true = (arrival i <? pass)%nat.

(** The failure the parent has recorded, if any. *)
Definition failure_of {P} (st : poll_state P) : option string :=
  if fail_flag st then Some (fail_message st) else None.

(** Sequential processing cut into runs over consecutive chunks. *)
Section Gather.
Context {item P : Type}.
(** Concatenation of two results and the empty result. *)
Variable papp : P -> P -> P.
Variable pnil : P.
(** The work of a worker on a chunk that starts at a given position of the
    whole list. *)
Variable run : Z -> list item -> result P.

Fixpoint gather (rs : list (result P)) : result P :=
  match rs with
  | [] => Ok pnil
  | r :: rest => p <- r ;; q <- gather rest ;; Ok (papp p q)
  end.

(** The runs over [m] chunks of [per] items and a last chunk with the
    rest. *)
Fixpoint runs (off : Z) (m per : nat) (l : list item) : list (result P) :=
  match m with
  | O => [run off l]
  | S m' =>
      run off (firstn per l)
      :: runs (off + Z.of_nat per) m' per (skipn per l)
  end.
End Gather.

(** Componentwise concatenation of pairs and of triples of lists. *)
Definition app2 {A B} (p q : list A * list B) : list A * list B :=
  (fst p ++ fst q, snd p ++ snd q).

Definition app3 {A} (p q : @lists3 A) : @lists3 A :=
  (fst (fst p) ++ fst (fst q), snd (fst p) ++ snd (fst q), snd p ++ snd q).

End DispatchSpec.

(** ** Notions used to state the workers' properties *)

Module ToolsSpec.
Import Aggregate Dispatch Tools.

(** [pTargetList] for a single worker that is given the whole list. *)
Definition whole_targets {target} (pTargetFileList : list target)
  : target_arg target :=
  match pTargetFileList with
  | [t] => OneTarget t
  | _ => TargetSlice pTargetFileList
  end.

Section AggregateRun.
Context {K target : Type}.
Variable K_eqb : K -> K -> bool.
Variable K_ltb : K -> K -> bool.
Variable int_of_str : string -> option Z.
Variable float_of_str : string -> option float.
Variable intervalListToIntervalTree : list (string * Z * Z) -> index.
Variable readBed : target -> result (list (string * Z * Z)).
Variable readInteractionFileForAggregateStatistics :
  sample_key -> result (store * @dict K ref).
Variable read_target_object : target -> result target_object.

(** The [try] block of the worker on the part of the work list that
    starts at position [off], the targets being those of the whole list. *)
Definition compile_from (pTargetList : target_arg target) (off : Z)
    (pInteractionFilesList : list (list sample_key))
  : result (list (list sample_key) * list (list (@scores_out K))) :=
  tree <-
    match pTargetList with
    | OneTarget t =>
        target_regions <- readBed t ;;
        Ok (Some (intervalListToIntervalTree target_regions))
    | TargetSlice _ => Ok None
    end ;;
  files_loop K_eqb K_ltb int_of_str float_of_str intervalListToIntervalTree
    readInteractionFileForAggregateStatistics read_target_object
    tree pTargetList off pInteractionFilesList [] [].
End AggregateRun.

End ToolsSpec.

(** ** Concrete inputs *)

Module Scenario.
Import Aggregate DiffTest Dispatch Tools.
Local Open Scope string_scope.

(** The aggregation scenario of the specification: one target region and
    two lines that fall into it. *)
Definition lines : store :=
  fun a =>
    match a with
    | 0%nat => [VStr "chr1"; VInt 100; VInt 150; VStr "gene";
                VFloat 5; VFloat 0.125; VFloat 2]
    | 1%nat => [VStr "chr1"; VInt 150; VInt 200; VStr "gene";
                VFloat 3; VFloat 0.25; VFloat 1]
    | _ => []
    end.

Definition scores : list (string * ref) := [("r1", 0%nat); ("r2", 1%nat)].

Definition target : Interval := mkInterval 100 200 0.

Definition targets : index := [("chr1", [target])].

(** The fields of the scenario are numbers already. *)
Definition no_int (s : string) : option Z := None.
Definition no_float (s : string) : option float := None.

(** A per-chromosome index with the regions numbered in list order. *)
Fixpoint add_region (ix : index) (c : string) (iv : Interval) : index :=
  match ix with
  | [] => [(c, [iv])]
  | (c', t) :: rest =>
      if String.eqb c' c then (c', (t ++ [iv])%list) :: rest
      else (c', t) :: add_region rest c iv
  end.

Fixpoint region_index (regions : list (string * Z * Z)) (id : Z) (ix : index)
  : index :=
  match regions with
  | [] => ix
  | (c, s, e) :: rest =>
      region_index rest (id + 1) (add_region ix c (mkInterval s e id))
  end.

Definition interval_index (regions : list (string * Z * Z)) : index :=
  region_index regions 0 [].

Definition aggregated : result (store * list (string * ref)) :=
  filter_scores_target_list String.eqb String.ltb no_int no_float
    interval_index lines scores None (Some targets).

Definition aggregated_store : store :=
  match aggregated with
  | Ok (h, _) => h
  | Raise _ => lines
  end.

Definition aggregated_scores : list (string * ref) :=
  match aggregated with
  | Ok (_, accepted) => accepted
  | Raise _ => []
  end.

(** Readers that give the scenario for every viewpoint. *)
Definition read_bed (t : string) : result (list (string * Z * Z)) :=
  Ok [("chr1", 100, 200)].

Definition read_interactions (s : sample_key)
  : result (store * list (string * ref)) :=
  Ok (lines, scores).

Definition read_target (t : string) : result target_object :=
  Ok (mkTarget "chr1" [100] [200]).

Definition describe (e : exn) : string := "error".

Definition aggregation_worker :=
  run_target_list_compilation String.eqb String.ltb no_int no_float
    interval_index read_bed read_interactions read_target describe.

(** Two viewpoint pairs to aggregate, against one target file. *)
Definition work_list : list (list sample_key) :=
  [[["m1"; "chr1"; "geneA"]; ["m2"; "chr1"; "geneA"]];
   [["m1"; "chr1"; "geneB"]; ["m2"; "chr1"; "geneB"]]].

(** Every queue is filled when the parent polls for the first time. *)
Definition at_once (i : nat) : nat := 0%nat.


(** A worker of the differential test that returns the slice it was
    given. *)
Definition probe (chunk : list string) : message (@lists3 (list string)) :=
  MData ([chunk], [], []).

(** A differential test with made-up statistics: undefined without any
    count, otherwise the distance of the two target counts. *)
Definition toy_chi2 (g1 g2 : group) : option (float * float) :=
  match g1, g2 with
  | [s1; t1], [s2; t2] =>
      if (s1 + s2 =? 0)%float then None
      else Some (abs (t1 - t2), 0.5)%float
  | _, _ => None
  end.

Definition toy_ppf (q : float) (df : Z) : float := 4%float.

Definition toy_fisher (gs : list group) : option float :=
  match gs with
  | [[s1; t1]; [s2; t2]] =>
      if (s1 + s2 =? 0)%float then None
      else Some (if (t1 =? t2)%float then 1 else 0.03125)%float
  | _ => None
  end.

Definition toy_ceil (x : float) : float := x.

Definition data1 : list group := [[100; 50]; [0; 0]; [100; 10]]%float.
Definition data2 : list group := [[100; 46]; [0; 0]; [100; 10]]%float.

(** The viewpoint reader of the differential test: three lines for every
    entry, with the counts above. *)
Definition read_aggregated (k : string) : result (list record * list group) :=
  Ok ([lines 0%nat; lines 1%nat; lines 0%nat],
      if String.eqb k "m1" then data1 else data2).

Definition test_pairs : list (string * string) := [("m1", "m2"); ("m1", "m2")].

Definition test_worker :=
  run_statistical_tests toy_ppf toy_chi2 toy_fisher toy_ceil read_aggregated
    describe chi2 0.0625%float.


(** One viewpoint for every pair of matrices. *)
Definition pairs_of (a b : string) : result (list (list sample_key)) :=
  Ok [[[a; "chr1"; "geneA"]; [b; "chr1"; "geneA"]]].

Definition aggregation_main :=
  main String.eqb String.ltb no_int no_float interval_index read_bed
    read_interactions read_target describe pairs_of.

(** [str] on the values of the scenario. *)
Definition show (v : value) : string :=
  match v with
  | VStr s => s
  | _ => "?"
  end.

(** One input key of the result writer, with no line in any category. *)
Definition gene_key : list (list string) :=
  [["file1"; "m1"; "chr1"; "geneA"]; ["file2"; "m2"; "chr1"; "geneA"]].

Definition written : result Store.file :=
  Store.writeResultHDF show [[]] [[]] [[]] [gene_key] 0.0625%float.

Definition written_file : Store.file :=
  match written with
  | Ok f => f
  | Raise _ => Store.mkFile [] []
  end.

End Scenario.

(* ================================================================== *)
(** * The work lists of the two tools

    What [chicAggregateStatistic.main] and [chicDifferentialTest.main] read
    from their input files before they dispatch. Only the names of the
    groups are read: an HDF5 group is the list of its members in the order
    of [keys()], each with what the code reads below it. *)

Module Hdf.

Definition group (A : Type) : Type := list (string * A).

(** [list(g.keys())] *)
Definition keys {A} (g : group A) : list string := map fst g.

(** [g[name]] *)
Fixpoint member {A} (g : group A) (name : string) : result A :=
  match g with
  | [] => Raise KeyError
  | (n, x) :: rest => if String.eqb n name then Ok x else member rest name
  end.

(** [l.remove(x)] *)
Fixpoint remove (l : list string) (x : string) : result (list string) :=
  match l with
  | [] => Raise ValueError
  | y :: t =>
      if String.eqb y x then Ok t
      else t' <- remove t x ;; Ok (y :: t')
  end.

(** [x in l] *)
Definition has_item (l : list string) (x : string) : bool :=
  existsb (String.eqb x) l.

(** A group that holds the viewpoints of one chromosome, or the links of
    [genes]: only the names of its members are read. *)
Definition names : Type := group unit.

(** The group of a matrix: one group per chromosome, and [genes]. *)
Definition matrix : Type := group names.

End Hdf.

Module Main.
Import Hdf Dispatch Tools.

(** ** [chicDifferentialTest.main] *)

(** A key of the aggregated file:
    [[combinationOfMatrix, matrix, chromosome, gene]]. *)
Definition aggregated_key : Type := list string.

(** The aggregated file: combination of matrices, matrix, chromosome. *)
Definition aggregated_file : Type := group (group matrix).

(** [for gene1, gene2 in zip(geneList1, geneList2): ...] *)
Definition gene_entries (combinationOfMatrix matrix1 matrix2
    chromosome1 chromosome2 : string) (geneList1 geneList2 : list string)
  : list (aggregated_key * aggregated_key) :=
  map (fun g => ([combinationOfMatrix; matrix1; chromosome1; fst g],
                 [combinationOfMatrix; matrix2; chromosome2; snd g]))
    (combine geneList1 geneList2).

(** [for chromosome1, chromosome2 in zip(chromosomeList1, chromosomeList2)] *)
Fixpoint chromosome_entries (combinationOfMatrix matrix1 matrix2 : string)
    (matrix_obj1 matrix_obj2 : matrix)
    (chromosomes : list (string * string))
  : result (list (aggregated_key * aggregated_key)) :=
  match chromosomes with
  | [] => Ok []
  | (chromosome1, chromosome2) :: rest =>
      g1 <- member matrix_obj1 chromosome1 ;;
      g2 <- member matrix_obj2 chromosome2 ;;
      let geneList1 := sorted String.ltb (keys g1) in
      let geneList2 := sorted String.ltb (keys g2) in
      entries <- chromosome_entries combinationOfMatrix matrix1 matrix2
                   matrix_obj1 matrix_obj2 rest ;;
      Ok (gene_entries combinationOfMatrix matrix1 matrix2
            chromosome1 chromosome2 geneList1 geneList2 ++ entries)
  end.

(** Body of the loop over the combinations of matrices. *)
Definition combination_entries (combinationOfMatrix : string)
    (combination : group matrix)
  : result (list (aggregated_key * aggregated_key)) :=
  let keys_matrix_intern := keys combination in
  if Nat.eqb (length keys_matrix_intern) 0 then Ok []
  else
    matrix1 <- getitem keys_matrix_intern 0 ;;
    matrix2 <- getitem keys_matrix_intern 1 ;;
    matrix_obj1 <- member combination matrix1 ;;
    matrix_obj2 <- member combination matrix2 ;;
    chromosomeList1 <-
      remove (sorted String.ltb (keys matrix_obj1)) "genes" ;;
    chromosomeList2 <-
      remove (sorted String.ltb (keys matrix_obj2)) "genes" ;;
    chromosome_entries combinationOfMatrix matrix1 matrix2
      matrix_obj1 matrix_obj2 (combine chromosomeList1 chromosomeList2).

(** [for i, combinationOfMatrix in enumerate(keys_aggregatedFile): ...];
    an entry of [aggregatedList] is the pair of its two keys. *)
Fixpoint aggregatedList (file : aggregated_file)
  : result (list (aggregated_key * aggregated_key)) :=
  match file with
  | [] => Ok []
  | (combinationOfMatrix, combination) :: rest =>
      entries <- combination_entries combinationOfMatrix combination ;;
      more <- aggregatedList rest ;;
      Ok (entries ++ more)
  end.

(** An entry as the two-element list the writer indexes. *)
Definition as_input (entry : aggregated_key * aggregated_key)
  : list (list string) :=
  [fst entry; snd entry].

Section Differential.
Variable chi2_ppf : float -> Z -> float.
Variable chi2_contingency : DiffTest.group -> DiffTest.group -> option (float * float).
Variable fisher_exact : list DiffTest.group -> option float.
Variable ceil : float -> float.
Variable readAggregatedFileHDF :
  aggregated_key -> result (list record * list DiffTest.group).
Variable describe : exn -> string.
Variable py_str : value -> string.

Definition differential_main (file : aggregated_file)
    (statisticTest : statistic) (alpha : float) (threads : Z)
    (arrival : nat -> nat) (fuel : nat)
  : option (list Dispatch.log_entry * outcome Store.file) :=
  match aggregatedList file with
  | Raise e => Some ([], Uncaught e)
  | Ok aggregated =>
      match dispatch_tests aggregated
              (run_statistical_tests chi2_ppf chi2_contingency fisher_exact
                 ceil readAggregatedFileHDF describe statisticTest alpha)
              threads arrival fuel with
      | None => None
      | Some (log, Exited status) => Some (log, Exited status)
      | Some (log, Uncaught e) => Some (log, Uncaught e)
      | Some (log, Returned (accepted_data, rejected_data, all_data)) =>
          match Store.writeResultHDF py_str accepted_data rejected_data
                  all_data (map as_input aggregated) alpha with
          | Raise e => Some (log, Uncaught e)
          | Ok f => Some (log, Returned f)
          end
      end
  end.

End Differential.

(** ** [chicAggregateStatistic.main] *)

(** The interaction file: matrix, chromosome. *)
Definition interaction_file : Type := group matrix.

(** The target file when it is an HDF5 file: outer matrix, inner matrix,
    then the groups of the inner matrix, of which [genes] is read. *)
Definition target_file : Type := group (group matrix).

(** An entry of [targetList]: the name of the target file, or the path of
    a gene in it. *)
Inductive target_name : Type :=
| TargetFile (name : string)
| TargetGene (path : list string).

(** [present_genes]: outer matrix, inner matrix, genes. *)
Definition present : Type := group (group (list string)).

(** [for inner_matrix in keys_inner_matrices: ...] for one outer matrix;
    gives the genes by inner matrix and the entries of [targetList]. *)
Fixpoint inner_genes (outer_matrix : string) (inner : group matrix)
  : result (group (list string) * list target_name) :=
  match inner with
  | [] => Ok ([], [])
  | (inner_matrix, inner_object) :: rest =>
      gene_object <- member inner_object "genes" ;;
      let keys_genes := keys gene_object in
      '(genes, targets) <- inner_genes outer_matrix rest ;;
      Ok ((inner_matrix, keys_genes) :: genes,
          map (fun gen => TargetGene [outer_matrix; inner_matrix; "genes"%string; gen])
            keys_genes ++ targets)
  end.

(** [for outer_matrix in keys_targetFile: ...]; the names of the members of
    an HDF5 group are distinct, so every name is new to [present_genes]. *)
Fixpoint outer_genes (file : target_file) : result (present * list target_name) :=
  match file with
  | [] => Ok ([], [])
  | (outer_matrix, inner_matrix_object) :: rest =>
      '(genes, targets) <- inner_genes outer_matrix inner_matrix_object ;;
      '(present_genes, targetList) <- outer_genes rest ;;
      Ok ((outer_matrix, genes) :: present_genes, targets ++ targetList)
  end.

(** [present_genes] and [targetList]; [None] stands for a target file that
    is not an HDF5 file. *)
Definition read_targets (targetFile : string) (content : option target_file)
  : result (present * list target_name) :=
  match content with
  | Some file => outer_genes file
  | None => Ok ([], [TargetFile targetFile])
  end.

(** [for gene1, gene2 in zip(geneList1, geneList2):
       if gene1 in present_genes[sample][sample2]: ...] *)
Fixpoint present_entries (present_genes : present) (sample sample2
    chromosome1 chromosome2 : string) (genes : list (string * string))
  : result (list (list sample_key)) :=
  match genes with
  | [] => Ok []
  | (gene1, gene2) :: rest =>
      by_inner <- member present_genes sample ;;
      listed <- member by_inner sample2 ;;
      entries <- present_entries present_genes sample sample2
                   chromosome1 chromosome2 rest ;;
      Ok (if has_item listed gene1
          then [[sample; chromosome1; gene1]; [sample2; chromosome2; gene2]]
               :: entries
          else entries)
  end.

(** [for chromosome1, chromosome2 in zip(chromosomeList1, chromosomeList2)] *)
Fixpoint present_chromosomes (present_genes : present) (sample sample2 : string)
    (matrix_obj1 matrix_obj2 : matrix) (chromosomes : list (string * string))
  : result (list (list sample_key)) :=
  match chromosomes with
  | [] => Ok []
  | (chromosome1, chromosome2) :: rest =>
      g1 <- member matrix_obj1 chromosome1 ;;
      g2 <- member matrix_obj2 chromosome2 ;;
      let geneList1 := sorted String.ltb (keys g1) in
      let geneList2 := sorted String.ltb (keys g2) in
      entries <- present_entries present_genes sample sample2
                   chromosome1 chromosome2 (combine geneList1 geneList2) ;;
      more <- present_chromosomes present_genes sample sample2
                matrix_obj1 matrix_obj2 rest ;;
      Ok (entries ++ more)
  end.

(** Body of the two loops over the matrices: both matrix objects are read
    under the name of the first matrix. *)
Definition viewpoint_pairs (file : interaction_file) (present_genes : present)
    (sample sample2 : string) : result (list (list sample_key)) :=
  matrix_obj1 <- member file sample ;;
  matrix_obj2 <- member file sample ;;
  chromosomeList1 <- remove (sorted String.ltb (keys matrix_obj1)) "genes" ;;
  chromosomeList2 <- remove (sorted String.ltb (keys matrix_obj2)) "genes" ;;
  present_chromosomes present_genes sample sample2 matrix_obj1 matrix_obj2
    (combine chromosomeList1 chromosomeList2).

(** [interactionList] *)
Definition interactionList (file : interaction_file) (present_genes : present)
  : result (list (list sample_key)) :=
  if (1 <? length (keys file))%nat
  then interaction_list (viewpoint_pairs file present_genes) (keys file)
  else Ok [].

Section Aggregation.
Context {K : Type}.
Variable K_eqb : K -> K -> bool.
Variable K_ltb : K -> K -> bool.
Variable int_of_str : string -> option Z.
Variable float_of_str : string -> option float.
Variable intervalListToIntervalTree : list (string * Z * Z) -> index.
Variable readBed : target_name -> result (list (string * Z * Z)).
Variable readInteractionFileForAggregateStatistics :
  sample_key -> result (Aggregate.store * @Aggregate.dict K Aggregate.ref).
Variable read_target_object : target_name -> result Aggregate.target_object.
Variable describe : exn -> string.

(** The tool as a whole: the target file is read first, then the
    interaction file, then the work is dispatched and the result written. *)
Definition aggregate_main (file : interaction_file) (targetFile : string)
    (content : option target_file) (threads : Z) (arrival : nat -> nat)
    (fuel : nat) : option (list Dispatch.log_entry * outcome Store.file) :=
  match read_targets targetFile content with
  | Raise e => Some ([], Uncaught e)
  | Ok (present_genes, targetList) =>
      main K_eqb K_ltb int_of_str float_of_str intervalListToIntervalTree
        readBed readInteractionFileForAggregateStatistics read_target_object
        describe (viewpoint_pairs file present_genes) (keys file) targetList
        threads arrival fuel
  end.

End Aggregation.

End Main.

(** ** More concrete inputs *)

Module Cases.
Import Aggregate DiffTest Dispatch Tools Scenario Hdf Main.
Local Open Scope string_scope.

(** The scores of the scenario with a key whose line has no field. *)
Definition scores_bad : list (string * ref) := [("r1", 0%nat); ("bad", 5%nat)].

(** A target object without regions. *)
Definition no_regions : target_object := mkTarget "chr1" [] [].

(** One line of a result list, and a result file with this line accepted. *)
Definition result1 : Store.result_line :=
  Store.mkLine (lines 0%nat) (lines 1%nat) 0.5%float
    [100; 50]%float [100; 46]%float.

Definition written_results : result Store.file :=
  Store.writeResultHDF show [[result1]] [[]] [[result1]] [gene_key]
    0.0625%float.

Definition results_file : Store.file :=
  match written_results with
  | Ok f => f
  | Raise _ => Store.mkFile [] []
  end.

(** The accepted scores of one viewpoint, and an aggregated file with the
    two viewpoints of a pair. *)
Definition viewpoint_scores : @Store.scores string := [("r1", lines 0%nat)].

Definition viewpoint_names : list (list string) :=
  [["m1"; "chr1"; "geneA"]; ["m2"; "chr1"; "geneA"]].

Definition written_aggregate : result Store.file :=
  Store.writeAggregateHDF [viewpoint_names]
    [[viewpoint_scores; viewpoint_scores]].

Definition aggregate_file : Store.file :=
  match written_aggregate with
  | Ok f => f
  | Raise _ => Store.mkFile [] []
  end.

(** The second worker answers first. *)
Definition reversed (i : nat) : nat := (1 - i)%nat.

(** What the aggregation worker and the test worker make of the whole
    lists. *)
Definition compiled
  : list (list sample_key) * list (list (@scores_out string)) :=
  match compile_targets String.eqb String.ltb no_int no_float interval_index
          read_bed read_interactions read_target work_list
          (OneTarget "targets.bed") with
  | Ok r => r
  | Raise _ => ([], [])
  end.

Definition tested : @lists3 (list Store.result_line) :=
  match tests_loop toy_ppf toy_chi2 toy_fisher toy_ceil read_aggregated chi2
          0.0625%float test_pairs ([], [], []) with
  | Ok r => r
  | Raise _ => ([], [], [])
  end.

(** An aggregated file with one gene under each of two matrices, and an
    interaction file of the same shape. *)
Definition one_gene : matrix :=
  [("chr1", [("geneA", tt)]); ("genes", [("geneA", tt)])].

Definition aggregated_input : aggregated_file :=
  [("m1_m2", [("m1", one_gene); ("m2", one_gene)])].

Definition gene_entry : aggregated_key * aggregated_key :=
  (["m1_m2"; "m1"; "chr1"; "geneA"], ["m1_m2"; "m2"; "chr1"; "geneA"]).

Definition interaction_input : interaction_file :=
  [("m1", one_gene); ("m2", one_gene)].

Definition listed_genes : present := [("m1", [("m2", ["geneA"])])].

(** The reader of the differential test, on the keys of an aggregated
    file. *)
Definition read_key (k : aggregated_key)
  : result (list record * list DiffTest.group) :=
  read_aggregated (nth 1 k "").

Definition differential_run
  : option (list Dispatch.log_entry * outcome Store.file) :=
  differential_main toy_ppf toy_chi2 toy_fisher toy_ceil read_key describe
    show aggregated_input chi2 0.0625%float 1 at_once 1.

Definition differential_file : Store.file :=
  match differential_run with
  | Some (_, Returned f) => f
  | _ => Store.mkFile [] []
  end.

End Cases.

(* ================================================================== *)
(* PROPERTIES *)
(* ================================================================== *)
(** * Facts about the Python fragment *)

Module PyFacts.

Lemma bind_Ok {A B} (m : result A) (k : A -> result B) (b : B) :
  bind m k = Ok b -> exists a, m = Ok a /\ k a = Ok b.
Proof. destruct m as [a|e]; simpl; [eauto | discriminate]. Qed.

(** Splits a hypothesis [x <- m ;; k = Ok b] into its two steps. *)
Ltac bind_inv H :=
  let x := fresh "x" in
  let Hx := fresh "H" x in
  apply bind_Ok in H; destruct H as [x [Hx H]].

Lemma position_lt n i j : position n i = Some j -> (j < n)%nat.
Proof.
  unfold position. destruct (i <? 0) eqn:Hi;
    match goal with |- context [?a && ?b] => destruct (a && b) eqn:Hb end;
    try discriminate; intros [= <-];
    apply andb_true_iff in Hb as [H1 H2];
    apply Z.leb_le in H1; apply Z.ltb_lt in H2; lia.
Qed.

Lemma position_nonneg n i :
  (0 <= i < Z.of_nat n) -> position n i = Some (Z.to_nat i).
Proof.
  intros H. unfold position.
  destruct (i <? 0) eqn:Hi; [apply Z.ltb_lt in Hi; lia|].
  replace (0 <=? i) with true by (symmetry; apply Z.leb_le; lia).
  replace (i <? Z.of_nat n) with true by (symmetry; apply Z.ltb_lt; lia).
  reflexivity.
Qed.

Lemma position_neg n i :
  (- Z.of_nat n <= i < 0) -> position n i = Some (Z.to_nat (Z.of_nat n + i)).
Proof.
  intros H. unfold position.
  replace (i <? 0) with true by (symmetry; apply Z.ltb_lt; lia).
  replace (0 <=? Z.of_nat n + i) with true by (symmetry; apply Z.leb_le; lia).
  replace (Z.of_nat n + i <? Z.of_nat n) with true
    by (symmetry; apply Z.ltb_lt; lia).
  reflexivity.
Qed.

Lemma replace_nth_length {A} (l : list A) j x :
  length (replace_nth l j x) = length l.
Proof.
  revert j; induction l as [|y t IH]; intros [|j]; simpl; auto.
Qed.

Lemma nth_error_replace_nth_same {A} (l : list A) j x :
  (j < length l)%nat -> nth_error (replace_nth l j x) j = Some x.
Proof.
  revert j; induction l as [|y t IH]; intros [|j] H; simpl in *;
    try lia; auto. apply IH; lia.
Qed.

Lemma nth_error_replace_nth_other {A} (l : list A) j j' x :
  j <> j' -> nth_error (replace_nth l j x) j' = nth_error l j'.
Proof.
  revert j j'; induction l as [|y t IH]; intros [|j] [|j'] H; simpl;
    auto; try congruence.
Qed.

Lemma getitem_position {A} (l : list A) i j :
  position (length l) i = Some j ->
  getitem l i = match nth_error l j with
                | Some x => Ok x
                | None => Raise IndexError
                end.
Proof. intros H. unfold getitem. rewrite H. reflexivity. Qed.

Lemma getitem_Ok_position {A} (l : list A) i x :
  getitem l i = Ok x ->
  exists j, position (length l) i = Some j /\ nth_error l j = Some x.
Proof.
  unfold getitem. destruct (position (length l) i) as [j|]; [|discriminate].
  destruct (nth_error l j) eqn:E; [|discriminate].
  intros [= <-]. eauto.
Qed.

Lemma setitem_length {A} (l l' : list A) i x :
  setitem l i x = Ok l' -> length l' = length l.
Proof.
  unfold setitem. destruct (position (length l) i); [|discriminate].
  intros [= <-]. apply replace_nth_length.
Qed.

Lemma setitem_getitem_same {A} (l l' : list A) i i' x :
  setitem l i x = Ok l' ->
  position (length l) i' = position (length l) i ->
  getitem l' i' = Ok x.
Proof.
  intros Hs Hp. pose proof (setitem_length _ _ _ _ Hs) as Hl.
  unfold setitem in Hs.
  destruct (position (length l) i) as [j|] eqn:Hj; [|discriminate].
  injection Hs as <-.
  unfold getitem. rewrite Hl, Hp.
  rewrite nth_error_replace_nth_same; [reflexivity|].
  eapply position_lt; eauto.
Qed.

Lemma setitem_getitem_other {A} (l l' : list A) i i' x :
  setitem l i x = Ok l' ->
  position (length l) i' <> position (length l) i ->
  getitem l' i' = getitem l i'.
Proof.
  intros Hs Hp. pose proof (setitem_length _ _ _ _ Hs) as Hl.
  unfold setitem in Hs.
  destruct (position (length l) i) as [j|] eqn:Hj; [|discriminate].
  injection Hs as <-.
  unfold getitem. rewrite Hl.
  destruct (position (length l) i') as [j'|]; [|reflexivity].
  rewrite nth_error_replace_nth_other; [reflexivity|congruence].
Qed.

Lemma setitem_Ok {A} (l : list A) i x j :
  position (length l) i = Some j -> setitem l i x = Ok (replace_nth l j x).
Proof. intros H. unfold setitem. rewrite H. reflexivity. Qed.

(** ** [sorted] returns a permutation of its argument *)

Section SortedFacts.
Context {A : Type} (ltb : A -> A -> bool).

Lemma insert_perm x l : Permutation (insert ltb x l) (x :: l).
Proof.
  induction l as [|y t IH]; simpl; [reflexivity|].
  destruct (ltb y x); [|reflexivity].
  rewrite IH. apply perm_swap.
Qed.

Lemma sorted_perm l : Permutation (sorted ltb l) l.
Proof.
  induction l as [|x t IH]; simpl; [reflexivity|].
  rewrite insert_perm. now constructor.
Qed.

Lemma sorted_In x l : In x (sorted ltb l) <-> In x l.
Proof.
  split; apply Permutation_in;
    [apply sorted_perm | symmetry; apply sorted_perm].
Qed.

Lemma sorted_length l : length (sorted ltb l) = length l.
Proof. apply Permutation_length, sorted_perm. Qed.

Lemma sorted_nil_inv l : sorted ltb l = [] -> l = [].
Proof.
  intros H. apply length_zero_iff_nil.
  rewrite <- sorted_length, H. reflexivity.
Qed.

(** With a [<] that is irreflexive, transitive and total, nothing in
    the list is smaller than the head of the sorted list. *)
Hypothesis ltb_trans :
  forall x y z, ltb x y = true -> ltb y z = true -> ltb x z = true.
Hypothesis ltb_total :
  forall x y, ltb x y = false -> ltb y x = false -> x = y.
Hypothesis ltb_irrefl : forall x, ltb x x = false.


End SortedFacts.

End PyFacts.

Import PyFacts.

(* ================================================================== *)
(** * The interval aggregator *)

Module AggregateFacts.
Import Aggregate AggregateSpec.

Lemma Interval_eqb_eq x y : Interval_eqb x y = true <-> x = y.
Proof.
  unfold Interval_eqb. destruct x as [b e d], y as [b' e' d']; simpl.
  rewrite !andb_true_iff, !Z.eqb_eq. split.
  - intros [[-> ->] ->]. reflexivity.
  - intros [= -> -> ->]. auto.
Qed.

Lemma Interval_eqb_refl x : Interval_eqb x x = true.
Proof. now apply Interval_eqb_eq. Qed.

Lemma Interval_eqb_neq x y : Interval_eqb x y = false <-> x <> y.
Proof.
  rewrite <- Interval_eqb_eq. destruct (Interval_eqb x y); split; congruence.
Qed.




(** [tree[b:e]] holds the stored intervals that meet the half-open range. *)
Lemma overlap_spec t b e iv :
  In iv (overlap t b e) <-> In iv t /\ b < e /\ ibegin iv < e /\ b < iend iv.
Proof.
  unfold overlap. destruct (e <=? b) eqn:E.
  - apply Z.leb_le in E. simpl. split; [tauto | lia].
  - apply Z.leb_gt in E. rewrite filter_In, andb_true_iff, !Z.ltb_lt. tauto.
Qed.

Section FilterFacts.
Context {K : Type}.
Variable K_eqb : K -> K -> bool.
Variable K_ltb : K -> K -> bool.
Variable int_of_str : string -> option Z.
Variable float_of_str : string -> option float.
Hypothesis K_eqb_spec : forall x y, K_eqb x y = true <-> x = y.

Local Abbreviation dget := (dict_get K_eqb).
Local Abbreviation dset := (dict_set K_eqb).
Local Abbreviation cls := (class int_of_str).
Local Abbreviation kcls := (key_class K_eqb int_of_str).

Lemma K_eqb_refl k : K_eqb k k = true.
Proof. now apply K_eqb_spec. Qed.

Lemma K_eqb_neq x y : x <> y -> K_eqb x y = false.
Proof.
  intros H. destruct (K_eqb x y) eqn:E; [|reflexivity].
  apply K_eqb_spec in E. contradiction.
Qed.

(** ** Dicts *)

Lemma dict_get_In {V} (d : dict V) k v :
  NoDup (map fst d) -> In (k, v) d -> dget d k = Ok v.
Proof.
  induction d as [|[k' v'] d IH]; simpl; [tauto|].
  intros Hnd [H|H].
  - injection H as -> ->. now rewrite K_eqb_refl.
  - inversion Hnd as [|? ? Hnot Hnd']; subst.
    rewrite K_eqb_neq; [auto|].
    intros ->. apply Hnot. change k with (fst (k, v)). now apply in_map.
Qed.

Lemma dict_get_Ok_In {V} (d : dict V) k v : dget d k = Ok v -> In (k, v) d.
Proof.
  induction d as [|[k' v'] d IH]; simpl; [discriminate|].
  destruct (K_eqb k' k) eqn:E.
  - apply K_eqb_spec in E. subst. intros [= ->]. now left.
  - auto.
Qed.

Lemma dict_get_set_same {V} (d : dict V) k v : dget (dset d k v) k = Ok v.
Proof.
  induction d as [|[k' v'] d IH]; simpl.
  - now rewrite K_eqb_refl.
  - destruct (K_eqb k' k) eqn:E; simpl; rewrite E; auto.
Qed.

Lemma dict_get_set_other {V} (d : dict V) k k' v :
  k <> k' -> dget (dset d k v) k' = dget d k'.
Proof.
  intros Hne. induction d as [|[k0 v0] d IH]; simpl.
  - now rewrite K_eqb_neq.
  - destruct (K_eqb k0 k) eqn:E; simpl.
    + apply K_eqb_spec in E. subst k0. now rewrite K_eqb_neq.
    + destruct (K_eqb k0 k'); auto.
Qed.

Lemma dict_set_In {V} (d : dict V) k v k' v' :
  In (k', v') (dset d k v) -> In (k', v') d \/ (k' = k /\ v' = v).
Proof.
  induction d as [|[k0 v0] d IH]; simpl.
  - intros [[= <- <-]|[]]. now right.
  - destruct (K_eqb k0 k) eqn:E; simpl.
    + apply K_eqb_spec in E. subst k0.
      intros [[= <- <-]|H]; [now right|now left; right].
    + intros [H|H]; [now left; left|].
      destruct (IH H) as [H'|H']; [now left; right|now right].
Qed.

(** ** First loop: the groups of [same_target_dict] *)

Lemma assign_loop_pure h scores ix keys acc g :
  assign_loop K_eqb int_of_str h scores ix keys acc = Ok g ->
  g = pure_assign (kcls h scores ix) keys acc.
Proof.
  revert acc; induction keys as [|k rest IH]; simpl; intros acc H.
  - now injection H.
  - bind_inv H. bind_inv H.
    unfold key_class, class. rewrite Hx, Hx0.
    destruct x0; auto.
Qed.


Lemma group_of_append (g : @groups K) t k t' :
  group_of (group_append g t k) t' =
  if Interval_eqb t t' then group_of g t ++ [k] else group_of g t'.
Proof.
  induction g as [|[t0 ks] g IH]; simpl.
  - destruct (Interval_eqb t t'); reflexivity.
  - destruct (Interval_eqb t0 t) eqn:E0; simpl.
    + apply Interval_eqb_eq in E0. subst t0.
      destruct (Interval_eqb t t'); reflexivity.
    + rewrite IH.
      destruct (Interval_eqb t0 t') eqn:E1; [|reflexivity].
      apply Interval_eqb_eq in E1. subst t0.
      destruct (Interval_eqb t t') eqn:E2; [|reflexivity].
      apply Interval_eqb_eq in E2. subst.
      rewrite Interval_eqb_refl in E0. discriminate.
Qed.

Lemma targets_append (g : @groups K) t k :
  map fst (group_append g t k) =
  if existsb (fun t' => Interval_eqb t' t) (map fst g) then map fst g
  else map fst g ++ [t].
Proof.
  induction g as [|[t0 ks] g IH]; simpl; [reflexivity|].
  destruct (Interval_eqb t0 t); simpl; [reflexivity|].
  rewrite IH. destruct (existsb _ _); reflexivity.
Qed.

Lemma targets_append_In (g : @groups K) t k t' :
  In t' (map fst (group_append g t k)) <-> In t' (map fst g) \/ t' = t.
Proof.
  rewrite targets_append.
  destruct (existsb _ _) eqn:E.
  - apply existsb_exists in E as [t0 [Hin Heq]].
    apply Interval_eqb_eq in Heq. subst t0.
    split; [tauto|]. intros [H| ->]; assumption.
  - rewrite in_app_iff. simpl. intuition.
Qed.

Lemma targets_append_NoDup (g : @groups K) t k :
  NoDup (map fst g) -> NoDup (map fst (group_append g t k)).
Proof.
  intros H. rewrite targets_append.
  destruct (existsb _ _) eqn:E; [assumption|].
  apply NoDup_app; [assumption|repeat constructor; simpl; tauto|].
  intros x Hx [Hxt|[]]. subst x.
  assert (existsb (fun t' => Interval_eqb t' t) (map fst g) = true).
  { apply existsb_exists. exists t. split; [assumption|].
    apply Interval_eqb_refl. }
  congruence.
Qed.

Lemma group_of_In (g : @groups K) t ks :
  NoDup (map fst g) -> In (t, ks) g -> group_of g t = ks.
Proof.
  induction g as [|[t0 ks0] g IH]; simpl; [tauto|].
  intros Hnd [H|H].
  - injection H as -> ->. now rewrite Interval_eqb_refl.
  - inversion Hnd as [|? ? Hnot Hnd']; subst.
    destruct (Interval_eqb t0 t) eqn:E; [|auto].
    apply Interval_eqb_eq in E. subst t0.
    exfalso. apply Hnot. change t with (fst (t, ks)). now apply in_map.
Qed.

Lemma group_of_pure_assign c keys (acc : @groups K) t :
  group_of (pure_assign c keys acc) t =
  group_of acc t ++ filter (has_target c t) keys.
Proof.
  revert acc; induction keys as [|k rest IH]; simpl; intros acc.
  - now rewrite app_nil_r.
  - destruct (has_target c t k) eqn:Eh; unfold has_target in Eh;
      destruct (c k) as [t0|] eqn:Ec; try discriminate; rewrite IH;
      try reflexivity; rewrite group_of_append, Eh;
      [apply Interval_eqb_eq in Eh; subst t0; now rewrite <- app_assoc
      | reflexivity].
Qed.

Lemma targets_pure_assign c keys (acc : @groups K) t :
  In t (map fst (pure_assign c keys acc)) <->
  In t (map fst acc) \/ exists k, In k keys /\ c k = Some t.
Proof.
  revert acc; induction keys as [|k rest IH]; simpl; intros acc.
  - split; [tauto|]. intros [H|[k [[] _]]]. assumption.
  - destruct (c k) as [t0|] eqn:Ec; rewrite IH.
    + rewrite targets_append_In. split.
      * intros [[H| ->]|[k' [H1 H2]]]; eauto.
      * intros [H|[k' [[<-|H1] H2]]]; eauto.
        left; right; congruence.
    + split.
      * intros [H|[k' [H1 H2]]]; eauto.
      * intros [H|[k' [[<-|H1] H2]]]; eauto. congruence.
Qed.

Lemma targets_pure_assign_NoDup c keys (acc : @groups K) :
  NoDup (map fst acc) -> NoDup (map fst (pure_assign c keys acc)).
Proof.
  revert acc; induction keys as [|k rest IH]; simpl; intros acc H; auto.
  destruct (c k); auto using targets_append_NoDup.
Qed.

Lemma has_target_true (c : K -> option Interval) t k :
  has_target c t k = true <-> c k = Some t.
Proof.
  unfold has_target. destruct (c k) as [t'|]; [|split; discriminate].
  rewrite Interval_eqb_eq. split; congruence.
Qed.

(** What the first loop leaves in [same_target_dict]: one entry per target
    that some key is assigned to, holding these keys in dict order. *)
Lemma assign_targets_groups h scores ix g :
  assign_targets K_eqb int_of_str h scores ix = Ok g ->
  NoDup (map fst g) /\
  (forall t ks, In (t, ks) g ->
     ks = filter (has_target (kcls h scores ix) t) (map fst scores)
     /\ ks <> []) /\
  (forall t k, In k (map fst scores) -> kcls h scores ix k = Some t ->
     exists ks, In (t, ks) g /\ In k ks).
Proof.
  intros H. apply assign_loop_pure in H.
  assert (Hnd : NoDup (map fst g))
    by (subst g; apply targets_pure_assign_NoDup; constructor).
  assert (Hks : forall t ks, In (t, ks) g ->
            ks = filter (has_target (kcls h scores ix) t) (map fst scores)).
  { intros t ks Hin. rewrite <- (group_of_In g t ks Hnd Hin).
    subst g. now rewrite group_of_pure_assign. }
  split; [exact Hnd|split].
  - intros t ks Hin. split; [auto|].
    assert (Ht : In t (map fst g))
      by (change t with (fst (t, ks)); now apply in_map).
    rewrite H in Ht. apply targets_pure_assign in Ht as [[]|[k [Hk Hc]]].
    rewrite (Hks t ks Hin). intros E.
    assert (In k (filter (has_target (kcls h scores ix) t) (map fst scores)))
      by (apply filter_In; split; [assumption|now apply has_target_true]).
    rewrite E in *. contradiction.
  - intros t k Hk Hc.
    assert (Ht : In t (map fst g)).
    { rewrite H. apply targets_pure_assign. right. eauto. }
    apply in_map_iff in Ht as [[t' ks] [Heq Hin]]. simpl in Heq. subst t'.
    exists ks. split; [assumption|].
    rewrite (Hks t ks Hin). apply filter_In. split; [assumption|].
    now apply has_target_true.
Qed.

(** ** Second loop: one merged line per group *)

Lemma getitem_0 {A} (l : list A) x :
  getitem l 0 = Ok x -> exists rest, l = x :: rest.
Proof.
  destruct l as [|y t]; [discriminate|].
  unfold getitem, position; simpl. intros [= ->]. eauto.
Qed.

Lemma store_item_spec h a i v h1 :
  store_item h a i v = Ok h1 ->
  exists line, setitem (h a) i v = Ok line /\ h1 a = line /\
               forall b, b <> a -> h1 b = h b.
Proof.
  unfold store_item. intros H. bind_inv H. injection H as <-.
  exists x. split; [assumption|split].
  - now rewrite Nat.eqb_refl.
  - intros b Hb. apply Nat.eqb_neq in Hb. now rewrite Hb.
Qed.

Lemma store_item_at h a i v h1 b :
  store_item h a i v = Ok h1 ->
  h1 b = if Nat.eqb b a then h1 a else h b.
Proof.
  intros H. apply store_item_spec in H as [line [_ [_ Hf]]].
  destruct (Nat.eqb b a) eqn:E.
  - apply Nat.eqb_eq in E. now subst.
  - apply Nat.eqb_neq in E. auto.
Qed.

Lemma merge_target_spec h scores ks acc h1 acc1 :
  merge_target K_eqb K_ltb float_of_str h scores ks acc = Ok (h1, acc1) ->
  exists k1 rest kn a1 an vals,
    sorted K_ltb ks = k1 :: rest /\
    getitem (sorted K_ltb ks) (-1) = Ok kn /\
    dget scores k1 = Ok a1 /\
    dget scores kn = Ok an /\
    sum_values K_eqb float_of_str h scores (sorted K_ltb ks) (0, 0, 0)%float
      = Ok vals /\
    write_line (h a1) (h an) (Nat.eqb an a1) vals = Ok (h1 a1) /\
    (forall b, b <> a1 -> h1 b = h b) /\
    acc1 = dset acc k1 a1.
Proof.
  unfold merge_target. intros H.
  apply bind_Ok in H as [[[v0 v1] v2] [Hsum H]].
  apply bind_Ok in H as [k1 [Hfirst H]].
  apply bind_Ok in H as [a1 [Ha1 H]].
  apply bind_Ok in H as [kn [Hlast H]].
  apply bind_Ok in H as [an [Han H]].
  apply bind_Ok in H as [v [Hv H]].
  apply bind_Ok in H as [ha [Hs1 H]].
  apply bind_Ok in H as [kn' [Hlast' H]].
  rewrite Hlast in Hlast'. injection Hlast' as <-.
  apply bind_Ok in H as [an' [Han' H]].
  rewrite Han in Han'. injection Han' as <-.
  apply bind_Ok in H as [v' [Hv' H]].
  apply bind_Ok in H as [hb [Hs2 H]].
  apply bind_Ok in H as [hc [Hs3 H]].
  apply bind_Ok in H as [hd [Hs4 H]].
  apply bind_Ok in H as [he [Hs5 H]].
  apply bind_Ok in H as [k1' [Hfirst' H]].
  rewrite Hfirst in Hfirst'. injection Hfirst' as <-.
  injection H as <- <-.
  destruct (getitem_0 _ _ Hfirst) as [rest Hsorted].
  rewrite (store_item_at _ _ _ _ _ an Hs1) in Hv'.
  apply store_item_spec in Hs1 as [l1 [Hl1 [E1 F1]]].
  apply store_item_spec in Hs2 as [l2 [Hl2 [E2 F2]]].
  apply store_item_spec in Hs3 as [l3 [Hl3 [E3 F3]]].
  apply store_item_spec in Hs4 as [l4 [Hl4 [E4 F4]]].
  apply store_item_spec in Hs5 as [l5 [Hl5 [E5 F5]]].
  exists k1, rest, kn, a1, an, (v0, v1, v2).
  repeat split; try assumption.
  - unfold write_line. rewrite Hv; simpl. rewrite Hl1; simpl.
    rewrite E1 in Hv', Hl2.
    replace (getitem (if Nat.eqb an a1 then l1 else h an) (-5)) with (Ok v')
      by (rewrite <- Hv'; destruct (Nat.eqb an a1); reflexivity).
    simpl. rewrite Hl2; simpl.
    rewrite E2 in Hl3. rewrite Hl3; simpl.
    rewrite E3 in Hl4. rewrite Hl4; simpl.
    rewrite E4 in Hl5. rewrite Hl5. now rewrite E5.
  - intros b Hb. now rewrite F5, F4, F3, F2, F1.
Qed.

Lemma sum_values_ext h h0 scores ks v :
  (forall k a, In k ks -> dget scores k = Ok a -> h a = h0 a) ->
  sum_values K_eqb float_of_str h scores ks v =
  sum_values K_eqb float_of_str h0 scores ks v.
Proof.
  revert v; induction ks as [|k rest IH]; simpl; intros v Hagree;
    [reflexivity|].
  destruct (dget scores k) as [a|e] eqn:Ea; simpl; [|reflexivity].
  rewrite (Hagree k a (or_introl eq_refl) Ea).
  destruct (map_result _ _); simpl; [|reflexivity].
  destruct (np_iadd v a0); simpl; [|reflexivity].
  apply IH. intros k' a' Hin. apply Hagree. now right.
Qed.

Lemma first_ref_class h0 scores ix g t ks a :
  (forall t ks k, In (t, ks) g -> In k ks -> kcls h0 scores ix k = Some t) ->
  In (t, ks) g -> first_ref K_eqb K_ltb scores ks = Some a ->
  cls h0 ix a = Some t.
Proof.
  intros Hcls Hin. unfold first_ref.
  destruct (sorted K_ltb ks) as [|k1 rest] eqn:Es; [discriminate|].
  destruct (dget scores k1) as [a'|] eqn:Ea; [|discriminate].
  intros [= <-].
  assert (Hk : In k1 ks) by (apply (sorted_In K_ltb); rewrite Es; now left).
  specialize (Hcls t ks k1 Hin Hk). unfold key_class in Hcls.
  now rewrite Ea in Hcls.
Qed.

Lemma merge_loop_spec h0 scores ix g :
  forall h acc h' acc',
  NoDup (map fst g) ->
  (forall t ks k, In (t, ks) g -> In k ks -> kcls h0 scores ix k = Some t) ->
  (forall b t, cls h0 ix b = Some t -> In t (map fst g) -> h b = h0 b) ->
  merge_loop K_eqb K_ltb float_of_str h scores g acc = Ok (h', acc') ->
  (forall b, (forall t ks, In (t, ks) g ->
                first_ref K_eqb K_ltb scores ks <> Some b) -> h' b = h b) /\
  (forall k, (forall t, In t (map fst g) -> kcls h0 scores ix k <> Some t) ->
             dget acc' k = dget acc k) /\
  (forall k a, In (k, a) acc' ->
     In (k, a) acc \/
     (dget scores k = Ok a /\ exists t ks, In (t, ks) g /\ In k ks)) /\
  (forall t ks, In (t, ks) g ->
     merged K_eqb K_ltb float_of_str h0 scores ks h' acc').
Proof.
  induction g as [|[t ks] g IH]; intros h acc h' acc' Hnd Hcls Hagree H.
  - simpl in H. injection H as <- <-.
    repeat split; auto. intros t ks [].
  - simpl in H. apply bind_Ok in H as [[h1 acc1] [Hm H]].
    inversion Hnd as [|? ? Hnot Hnd']; subst.
    destruct (merge_target_spec _ _ _ _ _ _ Hm)
      as (k1 & rest & kn & a1 & an & vals &
          Hs & Hlast & Ha1 & Han & Hsum & Hw & Hframe & Hacc).
    assert (Hk1 : In k1 ks)
      by (apply (sorted_In K_ltb); rewrite Hs; now left).
    assert (Hkn : In kn ks).
    { apply (sorted_In K_ltb).
      apply getitem_Ok_position in Hlast as [j [_ Hj]].
      eapply nth_error_In; eauto. }
    assert (Hfr : first_ref K_eqb K_ltb scores ks = Some a1)
      by (unfold first_ref; now rewrite Hs, Ha1).
    assert (Hc1 : cls h0 ix a1 = Some t).
    { eapply first_ref_class; eauto. now left. }
    assert (Hkc : forall k a, In k ks -> dget scores k = Ok a ->
                              cls h0 ix a = Some t).
    { intros k a Hk Ha. specialize (Hcls t ks k (or_introl eq_refl) Hk).
      unfold key_class in Hcls. now rewrite Ha in Hcls. }
    assert (Hag : forall k a, In k ks -> dget scores k = Ok a -> h a = h0 a).
    { intros k a Hk Ha. apply (Hagree a t); [eauto|now left]. }
    specialize (IH h1 acc1 h' acc' Hnd').
    destruct IH as (IHf & IHa & IHi & IHm); try assumption.
    { intros t' ks' k Hin. apply Hcls. now right. }
    { intros b t' Hb Hin. rewrite Hframe.
      - apply (Hagree b t'); [assumption|now right].
      - intros ->. rewrite Hc1 in Hb. injection Hb as <-. contradiction. }
    assert (Hrest : forall t' ks', In (t', ks') g ->
                      first_ref K_eqb K_ltb scores ks' <> Some a1).
    { intros t' ks' Hin Hf.
      assert (cls h0 ix a1 = Some t').
      { eapply first_ref_class with (g := (t, ks) :: g); eauto. now right. }
      assert (t' = t) by congruence. subst t'.
      apply Hnot. change t with (fst (t, ks')). now apply in_map. }
    repeat split.
    + intros b Hb. rewrite IHf.
      * apply Hframe. intros ->. apply (Hb t ks); [now left|assumption].
      * intros t' ks' Hin. apply (Hb t' ks'). now right.
    + intros k Hk. rewrite IHa.
      * rewrite Hacc. apply dict_get_set_other. intros <-.
        apply (Hk t); [now left|].
        unfold key_class. now rewrite Ha1.
      * intros t' Hin. apply Hk. now right.
    + intros k a Hin.
      destruct (IHi k a Hin) as [Hi|[Hi (t' & ks' & Hg & Hk)]].
      * rewrite Hacc in Hi. apply dict_set_In in Hi as [Hi|[-> ->]]; auto.
        right. split; [assumption|]. exists t, ks. split; [now left|assumption].
      * right. split; [assumption|]. exists t', ks'. split; [now right|assumption].
    + intros t' ks' [Heq|Hin]; [|now apply (IHm t' ks')].
      injection Heq as <- <-.
      exists k1, rest, kn, a1, an, vals.
      repeat split; try assumption.
      * rewrite <- Hsum. symmetry. apply sum_values_ext.
        intros k a Hk. apply Hag.
        exact (proj1 (sorted_In K_ltb k ks) Hk).
      * rewrite <- (Hag k1 a1 Hk1 Ha1), <- (Hag kn an Hkn Han).
        rewrite (IHf a1 Hrest). exact Hw.
      * rewrite IHa.
        -- rewrite Hacc. apply dict_get_set_same.
        -- intros t' Hin Hc. unfold key_class in Hc. rewrite Ha1 in Hc.
           assert (t' = t) by congruence. subst t'. contradiction.
Qed.

(** ** The fields of a merged line *)

Lemma write_line_fields line last same v0 v1 v2 l L :
  write_line line last same (v0, v1, v2) = Ok l ->
  length line = L -> length last = L -> (7 <= L)%nat ->
  length l = L /\
  getitem l 1 = getitem line 1 /\
  getitem l 2 = getitem last 2 /\
  getitem l (-3) = Ok (VFloat v0) /\
  getitem l (-2) = Ok (VFloat v1) /\
  getitem l (-1) = Ok (VFloat v2).
Proof.
  unfold write_line. intros H Hline Hlast HL.
  apply bind_Ok in H as [v [Hv H]].
  apply bind_Ok in H as [l1 [H1 H]].
  apply bind_Ok in H as [v' [Hv' H]].
  apply bind_Ok in H as [l2 [H2 H]].
  apply bind_Ok in H as [l3 [H3 H]].
  apply bind_Ok in H as [l4 [H4 H5]].
  pose proof (setitem_length _ _ _ _ H1) as E1.
  pose proof (setitem_length _ _ _ _ H2) as E2.
  pose proof (setitem_length _ _ _ _ H3) as E3.
  pose proof (setitem_length _ _ _ _ H4) as E4.
  pose proof (setitem_length _ _ _ _ H5) as E5.
  rewrite Hline in E1. rewrite E1 in E2. rewrite E2 in E3.
  rewrite E3 in E4. rewrite E4 in E5.
  assert (P1 : position L 1 = Some 1%nat) by (apply position_nonneg; lia).
  assert (P2 : position L 2 = Some 2%nat) by (apply position_nonneg; lia).
  assert (P5 : position L (-5) = Some (L - 5)%nat).
  { rewrite position_neg by lia. f_equal. lia. }
  assert (P3 : position L (-3) = Some (L - 3)%nat).
  { rewrite position_neg by lia. f_equal. lia. }
  assert (P2' : position L (-2) = Some (L - 2)%nat).
  { rewrite position_neg by lia. f_equal. lia. }
  assert (P1' : position L (-1) = Some (L - 1)%nat).
  { rewrite position_neg by lia. f_equal. lia. }
  split; [assumption|].
  split; [|split; [|split; [|split]]].
  - rewrite (setitem_getitem_other _ _ _ 1 _ H5)
      by (rewrite E4, P1, P1'; intros [=]; lia).
    rewrite (setitem_getitem_other _ _ _ 1 _ H4)
      by (rewrite E3, P1, P2'; intros [=]; lia).
    rewrite (setitem_getitem_other _ _ _ 1 _ H3)
      by (rewrite E2, P1, P3; intros [=]; lia).
    rewrite (setitem_getitem_other _ _ _ 1 _ H2)
      by (rewrite E1, P1, P5; intros [=]; lia).
    apply (setitem_getitem_other _ _ _ 1 _ H1).
    rewrite Hline, P1, P2. intros [=].
  - rewrite (setitem_getitem_other _ _ _ 2 _ H5)
      by (rewrite E4, P2, P1'; intros [=]; lia).
    rewrite (setitem_getitem_other _ _ _ 2 _ H4)
      by (rewrite E3, P2, P2'; intros [=]; lia).
    rewrite (setitem_getitem_other _ _ _ 2 _ H3)
      by (rewrite E2, P2, P3; intros [=]; lia).
    rewrite Hv.
    assert (G1 : getitem l1 2 = Ok v).
    { apply (setitem_getitem_same _ _ _ 2 _ H1). reflexivity. }
    destruct (Nat.eq_dec L 7) as [E7|N7].
    + rewrite (setitem_getitem_same _ _ _ 2 _ H2)
        by (rewrite E1, P2, P5; f_equal; lia).
      rewrite <- Hv'.
      assert (Q : forall r : record, length r = L ->
                    getitem r (-5) = getitem r 2).
      { intros r Hr. rewrite (getitem_position r (-5) 2), (getitem_position r 2 2);
          rewrite ?Hr; auto. rewrite P5. f_equal. lia. }
      destruct same.
      * rewrite (Q l1 E1). exact G1.
      * rewrite (Q last Hlast). exact Hv.
    + rewrite (setitem_getitem_other _ _ _ 2 _ H2)
        by (rewrite E1, P2, P5; intros [=]; lia).
      exact G1.
  - rewrite (setitem_getitem_other _ _ _ (-3) _ H5)
      by (rewrite E4, P3, P1'; intros [=]; lia).
    rewrite (setitem_getitem_other _ _ _ (-3) _ H4)
      by (rewrite E3, P3, P2'; intros [=]; lia).
    apply (setitem_getitem_same _ _ _ (-3) _ H3). reflexivity.
  - rewrite (setitem_getitem_other _ _ _ (-2) _ H5)
      by (rewrite E4, P2', P1'; intros [=]; lia).
    apply (setitem_getitem_same _ _ _ (-2) _ H4). reflexivity.
  - apply (setitem_getitem_same _ _ _ (-1) _ H5). reflexivity.
Qed.

Lemma slice_last3 {A} (l : list A) :
  (3 <= length l)%nat ->
  exists a b c, slice_from l (-3) = [a; b; c] /\
                getitem l (-3) = Ok a /\
                getitem l (-2) = Ok b /\
                getitem l (-1) = Ok c.
Proof.
  intros H. unfold slice_from, slice_bound.
  replace (-3 <? 0) with true by reflexivity.
  set (n := Z.to_nat (Z.max 0 (Z.of_nat (length l) + -3))).
  assert (Hn : n = (length l - 3)%nat) by (unfold n; lia).
  assert (Hlen : length (skipn n l) = 3%nat) by (rewrite length_skipn; lia).
  destruct (skipn n l) as [|a [|b [|c [|d t]]]] eqn:E; try discriminate.
  exists a, b, c. split; [reflexivity|].
  assert (N : forall i, nth_error l (n + i) = nth_error [a; b; c] i).
  { intros i. rewrite <- E. symmetry. apply nth_error_skipn. }
  repeat split.
  - rewrite (getitem_position l (-3) (n + 0)).
    + now rewrite N.
    + rewrite position_neg by lia. f_equal. lia.
  - rewrite (getitem_position l (-2) (n + 1)).
    + now rewrite N.
    + rewrite position_neg by lia. f_equal. lia.
  - rewrite (getitem_position l (-1) (n + 2)).
    + now rewrite N.
    + rewrite position_neg by lia. f_equal. lia.
Qed.

(** What the accumulation loop returns is the componentwise running sum
    of the trailing fields of the lines, in the order of the keys. *)
Lemma sum_values_spec h scores ks v v' :
  (forall k a, In k ks -> dget scores k = Ok a -> (3 <= length (h a))%nat) ->
  sum_values K_eqb float_of_str h scores ks v = Ok v' ->
  exists contrib,
    Forall2 (fun k c => exists a, dget scores k = Ok a /\
                                  trailing float_of_str (h a) = Ok c)
      ks contrib /\
    v' = fold_left add3 contrib v.
Proof.
  revert v; induction ks as [|k rest IH]; simpl; intros v Hlen H.
  - injection H as <-. exists []. split; constructor.
  - apply bind_Ok in H as [a [Ha H]].
    apply bind_Ok in H as [xs [Hxs H]].
    apply bind_Ok in H as [v1 [Hadd H]].
    destruct (slice_last3 (h a)) as (f0 & f1 & f2 & Hs & G0 & G1 & G2);
      [eauto|].
    rewrite Hs in Hxs. simpl in Hxs.
    apply bind_Ok in Hxs as [x0 [Hx0 Hxs]].
    apply bind_Ok in Hxs as [ys [Hys Hxs]].
    apply bind_Ok in Hys as [x1 [Hx1 Hys]].
    apply bind_Ok in Hys as [zs [Hzs Hys]].
    apply bind_Ok in Hzs as [x2 [Hx2 Hzs]].
    injection Hzs as <-. injection Hys as <-. injection Hxs as <-.
    destruct v as [[w0 w1] w2]. simpl in Hadd. injection Hadd as <-.
    destruct (IH _ (fun k' a' Hin => Hlen k' a' (or_intror Hin)) H)
      as [contrib [HF Hfold]].
    exists ((x0, x1, x2) :: contrib). split.
    + constructor; [|assumption]. exists a. split; [assumption|].
      unfold trailing. rewrite G0, G1, G2; simpl.
      now rewrite Hx0, Hx1, Hx2.
    + exact Hfold.
Qed.

Lemma fold_add3 contrib v0 v1 v2 :
  fold_left add3 contrib (v0, v1, v2) =
  (fold_left PrimFloat.add (map fst3 contrib) v0,
   fold_left PrimFloat.add (map snd3 contrib) v1,
   fold_left PrimFloat.add (map thd3 contrib) v2).
Proof.
  revert v0 v1 v2; induction contrib as [|[[c0 c1] c2] t IH]; simpl;
    intros v0 v1 v2; [reflexivity|apply IH].
Qed.

(** ** The function as a whole *)

Section Whole.
Variable intervalListToIntervalTree : list (string * Z * Z) -> index.

Local Abbreviation filter :=
  (filter_scores_target_list K_eqb K_ltb int_of_str float_of_str
     intervalListToIntervalTree).
Local Abbreviation used := (index_used intervalListToIntervalTree).

Lemma filter_aggregate h scores pTargetList pTree ix :
  used pTargetList pTree = Some ix ->
  filter h scores pTargetList pTree =
  aggregate K_eqb K_ltb int_of_str float_of_str h scores ix.
Proof.
  unfold filter_scores_target_list, index_used.
  destruct pTargetList as [target|].
  - destruct (Nat.eqb _ 0); [discriminate|]. now intros [= <-].
  - now intros ->.
Qed.

Lemma filter_cases h scores pTargetList pTree r :
  filter h scores pTargetList pTree = Ok r ->
  r = (h, []) \/
  exists ix, used pTargetList pTree = Some ix /\
             aggregate K_eqb K_ltb int_of_str float_of_str h scores ix = Ok r.
Proof.
  unfold filter_scores_target_list, index_used.
  destruct pTargetList as [target|].
  - destruct (Nat.eqb _ 0).
    + intros [= <-]. now left.
    + intros H. right. eauto.
  - destruct pTree as [ix|]; [|discriminate].
    intros H. right. eauto.
Qed.

(** What the two loops establish together. *)
Lemma aggregate_spec h scores ix h' accepted :
  aggregate K_eqb K_ltb int_of_str float_of_str h scores ix = Ok (h', accepted) ->
  exists same,
    assign_targets K_eqb int_of_str h scores ix = Ok same /\
    (forall b, (forall t ks, In (t, ks) same ->
                  first_ref K_eqb K_ltb scores ks <> Some b) -> h' b = h b) /\
    (forall k a, In (k, a) accepted ->
       dget scores k = Ok a /\ exists t ks, In (t, ks) same /\ In k ks) /\
    (forall t ks, In (t, ks) same ->
       merged K_eqb K_ltb float_of_str h scores ks h' accepted).
Proof.
  unfold aggregate. intros H. apply bind_Ok in H as [same [Ha Hm]].
  exists same. split; [assumption|].
  destruct (assign_targets_groups _ _ _ _ Ha) as (Hnd & Hks & _).
  destruct (merge_loop_spec h scores ix same h [] h' accepted) as (F & _ & I & M);
    auto.
  { intros t ks k Hin Hk. destruct (Hks t ks Hin) as [-> _].
    apply filter_In in Hk as [_ Hk]. now apply has_target_true in Hk. }
  split; [exact F|split; [|exact M]].
  intros k a Hin. destruct (I k a Hin) as [[]|Hi]. exact Hi.
Qed.

(** C1. For every target that received keys in the first loop, the output
    dict holds, under the first key of the group in sorted order, a line
    whose start is the start of that first key's line, whose end is the end
    of the line of the last key in sorted order, and whose three trailing
    fields are the floating-point sums, accumulated from 0.0 in sorted key
    order, of the three trailing fields of the lines of the group. Lines
    have the common length [L] of the record layout, at least seven. *)
Theorem merged_record_conservation
    h scores pTargetList pTree ix L h' accepted same :
  NoDup (map fst scores) ->
  (7 <= L)%nat ->
  (forall k a, In (k, a) scores -> length (h a) = L) ->
  used pTargetList pTree = Some ix ->
  filter h scores pTargetList pTree = Ok (h', accepted) ->
  assign_targets K_eqb int_of_str h scores ix = Ok same ->
  forall target ks, In (target, ks) same ->
  exists k1 rest kn a1 an contrib,
    sorted K_ltb ks = k1 :: rest /\
    getitem (sorted K_ltb ks) (-1) = Ok kn /\
    dget scores k1 = Ok a1 /\
    dget scores kn = Ok an /\
    Forall2 (fun k c => exists a, dget scores k = Ok a /\
                                  trailing float_of_str (h a) = Ok c)
      (sorted K_ltb ks) contrib /\
    dget accepted k1 = Ok a1 /\
    getitem (h' a1) 1 = getitem (h a1) 1 /\
    getitem (h' a1) 2 = getitem (h an) 2 /\
    getitem (h' a1) (-3) = Ok (VFloat (fsum (map fst3 contrib))) /\
    getitem (h' a1) (-2) = Ok (VFloat (fsum (map snd3 contrib))) /\
    getitem (h' a1) (-1) = Ok (VFloat (fsum (map thd3 contrib))).
Proof.
  intros Hnd HL Hlen Hused Hf Hsame target ks Hin.
  rewrite (filter_aggregate _ _ _ _ _ Hused) in Hf.
  destruct (aggregate_spec _ _ _ _ _ Hf) as (same' & Hsame' & _ & _ & M).
  rewrite Hsame in Hsame'. injection Hsame' as <-.
  destruct (M target ks Hin)
    as (k1 & rest & kn & a1 & an & vals & Hs & Hlast & Ha1 & Han & Hsum & Hw & Hacc).
  assert (Hl : forall k a, dget scores k = Ok a -> length (h a) = L).
  { intros k a Hk. apply (Hlen k a). now apply dict_get_Ok_In. }
  assert (H3 : forall k a, In k (sorted K_ltb ks) -> dget scores k = Ok a ->
                           (3 <= length (h a))%nat).
  { intros k a _ Hk. rewrite (Hl k a Hk). lia. }
  destruct (sum_values_spec h scores _ _ vals H3 Hsum) as [contrib [HF Hv]].
  rewrite fold_add3 in Hv. subst vals.
  destruct (write_line_fields _ _ _ _ _ _ _ L Hw (Hl _ _ Ha1) (Hl _ _ Han) HL)
    as (_ & G1 & G2 & G3 & G4 & G5).
  exists k1, rest, kn, a1, an, contrib.
  repeat split; assumption.
Qed.


(** C9, as the code has it. The function stores into the lines it returns:
    every object that is not a value of the returned dict is left as it
    was, and every value of the returned dict is the very object the scores
    dict holds under the same key. *)
Theorem filter_frame h scores pTargetList pTree h' accepted :
  NoDup (map fst scores) ->
  filter h scores pTargetList pTree = Ok (h', accepted) ->
  (forall b, ~ In b (map snd accepted) -> h' b = h b) /\
  (forall k a, In (k, a) accepted -> dget scores k = Ok a).
Proof.
  intros Hnd Hf. apply filter_cases in Hf as [[= -> ->]|[ix [_ Ha]]].
  - split; [reflexivity|intros k a []].
  - destruct (aggregate_spec _ _ _ _ _ Ha) as (same & _ & F & I & M).
    split.
    + intros b Hb. apply F. intros t ks Hin Hfr. apply Hb.
      destruct (M t ks Hin)
        as (k1 & rest & kn & a1 & an & vals & Hs & _ & Ha1 & _ & _ & _ & Hacc).
      unfold first_ref in Hfr. rewrite Hs, Ha1 in Hfr. injection Hfr as <-.
      apply dict_get_Ok_In in Hacc.
      change a1 with (snd (k1, a1)). now apply in_map.
    + intros k a Hin. now destruct (I k a Hin).
Qed.

End Whole.

End FilterFacts.
End AggregateFacts.

(* ================================================================== *)
(** * The statistical tester *)

Module DiffTestFacts.
Import DiffTest DiffTestSpec.

(** ** Comparisons of binary64 numbers *)

Lemma SFcompare_Eq_sym x y :
  SFcompare x y = Some Eq -> SFcompare y x = Some Eq.
Proof.
  destruct x as [sx|sx| |sx mx ex], y as [sy|sy| |sy my ey]; simpl;
    try discriminate; try reflexivity;
    try (destruct sx; discriminate); try (destruct sy; discriminate).
  - destruct sx, sy; try discriminate; reflexivity.
  - destruct sx, sy; try discriminate;
      destruct (Z.compare ex ey) eqn:E; try discriminate;
      apply Z.compare_eq in E; subst ey; rewrite Z.compare_refl; intros H;
      injection H as H.
    + apply (f_equal CompOpp) in H. rewrite CompOpp_involutive in H.
      simpl in H. apply Pos.compare_eq in H. subst my.
      now rewrite Pos.compare_cont_refl.
    + apply Pos.compare_eq in H. subst my.
      now rewrite Pos.compare_cont_refl.
Qed.

(** [x == y] gives [x <= y] and [x >= y]. *)
Lemma float_eqb_leb x y : (x =? y)%float = true -> (x <=? y)%float = true.
Proof.
  rewrite eqb_spec, leb_spec. unfold SFeqb, SFleb.
  destruct (SFcompare (Prim2SF x) (Prim2SF y)) as [[| |]|]; congruence.
Qed.

Lemma float_eqb_geb x y : (x =? y)%float = true -> float_geb x y = true.
Proof.
  unfold float_geb. rewrite eqb_spec, leb_spec. unfold SFeqb, SFleb.
  destruct (SFcompare (Prim2SF x) (Prim2SF y)) as [[| |]|] eqn:E;
    try discriminate.
  intros _. now rewrite (SFcompare_Eq_sym _ _ E).
Qed.

(** ** Enumeration and buckets *)

Lemma indexed_fst {A} i (l : list A) :
  map fst (indexed i l) = map (fun k => i + Z.of_nat k) (seq 0 (length l)).
Proof.
  revert i; induction l as [|x t IH]; intros i; simpl; [reflexivity|].
  f_equal; [lia|]. rewrite IH, <- seq_shift, map_map.
  apply map_ext. intros k. lia.
Qed.

Lemma indexed_length {A} i (l : list A) : length (indexed i l) = length l.
Proof. revert i; induction l; intros i; simpl; auto. Qed.

Lemma indexed_nth {A} i (l : list A) k x :
  nth_error l k = Some x ->
  nth_error (indexed i l) k = Some (i + Z.of_nat k, x).
Proof.
  revert i k; induction l as [|y t IH]; intros i [|k]; simpl; try discriminate.
  - intros [= ->]. do 2 f_equal. lia.
  - intros H. rewrite (IH (i + 1) k H). do 2 f_equal. lia.
Qed.

Lemma indexed_In {A} i (l : list A) j x :
  In (j, x) (indexed i l) ->
  exists k, j = i + Z.of_nat k /\ nth_error l k = Some x.
Proof.
  revert i; induction l as [|y t IH]; intros i; simpl; [tauto|].
  intros [[= <- <-]|H].
  - exists 0%nat. split; [lia|reflexivity].
  - destruct (IH _ H) as [k [-> Hk]]. exists (S k). split; [lia|exact Hk].
Qed.

Section Buckets.
Variable v : group -> group -> verdict.

Lemma bucket_of_length pairs :
  (length (bucket_of false v pairs) + length (bucket_of true v pairs)
   = length pairs)%nat.
Proof.
  induction pairs as [|e t IH]; simpl; [reflexivity|].
  rewrite !length_app.
  destruct (reject (v (fst (snd e)) (snd (snd e)))); simpl; lia.
Qed.

Lemma bucket_of_perm pairs :
  Permutation (map fst (bucket_of false v pairs)
               ++ map fst (bucket_of true v pairs))
    (map fst pairs).
Proof.
  induction pairs as [|e t IH]; simpl; [constructor|].
  rewrite !map_app.
  destruct (reject (v (fst (snd e)) (snd (snd e)))); simpl.
  - symmetry. apply Permutation_cons_app. now symmetry.
  - now constructor.
Qed.

Lemma bucket_of_In b pairs j q :
  In (j, q) (bucket_of b v pairs) <->
  exists g, In (j, g) pairs /\ reject (v (fst g) (snd g)) = b /\
            q = bucket (v (fst g) (snd g)).
Proof.
  unfold bucket_of. rewrite in_flat_map. split.
  - intros [[j' g] [Hin H]]. simpl in H.
    destruct (Bool.eqb _ b) eqn:E; [|contradiction].
    destruct H as [[= <- <-]|[]].
    apply eqb_prop in E. eauto.
  - intros [g [Hin [Hr ->]]]. exists (j, g). split; [assumption|].
    simpl. rewrite Hr, eqb_reflx. now left.
Qed.
End Buckets.

Lemma indexed_In_unique {A} i (l : list A) j x y :
  In (j, x) (indexed i l) -> In (j, y) (indexed i l) -> x = y.
Proof.
  intros Hx Hy.
  apply indexed_In in Hx as [k [-> Hk]].
  apply indexed_In in Hy as [k' [E Hk']].
  assert (k' = k) by lia. subst. congruence.
Qed.

(** ** The two loops compute the buckets *)

Section Loops.
Variable chi2_ppf : float -> Z -> float.
Variable chi2_contingency : group -> group -> option (float * float).
Variable fisher_exact : list group -> option float.
Variable ceil : float -> float.

Local Abbreviation chi_v := (chi_verdict chi2_contingency).
Local Abbreviation fisher_v := (fisher_verdict fisher_exact ceil).

Lemma chisquare_loop_spec cv i pairs st :
  let st' := chisquare_loop chi2_contingency cv i pairs st in
  test_result (chi_out st') =
    test_result (chi_out st)
    ++ map (fun p => recorded (chi_v cv (fst p) (snd p))) pairs /\
  accepted (chi_out st') =
    accepted (chi_out st) ++ bucket_of false (chi_v cv) (indexed i pairs) /\
  rejected (chi_out st') =
    rejected (chi_out st) ++ bucket_of true (chi_v cv) (indexed i pairs) /\
  zero_values_counter st' =
    zero_values_counter st
    + Z.of_nat (length (untestable chi2_contingency pairs)).
Proof.
  revert i st; induction pairs as [|[g1 g2] t IH]; intros i st; simpl.
  - rewrite !app_nil_r. repeat split; lia.
  - destruct (IH (i + 1) (chisquare_step chi2_contingency cv st i g1 g2))
      as (H1 & H2 & H3 & H4).
    rewrite H1, H2, H3, H4. clear IH H1 H2 H3 H4.
    unfold chisquare_step, chi_verdict, bucket_of; simpl.
    destruct (chi2_contingency g1 g2) as [[chi2 p]|]; simpl.
    + destruct (float_geb chi2 cv); simpl;
        rewrite <- ?app_assoc, ?app_nil_r; simpl; repeat split; lia.
    + rewrite <- ?app_assoc, ?app_nil_r; simpl; repeat split; lia.
Qed.

Lemma fisher_loop_spec alpha i pairs o :
  let o' := fisher_loop fisher_exact ceil alpha i pairs o in
  test_result o' =
    test_result o
    ++ map (fun p => recorded (fisher_v alpha (fst p) (snd p))) pairs /\
  accepted o' =
    accepted o ++ bucket_of false (fisher_v alpha) (indexed i pairs) /\
  rejected o' =
    rejected o ++ bucket_of true (fisher_v alpha) (indexed i pairs).
Proof.
  revert i o; induction pairs as [|[g1 g2] t IH]; intros i o; simpl.
  - rewrite !app_nil_r. repeat split.
  - destruct (IH (i + 1) (fisher_step fisher_exact ceil alpha o i g1 g2))
      as (H1 & H2 & H3).
    rewrite H1, H2, H3. clear IH H1 H2 H3.
    unfold fisher_step, fisher_verdict, bucket_of; simpl.
    destruct (fisher_exact _) as [p|]; simpl.
    + destruct (p <=? alpha)%float; simpl;
        rewrite <- ?app_assoc, ?app_nil_r; simpl; repeat split.
    + rewrite <- ?app_assoc, ?app_nil_r; simpl; repeat split.
Qed.

End Loops.
Lemma combine_nth_error {A B} (l1 : list A) (l2 : list B) i x y :
  nth_error l1 i = Some x -> nth_error l2 i = Some y ->
  nth_error (combine l1 l2) i = Some (x, y).
Proof.
  revert l2 i; induction l1 as [|a t IH]; intros [|b t'] [|i]; simpl;
    try discriminate.
  - now intros [= ->] [= ->].
  - apply IH.
Qed.

Lemma bucket_at v (pairs : list (group * group)) i g b :
  nth_error pairs i = Some g ->
  reject (v (fst g) (snd g)) = b ->
  In (Z.of_nat i, bucket (v (fst g) (snd g)))
    (bucket_of b v (indexed 0 pairs)) /\
  forall q, ~ In (Z.of_nat i, q) (bucket_of (negb b) v (indexed 0 pairs)).
Proof.
  intros Hn Hr.
  assert (Hin : In (Z.of_nat i, g) (indexed 0 pairs)).
  { apply (nth_error_In _ i). now rewrite (indexed_nth 0 pairs i g Hn). }
  split.
  - apply bucket_of_In. eauto.
  - intros q Hq. apply bucket_of_In in Hq as [g' [Hin' [Hr' _]]].
    rewrite (indexed_In_unique _ _ _ _ _ Hin' Hin) in Hr'.
    rewrite Hr in Hr'. now destruct b.
Qed.

Section Claims.
Variable chi2_ppf : float -> Z -> float.
Variable chi2_contingency : group -> group -> option (float * float).
Variable fisher_exact : list group -> option float.
Variable ceil : float -> float.

Local Abbreviation chi_test :=
  (chisquare_test chi2_ppf chi2_contingency).
Local Abbreviation fisher_test := (fisher_exact_test fisher_exact ceil).

Lemma chisquare_test_spec d1 d2 alpha :
  let cv := chi2_ppf (1 - alpha)%float 1 in
  let v := chi_verdict chi2_contingency cv in
  let o := snd (chi_test d1 d2 alpha) in
  test_result o = map (fun p => recorded (v (fst p) (snd p))) (combine d1 d2) /\
  accepted o = bucket_of false v (indexed 0 (combine d1 d2)) /\
  rejected o = bucket_of true v (indexed 0 (combine d1 d2)) /\
  fst (chi_test d1 d2 alpha) =
    if (0 <? length (untestable chi2_contingency (combine d1 d2)))%nat
    then [LogInfo (Z.of_nat (length (untestable chi2_contingency
                                       (combine d1 d2))))]
    else [].
Proof.
  cbv zeta. unfold chisquare_test.
  destruct (chisquare_loop_spec chi2_contingency
              (chi2_ppf (1 - alpha)%float 1) 0 (combine d1 d2)
              (mkChi (mkOutcome [] [] []) 0)) as (H1 & H2 & H3 & H4).
  simpl in *. rewrite H1, H2, H3, H4. repeat split.
  destruct (length (untestable chi2_contingency (combine d1 d2))); reflexivity.
Qed.

Lemma fisher_exact_test_spec d1 d2 alpha :
  let v := fisher_verdict fisher_exact ceil alpha in
  let o := fisher_test d1 d2 alpha in
  test_result o = map (fun p => recorded (v (fst p) (snd p))) (combine d1 d2) /\
  accepted o = bucket_of false v (indexed 0 (combine d1 d2)) /\
  rejected o = bucket_of true v (indexed 0 (combine d1 d2)).
Proof.
  cbv zeta. unfold fisher_exact_test.
  destruct (fisher_loop_spec fisher_exact ceil alpha 0 (combine d1 d2)
              (mkOutcome [] [] [])) as (H1 & H2 & H3).
  simpl in *. now rewrite H1, H2, H3.
Qed.

Lemma buckets_complete v d1 d2 o :
  test_result o = map (fun p => recorded (v (fst p) (snd p))) (combine d1 d2) ->
  accepted o = bucket_of false v (indexed 0 (combine d1 d2)) ->
  rejected o = bucket_of true v (indexed 0 (combine d1 d2)) ->
  complete d1 d2 o.
Proof.
  intros H1 H2 H3. unfold complete. rewrite H1, H2, H3, length_map.
  split; [|split].
  - rewrite bucket_of_length. apply indexed_length.
  - apply length_combine.
  - rewrite bucket_of_perm, indexed_fst. reflexivity.
Qed.

(** C6. Both tests put every index of the zipped input into exactly one of
    the two buckets: the indices of [accepted] followed by those of
    [rejected] are a rearrangement of [0 .. n-1], where [n] is the length
    of the full result list, and the bucket lengths add up to [n]. *)
Theorem classification_complete d1 d2 alpha :
  complete d1 d2 (snd (chi_test d1 d2 alpha)) /\
  complete d1 d2 (fisher_test d1 d2 alpha).
Proof.
  split.
  - destruct (chisquare_test_spec d1 d2 alpha) as (H1 & H2 & H3 & _).
    eapply buckets_complete; eauto.
  - destruct (fisher_exact_test_spec d1 d2 alpha) as (H1 & H2 & H3).
    eapply buckets_complete; eauto.
Qed.

(** C7. An index at which the test raises has NaN in the full result
    list and the entry [(i, 1.0)] in [accepted], and no entry in
    [rejected]; the chi-squared test also logs the number of such pairs. *)
Theorem untestable_pair_defaults d1 d2 alpha i g1 g2 :
  nth_error d1 i = Some g1 ->
  nth_error d2 i = Some g2 ->
  (chi2_contingency g1 g2 = None ->
   let o := snd (chi_test d1 d2 alpha) in
   nth_error (test_result o) i = Some nan /\
   In (Z.of_nat i, 1%float) (accepted o) /\
   (forall q, ~ In (Z.of_nat i, q) (rejected o)) /\
   (0 < length (untestable chi2_contingency (combine d1 d2)))%nat /\
   fst (chi_test d1 d2 alpha) =
     [LogInfo (Z.of_nat (length (untestable chi2_contingency
                                   (combine d1 d2))))]) /\
  (fisher_exact [map ceil g1; map ceil g2] = None ->
   let o := fisher_test d1 d2 alpha in
   nth_error (test_result o) i = Some nan /\
   In (Z.of_nat i, 1%float) (accepted o) /\
   (forall q, ~ In (Z.of_nat i, q) (rejected o))).
Proof.
  intros Hd1 Hd2.
  pose proof (combine_nth_error _ _ _ _ _ Hd1 Hd2) as Hn.
  split.
  - intros Hnone. cbv zeta.
    destruct (chisquare_test_spec d1 d2 alpha) as (H1 & H2 & H3 & H4).
    set (v := chi_verdict chi2_contingency (chi2_ppf (1 - alpha)%float 1)) in *.
    assert (Hv : v g1 g2 = mkVerdict nan false 1%float)
      by (unfold v, chi_verdict; now rewrite Hnone).
    destruct (bucket_at v _ i (g1, g2) false Hn) as [Ha Hr];
      [simpl; now rewrite Hv|].
    simpl in Ha, Hr. rewrite Hv in Ha. simpl in Ha.
    assert (Hu : (0 < length (untestable chi2_contingency (combine d1 d2)))%nat).
    { assert (In (g1, g2) (untestable chi2_contingency (combine d1 d2))).
      { apply filter_In. split; [eapply nth_error_In; eauto|].
        simpl. now rewrite Hnone. }
      destruct (untestable chi2_contingency (combine d1 d2));
        [contradiction|simpl; lia]. }
    rewrite H1, H2, H3, H4.
    split; [|split; [exact Ha|split; [exact Hr|split; [exact Hu|]]]].
    + rewrite nth_error_map, Hn. simpl. now rewrite Hv.
    + apply Nat.ltb_lt in Hu. now rewrite Hu.
  - intros Hnone. cbv zeta.
    destruct (fisher_exact_test_spec d1 d2 alpha) as (H1 & H2 & H3).
    set (v := fisher_verdict fisher_exact ceil alpha) in *.
    assert (Hv : v g1 g2 = mkVerdict nan false 1%float)
      by (unfold v, fisher_verdict; now rewrite Hnone).
    destruct (bucket_at v _ i (g1, g2) false Hn) as [Ha Hr];
      [simpl; now rewrite Hv|].
    simpl in Ha, Hr. rewrite Hv in Ha. simpl in Ha.
    rewrite H1, H2, H3.
    split; [|split; [exact Ha|exact Hr]].
    rewrite nth_error_map, Hn. simpl. now rewrite Hv.
Qed.

(** C8. A pair whose chi-squared statistic compares equal to the critical
    value [chi2.ppf(1 - alpha, 1)] is put in [rejected] and not in
    [accepted]; so is, in the Fisher test, a pair whose p-value compares
    equal to alpha. *)
Theorem threshold_boundary_rejects d1 d2 alpha i g1 g2 :
  nth_error d1 i = Some g1 ->
  nth_error d2 i = Some g2 ->
  (forall chi2 p_value,
     chi2_contingency g1 g2 = Some (chi2, p_value) ->
     (chi2 =? chi2_ppf (1 - alpha)%float 1)%float = true ->
     let o := snd (chisquare_test chi2_ppf chi2_contingency d1 d2 alpha) in
     In (Z.of_nat i, p_value) (rejected o) /\
     forall q, ~ In (Z.of_nat i, q) (accepted o)) /\
  (forall p_value,
     fisher_exact [map ceil g1; map ceil g2] = Some p_value ->
     (p_value =? alpha)%float = true ->
     let o := fisher_exact_test fisher_exact ceil d1 d2 alpha in
     In (Z.of_nat i, p_value) (rejected o) /\
     forall q, ~ In (Z.of_nat i, q) (accepted o)).
Proof.
  intros Hd1 Hd2.
  pose proof (combine_nth_error _ _ _ _ _ Hd1 Hd2) as Hn.
  split.
  - intros chi2 p Hc Heq. cbv zeta.
    destruct (chisquare_test_spec d1 d2 alpha) as (_ & H2 & H3 & _).
    set (v := chi_verdict chi2_contingency (chi2_ppf (1 - alpha)%float 1)) in *.
    assert (Hv : v g1 g2 = mkVerdict p true p).
    { unfold v, chi_verdict. rewrite Hc. now rewrite (float_eqb_geb _ _ Heq). }
    destruct (bucket_at v _ i (g1, g2) true Hn) as [Hr Ha];
      [simpl; now rewrite Hv|].
    simpl in Hr, Ha. rewrite Hv in Hr. simpl in Hr.
    rewrite H2, H3. split; assumption.
  - intros p Hc Heq. cbv zeta.
    destruct (fisher_exact_test_spec d1 d2 alpha) as (_ & H2 & H3).
    set (v := fisher_verdict fisher_exact ceil alpha) in *.
    assert (Hv : v g1 g2 = mkVerdict p true p).
    { unfold v, fisher_verdict. rewrite Hc. now rewrite (float_eqb_leb _ _ Heq). }
    destruct (bucket_at v _ i (g1, g2) true Hn) as [Hr Ha];
      [simpl; now rewrite Hv|].
    simpl in Hr, Ha. rewrite Hv in Hr. simpl in Hr.
    rewrite H2, H3. split; assumption.
Qed.

End Claims.
End DiffTestFacts.

(* ================================================================== *)
(** * The store writers *)

Module StoreFacts.
Import Store StoreSpec.

Lemma extends_refl f : extends f f.
Proof. exists []. now rewrite app_nil_r. Qed.

Lemma extends_trans f g h : extends f g -> extends g h -> extends f h.
Proof.
  intros [l Hl] [l' Hl']. exists (l ++ l'). now rewrite Hl', Hl, app_assoc.
Qed.

Lemma extends_In f f' o : extends f f' -> In o (objects f) -> In o (objects f').
Proof. intros [l Hl] H. rewrite Hl. apply in_or_app. now left. Qed.

Lemma create_extends f p c f' :
  create f p c = Ok f' -> extends f f' /\ In (p, c) (objects f').
Proof.
  unfold create. destruct (has f p); [discriminate|]. intros [= <-]. split.
  - now exists [(p, c)].
  - simpl. apply in_or_app. right. now left.
Qed.

Lemma require_group_extends f p f' : require_group f p = Ok f' -> extends f f'.
Proof.
  unfold require_group. destruct (has f p).
  - intros [= <-]. apply extends_refl.
  - intros H. now apply create_extends in H.
Qed.

Create HintDb store.
#[local] Hint Resolve extends_refl extends_trans : store.

(** Runs a chain of creations down to its end, collecting what each step
    adds. *)
Ltac chain H :=
  repeat match type of H with
    | bind (create _ _ _) _ = Ok _ =>
        let f := fresh "f" in let Hc := fresh "Hc" in
        apply bind_Ok in H as [f [Hc H]];
        apply create_extends in Hc as [Hc _]
    | bind (require_group _ _) _ = Ok _ =>
        let f := fresh "f" in let Hc := fresh "Hc" in
        apply bind_Ok in H as [f [Hc H]];
        apply require_group_extends in Hc
    | bind _ _ = Ok _ =>
        let x := fresh "x" in let Hx := fresh "Hx" in
        apply bind_Ok in H as [x [Hx H]]
    end.

Section Result.
Variable py_str : value -> string.

Lemma write_category_extends f wo gene data f' :
  write_category py_str f wo gene data = Ok f' -> extends f f'.
Proof.
  unfold write_category. destruct (Nat.eqb (length data) 0).
  - intros [= <-]. apply extends_refl.
  - intros H. chain H. apply create_extends in H as [H _].
    eauto 12 with store.
Qed.

Lemma write_categories_extends f go gene dict i f' :
  write_categories py_str f go gene dict i = Ok f' -> extends f f'.
Proof.
  revert f; induction dict as [|[category lists] rest IH]; simpl; intros f H.
  - injection H as <-. apply extends_refl.
  - apply bind_Ok in H as [_ [_ H]].
    apply bind_Ok in H as [data [_ H]].
    apply bind_Ok in H as [f1 [H1 H]].
    apply write_category_extends in H1. apply IH in H. eauto with store.
Qed.

Lemma open_gene_groups f inputData f' go gene :
  open_gene f inputData = Ok (f', go, gene) ->
  extends f f' /\
  gene_path inputData = Ok go /\
  In (go, Group) (objects f') /\
  In (go ++ ["accepted"%string], Group) (objects f') /\
  In (go ++ ["rejected"%string], Group) (objects f') /\
  In (go ++ ["all"%string], Group) (objects f').
Proof.
  unfold open_gene, gene_path. intros H.
  apply bind_Ok in H as [m1 [Hm1 H]]. apply bind_Ok in H as [m2 [Hm2 H]].
  apply bind_Ok in H as [c [Hc H]]. apply bind_Ok in H as [g [Hg H]].
  rewrite Hm1, Hm2, Hc, Hg. simpl.
  apply bind_Ok in H as [f1 [H1 H]]. apply require_group_extends in H1.
  apply bind_Ok in H as [f2 [H2 H]]. apply require_group_extends in H2.
  apply bind_Ok in H as [f3 [H3 H]]. apply require_group_extends in H3.
  apply bind_Ok in H as [f4 [H4 H]]. apply create_extends in H4 as [E4 I4].
  apply bind_Ok in H as [f5 [H5 H]]. apply create_extends in H5 as [E5 I5].
  apply bind_Ok in H as [f6 [H6 H]]. apply create_extends in H6 as [E6 I6].
  apply bind_Ok in H as [f7 [H7 H]]. apply create_extends in H7 as [E7 I7].
  injection H as <- <- <-.
  split; [eauto 10 with store|]. split; [reflexivity|].
  split; [|split; [|split]].
  - eapply extends_In; [|exact I4]. eauto with store.
  - eapply extends_In; [|exact I5]. eauto with store.
  - eapply extends_In; [|exact I6]. eauto with store.
  - exact I7.
Qed.

Lemma write_inputs_groups dict i pInputData : forall f f',
  write_inputs py_str f dict i pInputData = Ok f' ->
  extends f f' /\
  forall inputData, In inputData pInputData ->
  exists go, gene_path inputData = Ok go /\
             In (go, Group) (objects f') /\
             In (go ++ ["accepted"%string], Group) (objects f') /\
             In (go ++ ["rejected"%string], Group) (objects f') /\
             In (go ++ ["all"%string], Group) (objects f').
Proof.
  revert i; induction pInputData as [|x rest IH]; simpl; intros i f f' H.
  - injection H as <-. split; [apply extends_refl|intros ? []].
  - apply bind_Ok in H as [[[f1 go] gene] [Ho H]].
    apply bind_Ok in H as [f2 [Hc H]].
    apply open_gene_groups in Ho as (E1 & Hp & G0 & G1 & G2 & G3).
    apply write_categories_extends in Hc.
    destruct (IH _ _ _ H) as [E3 Hrest].
    split; [eauto with store|].
    intros inputData [<-|Hin]; [|now apply Hrest].
    assert (E : extends f1 f') by eauto with store.
    exists go. repeat split; try assumption; eapply extends_In; eauto.
Qed.

End Result.

Section Claims.
Context {K : Type}.
Variable py_str : value -> string.

Lemma write_keys_skip f combination (pairs : list (list string * @scores K)) :
  write_keys f combination pairs = write_keys f combination (with_data pairs).
Proof.
  revert f; induction pairs as [|[key data] rest IH]; intros f; simpl;
    [reflexivity|].
  destruct (Nat.eqb (length data) 0) eqn:E; simpl.
  - unfold write_key. rewrite E. simpl. apply IH.
  - destruct (write_key f combination key data); simpl; auto.
Qed.

(** C10, as the code has it. [writeAggregateHDF] leaves the file as it is
    for a key without lines and goes on with the keys that have some;
    [writeResultHDF] writes nothing into the group of a category without
    lines, but the gene group and its accepted, rejected and all groups
    are made for every input key. *)
Theorem empty_data_is_skipped :
  (forall f combination key (data : @scores K),
     length data = 0%nat -> write_key f combination key data = Ok f) /\
  (forall f combination (pairs : list (list string * @scores K)),
     write_keys f combination pairs =
     write_keys f combination (with_data pairs)) /\
  (forall f write_object gene_name data_object,
     length data_object = 0%nat ->
     write_category py_str f write_object gene_name data_object = Ok f) /\
  (forall pAcceptedData pRejectedData pAllResultData pInputData pAlpha f,
     writeResultHDF py_str pAcceptedData pRejectedData pAllResultData
       pInputData pAlpha = Ok f ->
     forall inputData, In inputData pInputData ->
     exists gene_object,
       gene_path inputData = Ok gene_object /\
       In (gene_object, Group) (objects f) /\
       In (gene_object ++ ["accepted"%string], Group) (objects f) /\
       In (gene_object ++ ["rejected"%string], Group) (objects f) /\
       In (gene_object ++ ["all"%string], Group) (objects f)).
Proof.
  split; [|split; [|split]].
  - intros f combination key data H. unfold write_key. now rewrite H.
  - apply write_keys_skip.
  - intros f wo g data H. unfold write_category. now rewrite H.
  - intros a r l inputs alpha f H. unfold writeResultHDF in H.
    now apply write_inputs_groups in H.
Qed.

End Claims.
End StoreFacts.

(* ================================================================== *)
(** * The parallel dispatcher *)

Module DispatchFacts.
Import Dispatch DispatchSpec.

(** ** Lists of flags *)

Lemma nth_replace_nth_same {A} (l : list A) i x d :
  (i < length l)%nat -> nth i (replace_nth l i x) d = x.
Proof.
  revert i; induction l as [|y t IH]; intros [|i] H; simpl in *; try lia;
    auto. apply IH. lia.
Qed.

Lemma nth_replace_nth_other {A} (l : list A) i j x d :
  i <> j -> nth j (replace_nth l i x) d = nth j l d.
Proof.
  revert i j; induction l as [|y t IH]; intros [|i] [|j] H; simpl; auto;
    congruence.
Qed.

Lemma forallb_nth (l : list bool) :
  forallb (fun done => done) l = true <->
  forall i, (i < length l)%nat -> nth i l true = true.
Proof.
  induction l as [|b t IH]; simpl.
  - split; [intros _ i H; lia|reflexivity].
  - rewrite andb_true_iff, IH. split.
    + intros [-> H] [|i] Hi; [reflexivity|apply H; lia].
    + intros H. split; [apply (H 0%nat); lia|].
      intros i Hi. apply (H (S i)). lia.
Qed.

(** ** The last arrival *)

Lemma last_arrival_bound (arrival : nat -> nat) T i :
  (i < T)%nat -> (arrival i <= last_arrival arrival T)%nat.
Proof.
  unfold last_arrival. intros H.
  assert (Hin : In (arrival i) (map arrival (seq 0 T))).
  { apply in_map, in_seq. lia. }
  induction (map arrival (seq 0 T)) as [|x t IH]; simpl in *; [tauto|].
  destruct Hin as [->|Hin]; [lia|]. specialize (IH Hin). lia.
Qed.

Lemma last_arrival_reached (arrival : nat -> nat) T :
  (0 < T)%nat ->
  exists i, (i < T)%nat /\ arrival i = last_arrival arrival T.
Proof.
  unfold last_arrival. intros HT.
  assert (H : forall l, l <> [] ->
            exists i, In i l /\ arrival i = fold_right Nat.max 0%nat (map arrival l)).
  { induction l as [|x [|y t] IH]; intros Hne; [congruence| |].
    - exists x. split; [now left|]. simpl. lia.
    - destruct IH as [i [Hi E]]; [discriminate|].
      change (fold_right Nat.max 0%nat (map arrival (x :: y :: t)))
        with (Nat.max (arrival x)
                (fold_right Nat.max 0%nat (map arrival (y :: t)))).
      set (m := fold_right Nat.max 0%nat (map arrival (y :: t))) in *.
      destruct (Nat.le_ge_cases (arrival x) m).
      + exists i. split; [now right|]. lia.
      + exists x. split; [now left|]. lia. }
  destruct (H (seq 0 T)) as [i [Hi E]].
  - destruct T; [lia|discriminate].
  - exists i. apply in_seq in Hi. split; [lia|exact E].
Qed.

(** ** One message *)

Section PollFacts.
Context {P : Type}.
Variable queue : nat -> message P.
Variable arrival : nat -> nat.

Lemma receive_done i m (st st' : poll_state P) :
  receive i m st = Ok st' ->
  length (thread_done st') = length (thread_done st) /\
  length (outputs st') = length (outputs st) /\
  (forall j, j <> i ->
     nth j (thread_done st') true = nth j (thread_done st) true) /\
  ((i < length (thread_done st))%nat -> nth i (thread_done st') true = true).
Proof.
  unfold receive. destruct m as [s|p].
  - destruct (contains "Fail:" s); [|discriminate]. intros [= <-]. simpl.
    rewrite replace_nth_length. repeat split.
    + intros j Hj. apply nth_replace_nth_other. congruence.
    + apply nth_replace_nth_same.
  - intros [= <-]. simpl. rewrite !replace_nth_length. repeat split.
    + intros j Hj. apply nth_replace_nth_other. congruence.
    + apply nth_replace_nth_same.
Qed.

Lemma receive_all_app order1 order2 (st : poll_state P) :
  receive_all queue (order1 ++ order2) st =
  bind (receive_all queue order1 st) (receive_all queue order2).
Proof.
  revert st; induction order1 as [|i t IH]; intros st; simpl; [reflexivity|].
  destruct (receive i (queue i) st); simpl; auto.
Qed.

Lemma receive_all_done order (st st' : poll_state P) :
  receive_all queue order st = Ok st' ->
  length (thread_done st') = length (thread_done st) /\
  forall j, (j < length (thread_done st))%nat ->
    (nth j (thread_done st') true = true <->
     nth j (thread_done st) true = true \/ In j order).
Proof.
  clear arrival. revert st; induction order as [|i t IH]; simpl; intros st H.
  - injection H as <-. split; [reflexivity|]. tauto.
  - apply bind_Ok in H as [st1 [H1 H]].
    apply receive_done in H1 as (L1 & _ & O1 & S1).
    destruct (IH _ H) as [L2 D2]. split; [congruence|].
    intros j Hj. rewrite D2 by lia.
    destruct (Nat.eq_dec j i) as [->|Hne].
    + rewrite S1 by assumption. tauto.
    + rewrite O1 by assumption. intuition.
Qed.

(** ** One polling pass *)

Lemma poll_pass_filter pass indices (st : poll_state P) :
  NoDup indices ->
  (forall i, In i indices ->
     nth i (thread_done st) true = (arrival i <? pass)%nat) ->
  poll_pass queue arrival pass indices st =
  receive_all queue (filter (fun i => Nat.eqb (arrival i) pass) indices) st.
Proof.
  revert st; induction indices as [|i t IH]; intros st Hnd Hst; simpl;
    [reflexivity|].
  inversion Hnd as [|? ? Hnot Hnd']; subst.
  rewrite (Hst i (or_introl eq_refl)).
  destruct (Nat.eqb (arrival i) pass) eqn:E.
  - apply Nat.eqb_eq in E.
    replace (arrival i <? pass)%nat with false
      by (symmetry; apply Nat.ltb_ge; lia).
    replace (arrival i <=? pass)%nat with true
      by (symmetry; apply Nat.leb_le; lia).
    simpl. destruct (receive i (queue i) st) as [st1|e] eqn:Er; simpl;
      [|reflexivity].
    apply IH; [assumption|].
    intros j Hj. apply receive_done in Er as (_ & _ & O & _).
    rewrite O; [apply Hst; now right|]. intros ->. contradiction.
  - apply Nat.eqb_neq in E.
    destruct (arrival i <? pass)%nat eqn:E1; simpl.
    + apply IH; [assumption|]. intros j Hj. apply Hst. now right.
    + apply Nat.ltb_ge in E1.
      replace (arrival i <=? pass)%nat with false
        by (symmetry; apply Nat.leb_gt; lia).
      apply IH; [assumption|]. intros j Hj. apply Hst. now right.
Qed.

(** ** The whole loop *)

Lemma poll_pass_taken T pass (st : poll_state P) :
  taken_before arrival T pass st ->
  poll_pass queue arrival pass (seq 0 T) st =
    receive_all queue (arrivals_at arrival T pass) st /\
  forall st', receive_all queue (arrivals_at arrival T pass) st = Ok st' ->
    taken_before arrival T (S pass) st' /\
    (forallb (fun done => done) (thread_done st') = true <->
     forall i, (i < T)%nat -> (arrival i <= pass)%nat).
Proof.
  intros [HL Hst]. split.
  - apply poll_pass_filter; [apply seq_NoDup|].
    intros i Hi. apply in_seq in Hi. apply Hst. lia.
  - intros st' H. destruct (receive_all_done _ _ _ H) as [L D].
    assert (Hd : forall i, (i < T)%nat ->
              (nth i (thread_done st') true = true <-> (arrival i <= pass)%nat)).
    { intros i Hi. rewrite D by lia. rewrite Hst by assumption.
      unfold arrivals_at. rewrite filter_In, in_seq, Nat.ltb_lt, Nat.eqb_eq.
      lia. }
    split; [split; [congruence|]|].
    + intros i Hi. specialize (Hd i Hi).
      destruct (nth i (thread_done st') true) eqn:E.
      * symmetry. apply Nat.ltb_lt. apply proj1 in Hd. specialize (Hd eq_refl). lia.
      * symmetry. apply Nat.ltb_ge.
        destruct (Nat.le_gt_cases (arrival i) pass) as [Hle|Hgt]; [|lia].
        apply Hd in Hle. congruence.
    + rewrite forallb_nth, L, HL. split; intros H' i Hi; apply Hd; auto.
Qed.

Lemma poll_loop_from threads fuel : forall pass (st : poll_state P),
  let T := Z.to_nat threads in
  let M := last_arrival arrival T in
  taken_before arrival T pass st ->
  (pass <= M)%nat ->
  (M - pass < fuel)%nat ->
  poll_loop queue arrival fuel pass threads st =
  Some (receive_all queue
          (flat_map (arrivals_at arrival T) (seq pass (S (M - pass)))) st).
Proof.
  induction fuel as [|fuel IH]; intros pass st T M Hst Hp Hf; [lia|].
  simpl. fold T.
  destruct (poll_pass_taken T pass st Hst) as [Hpass Hnext].
  rewrite Hpass. rewrite receive_all_app.
  destruct (receive_all queue (arrivals_at arrival T pass) st) as [st'|e] eqn:E;
    simpl; [|reflexivity].
  destruct (Hnext st' eq_refl) as [Hst' Hall].
  destruct (forallb (fun done => done) (thread_done st')) eqn:Ea.
  - assert (Hle : forall i, (i < T)%nat -> (arrival i <= pass)%nat)
      by now apply Hall.
    assert (M = pass).
    { destruct (Nat.eq_dec T 0) as [HT|HT].
      - unfold M, last_arrival in *. rewrite HT in *. simpl in *. lia.
      - destruct (last_arrival_reached arrival T) as [i [Hi Hm]]; [lia|].
        specialize (Hle i Hi). fold M in Hm. lia. }
    replace (M - pass)%nat with 0%nat by lia. reflexivity.
  - assert (Hlt : (pass < M)%nat).
    { destruct (Nat.eq_dec pass M) as [->|]; [|lia].
      assert (false = true).
      { apply Hall. intros i Hi. now apply last_arrival_bound. }
      discriminate. }
    rewrite (IH (S pass) st' Hst') by (fold T; fold M; lia).
    fold T. fold M.
    replace (M - pass)%nat with (S (M - S pass)) by lia. reflexivity.
Qed.

(** The loop ends once every queue has filled, and what it has done then
    is to take the messages in reception order. *)
Lemma poll_loop_spec threads fuel :
  let T := Z.to_nat threads in
  (last_arrival arrival T < fuel)%nat ->
  poll_loop queue arrival fuel 0 threads (init_state P threads) =
  Some (receive_all queue (reception_order arrival T) (init_state P threads)).
Proof.
  intros T Hf. unfold reception_order.
  rewrite (poll_loop_from threads fuel 0 (init_state P threads)).
  - fold T. now rewrite Nat.sub_0_r.
  - unfold taken_before, init_state. simpl. rewrite repeat_length.
    split; [reflexivity|]. intros i Hi.
    rewrite nth_repeat_lt by assumption. reflexivity.
  - lia.
  - fold T. lia.
Qed.

End PollFacts.

(** ** What the loop leaves in its state *)

Section ReceiveFacts.
Context {P : Type}.
Variable queue : nat -> message P.

Lemma receive_Ok i m (st : poll_state P) :
  well_formed m -> exists st', receive i m st = Ok st'.
Proof.
  destruct m as [s|p]; simpl; intros H; [rewrite H|]; eauto.
Qed.

Lemma receive_failure i m (st st' : poll_state P) :
  receive i m st = Ok st' ->
  failure_of st' =
  match failure_text m with
  | Some text => Some text
  | None => failure_of st
  end.
Proof.
  unfold receive, failure_of, failure_text. destruct m as [s|p].
  - destruct (contains "Fail:" s); [|discriminate]. now intros [= <-].
  - now intros [= <-].
Qed.

Lemma receive_outputs i m (st st' : poll_state P) j :
  receive i m st = Ok st' ->
  (j < length (outputs st))%nat ->
  nth j (outputs st') None =
  if Nat.eqb j i then match payload m with
                      | Some p => Some p
                      | None => nth j (outputs st) None
                      end
  else nth j (outputs st) None.
Proof.
  unfold receive, payload. intros H Hj. destruct (Nat.eqb j i) eqn:E.
  - apply Nat.eqb_eq in E. subst j. destruct m as [s|p].
    + destruct (contains "Fail:" s); [|discriminate]. now injection H as <-.
    + injection H as <-. simpl. now apply nth_replace_nth_same.
  - apply Nat.eqb_neq in E. destruct m as [s|p].
    + destruct (contains "Fail:" s); [|discriminate]. now injection H as <-.
    + injection H as <-. simpl. apply nth_replace_nth_other. congruence.
Qed.

Lemma receive_all_state order : forall (st : poll_state P),
  (forall i, In i order -> well_formed (queue i)) ->
  exists st',
    receive_all queue order st = Ok st' /\
    failure_of st' = last_failure queue order (failure_of st) /\
    length (outputs st') = length (outputs st) /\
    forall j, (j < length (outputs st))%nat ->
      nth j (outputs st') None =
      if in_dec Nat.eq_dec j order
      then match payload (queue j) with
           | Some p => Some p
           | None => nth j (outputs st) None
           end
      else nth j (outputs st) None.
Proof.
  induction order as [|i t IH]; intros st Hwf; simpl.
  - exists st. repeat split.
  - destruct (receive_Ok i (queue i) st) as [st1 H1]; [apply Hwf; now left|].
    rewrite H1. simpl.
    destruct (IH st1) as (st' & H & F & L & O);
      [intros k Hk; apply Hwf; now right|].
    exists st'. split; [exact H|].
    pose proof (receive_done _ _ _ _ H1) as (_ & L1 & _ & _).
    split; [|split; [congruence|]].
    + rewrite F. now rewrite (receive_failure _ _ _ _ H1).
    + intros j Hj. rewrite O by lia.
      rewrite (receive_outputs _ _ _ _ j H1 Hj).
      destruct (Nat.eq_dec i j) as [->|Hne].
      * rewrite Nat.eqb_refl.
        destruct (in_dec Nat.eq_dec j t); destruct (payload (queue j));
          reflexivity.
      * replace (Nat.eqb j i) with false
          by (symmetry; apply Nat.eqb_neq; congruence).
        destruct (in_dec Nat.eq_dec j t); reflexivity.
Qed.

Lemma last_failure_None order :
  last_failure queue order None = None <->
  forall i, In i order -> failure_text (queue i) = None.
Proof.
  assert (G : forall order before,
            last_failure queue order before = None <->
            before = None /\
            forall i, In i order -> failure_text (queue i) = None).
  { clear order. induction order as [|i t IH]; intros before; simpl.
    - split; [intros ->; split; [reflexivity|tauto]|tauto].
    - rewrite IH. destruct (failure_text (queue i)) eqn:E.
      + split; [intros [[=] _]|].
        intros [_ H]. specialize (H i (or_introl eq_refl)). congruence.
      + split.
        * intros [-> H]. split; [reflexivity|].
          intros j [<-|Hj]; auto.
        * intros [-> H]. split; [reflexivity|]. intros j Hj. apply H. now right. }
  rewrite G. tauto.
Qed.

End ReceiveFacts.

(** ** The reception order takes every worker once *)

Lemma reception_order_In arrival T i :
  In i (reception_order arrival T) <-> (i < T)%nat.
Proof.
  unfold reception_order, arrivals_at. rewrite in_flat_map. split.
  - intros [p [_ H]]. apply filter_In in H as [H _]. apply in_seq in H. lia.
  - intros H. exists (arrival i). split.
    + apply in_seq. pose proof (last_arrival_bound arrival T i H). lia.
    + apply filter_In. split; [apply in_seq; lia|apply Nat.eqb_refl].
Qed.

Lemma classes_NoDup (f : nat -> nat) (l : list nat) n : forall a,
  NoDup l ->
  NoDup (flat_map (fun p => filter (fun i => Nat.eqb (f i) p) l) (seq a n)).
Proof.
  induction n as [|n IH]; intros a Hl; simpl; [constructor|].
  apply NoDup_app.
  - now apply NoDup_filter.
  - now apply IH.
  - intros x Hx Hy. apply filter_In in Hx as [_ Hx]. apply Nat.eqb_eq in Hx.
    apply in_flat_map in Hy as [p [Hp Hy]].
    apply filter_In in Hy as [_ Hy]. apply Nat.eqb_eq in Hy.
    apply in_seq in Hp. lia.
Qed.

Lemma reception_order_NoDup arrival T : NoDup (reception_order arrival T).
Proof. apply classes_NoDup, seq_NoDup. Qed.

Lemma nth_map_seq {A} (f : nat -> A) T j d :
  (j < T)%nat -> nth j (map f (seq 0 T)) d = f j.
Proof.
  intros H. rewrite nth_indep with (d' := f 0%nat)
    by (rewrite length_map, length_seq; lia).
  rewrite map_nth, seq_nth by assumption. reflexivity.
Qed.

(** The state in which the loop ends. *)
Lemma poll_loop_state {P} (queue : nat -> message P) arrival threads fuel :
  let T := Z.to_nat threads in
  (last_arrival arrival T < fuel)%nat ->
  (forall i, (i < T)%nat -> well_formed (queue i)) ->
  exists st,
    poll_loop queue arrival fuel 0 threads (init_state P threads) = Some (Ok st) /\
    failure_of st = last_failure queue (reception_order arrival T) None /\
    outputs st = map (fun i => payload (queue i)) (seq 0 T) /\
    length (thread_done st) = T /\
    forallb (fun done => done) (thread_done st) = true.
Proof.
  intros T Hf Hwf. rewrite poll_loop_spec by assumption. fold T.
  destruct (receive_all_state queue (reception_order arrival T)
              (init_state P threads)) as (st & H & F & L & O).
  { intros i Hi. apply Hwf. now apply reception_order_In in Hi. }
  exists st. split; [now rewrite H|]. split; [exact F|].
  assert (LT : length (outputs st) = T).
  { rewrite L. unfold init_state. simpl. apply repeat_length. }
  destruct (receive_all_done _ _ _ _ H) as [LD D].
  assert (LD' : length (thread_done st) = T).
  { rewrite LD. unfold init_state. simpl. apply repeat_length. }
  split; [|split; [exact LD'|]].
  - apply (nth_ext _ _ None None).
    + now rewrite length_map, length_seq.
    + intros j Hj. rewrite LT in Hj. rewrite O by (rewrite <- L, LT; lia).
      rewrite nth_map_seq by assumption.
      destruct (in_dec Nat.eq_dec j (reception_order arrival T)) as [_|Hn].
      * destruct (payload (queue j)); [reflexivity|].
        unfold init_state. simpl. now rewrite nth_repeat_lt.
      * exfalso. apply Hn. now apply reception_order_In.
  - apply forallb_nth. intros i Hi. apply D.
    + rewrite <- LD. exact Hi.
    + right. apply reception_order_In. now rewrite <- LD'.
Qed.

(** ** Failure reports *)

Lemma substring_all s : substring 0 (String.length s) s = s.
Proof. induction s as [|c s IH]; simpl; [reflexivity|now rewrite IH]. Qed.

Lemma contains_marker text : contains "Fail:" ("Fail: " ++ text) = true.
Proof. reflexivity. Qed.

Lemma str_from_marker text : str_from 6 ("Fail: " ++ text) = text.
Proof. unfold str_from. simpl. rewrite Nat.sub_0_r. apply substring_all. Qed.

Lemma report_well_formed {P} describe (r : result P) :
  well_formed (report describe r).
Proof. destruct r; simpl; [exact I|apply contains_marker]. Qed.

Lemma report_failure {P} describe (r : result P) :
  failure_text (report describe r) =
  match r with
  | Ok _ => None
  | Raise exp => Some (describe exp)
  end.
Proof.
  destruct r as [p|e]; simpl; [reflexivity|].
  change (contains "Fail:" ("Fail: " ++ describe e)) with true.
  f_equal. apply str_from_marker.
Qed.

Lemma report_payload {P} describe (r : result P) :
  payload (report describe r) =
  match r with
  | Ok p => Some p
  | Raise _ => None
  end.
Proof. now destruct r. Qed.

(** ** Flattening *)

Lemma flatten_Some {A} (ls : list (list A)) :
  flatten (map Some ls) = Ok (concat ls).
Proof.
  induction ls as [|l t IH]; simpl; [reflexivity|]. now rewrite IH.
Qed.

Lemma flatten_Some_map {A X} (f : X -> list A) (ps : list X) :
  flatten (map (fun x => Some (f x)) ps) = Ok (concat (map f ps)).
Proof. now rewrite <- (map_map f Some), flatten_Some. Qed.

(** ** The two dispatchers, once the loop has ended *)

Section Dispatchers.
Context {item target A B : Type}.

Lemma call_multi_core_spec (items : list item) (targets : list target)
    (worker : list item -> target_arg target -> message (list A * list B))
    threads arrival fuel :
  let n := Z.of_nat (length items) in
  let used := if n <? threads then n else threads in
  let per := n / used in
  let T := Z.to_nat used in
  let queue i :=
    worker (thread_slice items used per i) (thread_targets targets used per i) in
  used <> 0 ->
  (last_arrival arrival T < fuel)%nat ->
  (forall i, (i < T)%nat -> well_formed (queue i)) ->
  call_multi_core items targets worker threads arrival fuel =
  Some
    match last_failure queue (reception_order arrival T) None with
    | Some text => ([LogError text], Exited 1)
    | None =>
        let outs := map (fun i => payload (queue i)) (seq 0 T) in
        match flatten (map (option_map fst) outs) with
        | Raise e => ([], Uncaught e)
        | Ok a =>
            match flatten (map (option_map snd) outs) with
            | Raise e => ([], Uncaught e)
            | Ok b => ([], Returned (a, b))
            end
        end
    end.
Proof.
  intros n used per T queue Hused Hf Hwf. unfold call_multi_core.
  fold n. fold used. apply Z.eqb_neq in Hused. rewrite Hused.
  fold per. fold queue.
  destruct (poll_loop_state queue arrival used fuel Hf Hwf)
    as (st & Hloop & Hfail & Hout & _).
  rewrite Hloop. fold T in Hfail, Hout. rewrite <- Hfail, Hout.
  unfold failure_of. destruct (fail_flag st); [reflexivity|].
  destruct (flatten (map (option_map fst) _)); [|reflexivity].
  destruct (flatten (map (option_map snd) _)); reflexivity.
Qed.

Lemma dispatch_tests_spec (items : list item)
    (worker : list item -> message (@lists3 A)) threads arrival fuel :
  let n := Z.of_nat (length items) in
  let per := n / threads in
  let T := Z.to_nat threads in
  let queue i := worker (thread_slice items threads per i) in
  threads <> 0 ->
  (last_arrival arrival T < fuel)%nat ->
  (forall i, (i < T)%nat -> well_formed (queue i)) ->
  dispatch_tests items worker threads arrival fuel =
  Some
    match last_failure queue (reception_order arrival T) None with
    | Some text => ([LogError text], Exited 1)
    | None =>
        let outs := map (fun i => payload (queue i)) (seq 0 T) in
        match flatten (map (option_map (fun p => fst (fst p))) outs) with
        | Raise e => ([], Uncaught e)
        | Ok a =>
            match flatten (map (option_map (fun p => snd (fst p))) outs) with
            | Raise e => ([], Uncaught e)
            | Ok b =>
                match flatten (map (option_map snd) outs) with
                | Raise e => ([], Uncaught e)
                | Ok c => ([], Returned (a, b, c))
                end
            end
        end
    end.
Proof.
  intros n per T queue Hused Hf Hwf. unfold dispatch_tests.
  fold n. apply Z.eqb_neq in Hused. rewrite Hused.
  fold per. fold queue.
  destruct (poll_loop_state queue arrival threads fuel Hf Hwf)
    as (st & Hloop & Hfail & Hout & _).
  rewrite Hloop. fold T in Hfail, Hout. rewrite <- Hfail, Hout.
  unfold failure_of. destruct (fail_flag st); [reflexivity|].
  destruct (flatten (map (option_map (fun p => fst (fst p))) _)); [|reflexivity].
  destruct (flatten (map (option_map (fun p => snd (fst p))) _)); [|reflexivity].
  destruct (flatten (map (option_map snd) _)); reflexivity.
Qed.

End Dispatchers.

(** ** Chunks *)

Lemma slice_bound_nonneg n a :
  0 <= a <= Z.of_nat n -> slice_bound n a = Z.to_nat a.
Proof.
  intros H. unfold slice_bound.
  destruct (a <? 0) eqn:E; [apply Z.ltb_lt in E; lia|].
  f_equal. lia.
Qed.

Lemma thread_slice_inner {A} (l : list A) threads per i :
  0 <= per ->
  Z.of_nat i < threads - 1 ->
  (Z.of_nat i + 1) * per <= Z.of_nat (length l) ->
  thread_slice l threads per i =
  firstn (Z.to_nat per) (skipn (i * Z.to_nat per) l).
Proof.
  intros Hper Hi Hb. unfold thread_slice.
  replace (Z.of_nat i <? threads - 1) with true
    by (symmetry; apply Z.ltb_lt; lia).
  unfold slice. rewrite !slice_bound_nonneg by nia.
  f_equal; [nia|f_equal; nia].
Qed.

Lemma thread_slice_last {A} (l : list A) threads per i :
  0 <= per ->
  threads - 1 <= Z.of_nat i ->
  Z.of_nat i * per <= Z.of_nat (length l) ->
  thread_slice l threads per i = skipn (i * Z.to_nat per) l.
Proof.
  intros Hper Hi Hb. unfold thread_slice.
  replace (Z.of_nat i <? threads - 1) with false
    by (symmetry; apply Z.ltb_ge; lia).
  unfold slice_from. rewrite slice_bound_nonneg by nia. f_equal. nia.
Qed.

Section GatherFacts.
Context {item P : Type}.
Variable papp : P -> P -> P.
Variable pnil : P.
Variable run : Z -> list item -> result P.
Hypothesis papp_nil_r : forall p, papp p pnil = p.
Hypothesis run_app : forall off l1 l2,
  run off (l1 ++ l2) =
  (p <- run off l1 ;; q <- run (off + Z.of_nat (length l1)) l2 ;;
   Ok (papp p q)).

Lemma run_gather m per : forall off l,
  (m * per <= length l)%nat ->
  run off l = gather papp pnil (runs run off m per l).
Proof.
  induction m as [|m IH]; intros off l H; simpl.
  - destruct (run off l); simpl; [now rewrite papp_nil_r|reflexivity].
  - rewrite <- (firstn_skipn per l) at 1. rewrite run_app.
    rewrite length_firstn, Nat.min_l by lia.
    destruct (run off (firstn per l)); simpl; [|reflexivity].
    rewrite <- IH; [reflexivity|]. rewrite length_skipn. lia.
Qed.

Lemma runs_slices (l : list item) threads :
  1 <= threads ->
  let per := Z.of_nat (length l) / threads in
  runs run 0 (Z.to_nat threads - 1) (Z.to_nat per) l =
  map (fun i => run (Z.of_nat i * per) (thread_slice l threads per i))
    (seq 0 (Z.to_nat threads)).
Proof.
  intros HT per.
  assert (Hper : 0 <= per) by (apply Z.div_pos; lia).
  assert (Hfull : threads * per <= Z.of_nat (length l))
    by (apply Z.mul_div_le; lia).
  assert (G : forall m k, (k + m = Z.to_nat threads - 1)%nat ->
            runs run (Z.of_nat k * per) m (Z.to_nat per)
              (skipn (k * Z.to_nat per) l) =
            map (fun i => run (Z.of_nat i * per) (thread_slice l threads per i))
              (seq k (S m))).
  { induction m as [|m IH]; intros k Hk.
    - simpl. rewrite thread_slice_last by nia. reflexivity.
    - cbn [runs seq map]. rewrite thread_slice_inner by nia. f_equal.
      rewrite skipn_skipn.
      replace (Z.of_nat k * per + Z.of_nat (Z.to_nat per))
        with (Z.of_nat (S k) * per) by nia.
      replace (Z.to_nat per + k * Z.to_nat per)%nat
        with (S k * Z.to_nat per)%nat by nia.
      apply IH. lia. }
  pose proof (G (Z.to_nat threads - 1)%nat 0%nat eq_refl) as G0.
  change (Z.of_nat 0 * per) with 0 in G0.
  change (skipn (0 * Z.to_nat per) l) with l in G0.
  replace (S (Z.to_nat threads - 1)) with (Z.to_nat threads) in G0 by lia.
  exact G0.
Qed.

Lemma gather_Ok rs p :
  gather papp pnil rs = Ok p ->
  exists ps, rs = map Ok ps /\ p = fold_right papp pnil ps.
Proof.
  revert p; induction rs as [|r t IH]; simpl; intros p H.
  - injection H as <-. now exists [].
  - apply bind_Ok in H as [p1 [-> H]]. apply bind_Ok in H as [q [Hq H]].
    injection H as <-. destruct (IH q Hq) as [ps [-> ->]].
    now exists (p1 :: ps).
Qed.

Lemma gather_Raise rs e :
  gather papp pnil rs = Raise e -> In (Raise e) rs.
Proof.
  induction rs as [|r t IH]; simpl; [discriminate|].
  destruct r as [p|e']; simpl.
  - destruct (gather papp pnil t) as [q|e'']; simpl; [discriminate|].
    intros [= ->]. right. now apply IH.
  - intros [= ->]. now left.
Qed.

(** Sequential processing of the whole list against the runs the workers
    make on their slices. *)
Lemma sequential_runs (l : list item) threads :
  1 <= threads ->
  let per := Z.of_nat (length l) / threads in
  let r i := run (Z.of_nat i * per) (thread_slice l threads per i) in
  match run 0 l with
  | Ok p =>
      exists ps, map r (seq 0 (Z.to_nat threads)) = map Ok ps /\
                 p = fold_right papp pnil ps
  | Raise e =>
      exists i, (i < Z.to_nat threads)%nat /\ r i = Raise e
  end.
Proof.
  intros HT per r.
  assert (Hper : 0 <= per) by (apply Z.div_pos; lia).
  assert (Hfull : threads * per <= Z.of_nat (length l))
    by (apply Z.mul_div_le; lia).
  rewrite (run_gather (Z.to_nat threads - 1) (Z.to_nat per)) by nia.
  pose proof (runs_slices l threads HT) as R. cbv zeta in R.
  fold per in R. fold r in R. rewrite R.
  destruct (gather papp pnil (map r (seq 0 (Z.to_nat threads)))) as [p|e] eqn:E.
  - now apply gather_Ok.
  - apply gather_Raise in E. apply in_map_iff in E as [i [Hi Hin]].
    apply in_seq in Hin. exists i. split; [lia|exact Hi].
Qed.

End GatherFacts.

Lemma fold_app2 {A B} (ps : list (list A * list B)) :
  fold_right app2 ([], []) ps = (concat (map fst ps), concat (map snd ps)).
Proof.
  induction ps as [|p t IH]; simpl; [reflexivity|].
  rewrite IH. reflexivity.
Qed.

Lemma fold_app3 {A} (ps : list (@lists3 A)) :
  fold_right app3 ([], [], []) ps =
  (concat (map (fun p => fst (fst p)) ps),
   concat (map (fun p => snd (fst p)) ps),
   concat (map snd ps)).
Proof.
  induction ps as [|p t IH]; simpl; [reflexivity|].
  rewrite IH. reflexivity.
Qed.

Lemma last_failure_Some {P} (queue : nat -> message P) order i :
  In i order -> failure_text (queue i) <> None ->
  exists text, last_failure queue order None = Some text.
Proof.
  intros Hin Hf.
  destruct (last_failure queue order None) as [text|] eqn:E; [eauto|].
  rewrite last_failure_None in E. now specialize (E i Hin).
Qed.

(** ** Dispatch against sequential processing *)

Lemma reports_all_Ok {P} describe (r : nat -> result P) T ps :
  map r (seq 0 T) = map Ok ps ->
  (forall i, (i < T)%nat -> failure_text (report describe (r i)) = None) /\
  map (fun i => payload (report describe (r i))) (seq 0 T) = map Some ps.
Proof.
  intros H. split.
  - intros i Hi.
    assert (Hin : In (r i) (map Ok ps)).
    { rewrite <- H. apply in_map, in_seq. lia. }
    apply in_map_iff in Hin as [p [<- _]]. reflexivity.
  - rewrite <- (map_map r (fun x => payload (report describe x))), H, map_map.
    apply map_ext. intros p. reflexivity.
Qed.

Section Sequential.
Context {item target A B : Type}.
Variable describe : exn -> string.

Section Pairs.
Variable run : Z -> list item -> result (list A * list B).
Hypothesis run_app : forall off l1 l2,
  run off (l1 ++ l2) =
  (p <- run off l1 ;; q <- run (off + Z.of_nat (length l1)) l2 ;;
   Ok (app2 p q)).

Lemma call_multi_core_sequential (items : list item) (targets : list target)
    worker threads arrival fuel :
  let per := Z.of_nat (length items) / threads in
  1 <= threads <= Z.of_nat (length items) ->
  (forall i, (i < Z.to_nat threads)%nat ->
     worker (thread_slice items threads per i)
       (thread_targets targets threads per i) =
     report describe (run (Z.of_nat i * per) (thread_slice items threads per i))) ->
  (last_arrival arrival (Z.to_nat threads) < fuel)%nat ->
  match run 0 items with
  | Ok r =>
      call_multi_core items targets worker threads arrival fuel =
      Some ([], Returned r)
  | Raise _ =>
      exists text,
        call_multi_core items targets worker threads arrival fuel =
        Some ([LogError text], Exited 1)
  end.
Proof.
  intros per HT Hw Hf.
  pose proof (call_multi_core_spec items targets worker threads arrival fuel)
    as S. cbv zeta in S.
  replace (Z.of_nat (length items) <? threads) with false in S
    by (symmetry; apply Z.ltb_ge; lia).
  fold per in S.
  assert (Hwf : forall i, (i < Z.to_nat threads)%nat ->
            well_formed (worker (thread_slice items threads per i)
                           (thread_targets targets threads per i))).
  { intros i Hi. rewrite Hw by assumption. apply report_well_formed. }
  specialize (S ltac:(lia) Hf Hwf). rewrite S. clear S.
  pose proof (sequential_runs app2 ([], []) run
                ltac:(intros [a b]; unfold app2; simpl; now rewrite !app_nil_r)
                run_app items threads ltac:(lia)) as Q.
  cbv zeta in Q. fold per in Q.
  set (r := fun i => run (Z.of_nat i * per) (thread_slice items threads per i)) in *.
  set (queue := fun i => worker (thread_slice items threads per i)
                           (thread_targets targets threads per i)) in *.
  assert (Hq : forall i, (i < Z.to_nat threads)%nat ->
            queue i = report describe (r i)) by exact Hw.
  destruct (run 0 items) as [p|e].
  - destruct Q as [ps [Hps ->]].
    destruct (reports_all_Ok describe r _ ps Hps) as [Hnone Hpay].
    assert (L : last_failure queue (reception_order arrival (Z.to_nat threads))
                  None = None).
    { apply last_failure_None. intros i Hi.
      apply reception_order_In in Hi. rewrite Hq by assumption. now apply Hnone. }
    rewrite L.
    assert (O : map (fun i => payload (queue i)) (seq 0 (Z.to_nat threads))
                = map Some ps).
    { rewrite <- Hpay. apply map_ext_in. intros i Hi. apply in_seq in Hi.
      rewrite Hq by lia. reflexivity. }
    unfold queue in O. cbv beta in O. cbv zeta. rewrite O, !map_map. simpl.
    rewrite (flatten_Some_map fst), (flatten_Some_map snd).
    now rewrite fold_app2.
  - destruct Q as [i [Hi Hr]].
    destruct (last_failure_Some queue
                (reception_order arrival (Z.to_nat threads)) i) as [text Ht].
    + now apply reception_order_In.
    + rewrite Hq, report_failure, Hr by assumption. discriminate.
    + exists text. now rewrite Ht.
Qed.
End Pairs.

Section Triples.
Variable run : Z -> list item -> result (@lists3 A).
Hypothesis run_app : forall off l1 l2,
  run off (l1 ++ l2) =
  (p <- run off l1 ;; q <- run (off + Z.of_nat (length l1)) l2 ;;
   Ok (app3 p q)).

Lemma dispatch_tests_sequential (items : list item) worker threads arrival fuel :
  let per := Z.of_nat (length items) / threads in
  1 <= threads ->
  (forall i, (i < Z.to_nat threads)%nat ->
     worker (thread_slice items threads per i) =
     report describe (run (Z.of_nat i * per) (thread_slice items threads per i))) ->
  (last_arrival arrival (Z.to_nat threads) < fuel)%nat ->
  match run 0 items with
  | Ok r =>
      dispatch_tests items worker threads arrival fuel = Some ([], Returned r)
  | Raise _ =>
      exists text,
        dispatch_tests items worker threads arrival fuel =
        Some ([LogError text], Exited 1)
  end.
Proof.
  intros per HT Hw Hf.
  pose proof (dispatch_tests_spec items worker threads arrival fuel) as S.
  cbv zeta in S. fold per in S.
  assert (Hwf : forall i, (i < Z.to_nat threads)%nat ->
            well_formed (worker (thread_slice items threads per i))).
  { intros i Hi. rewrite Hw by assumption. apply report_well_formed. }
  specialize (S ltac:(lia) Hf Hwf). rewrite S. clear S.
  pose proof (sequential_runs app3 ([], [], []) run
                ltac:(intros [[a b] c]; unfold app3; simpl;
                      now rewrite !app_nil_r)
                run_app items threads HT) as Q.
  cbv zeta in Q. fold per in Q.
  set (r := fun i => run (Z.of_nat i * per) (thread_slice items threads per i)) in *.
  set (queue := fun i => worker (thread_slice items threads per i)) in *.
  assert (Hq : forall i, (i < Z.to_nat threads)%nat ->
            queue i = report describe (r i)) by exact Hw.
  destruct (run 0 items) as [p|e].
  - destruct Q as [ps [Hps ->]].
    destruct (reports_all_Ok describe r _ ps Hps) as [Hnone Hpay].
    assert (L : last_failure queue (reception_order arrival (Z.to_nat threads))
                  None = None).
    { apply last_failure_None. intros i Hi.
      apply reception_order_In in Hi. rewrite Hq by assumption. now apply Hnone. }
    rewrite L.
    assert (O : map (fun i => payload (queue i)) (seq 0 (Z.to_nat threads))
                = map Some ps).
    { rewrite <- Hpay. apply map_ext_in. intros i Hi. apply in_seq in Hi.
      rewrite Hq by lia. reflexivity. }
    unfold queue in O. cbv beta in O. cbv zeta. rewrite O, !map_map. simpl.
    rewrite (flatten_Some_map (X := @lists3 A) (fun p => fst (fst p))),
      (flatten_Some_map (X := @lists3 A) (fun p => snd (fst p))),
      (flatten_Some_map (X := @lists3 A) (fun p => snd p)).
    now rewrite fold_app3.
  - destruct Q as [i [Hi Hr]].
    destruct (last_failure_Some queue
                (reception_order arrival (Z.to_nat threads)) i) as [text Ht].
    + now apply reception_order_In.
    + rewrite Hq, report_failure, Hr by assumption. discriminate.
    + exists text. now rewrite Ht.
Qed.
End Triples.

End Sequential.

End DispatchFacts.

(* ================================================================== *)
(** * The workers behind the dispatchers *)

Module ToolsFacts.
Import Aggregate DiffTest Dispatch DispatchSpec Tools ToolsSpec DispatchFacts.

(** ** Indexing into slices *)

Lemma getitem_nonneg {A} (l : list A) i :
  0 <= i ->
  getitem l i = match nth_error l (Z.to_nat i) with
                | Some x => Ok x
                | None => Raise IndexError
                end.
Proof.
  intros Hi. unfold getitem, position.
  replace (i <? 0) with false by (symmetry; apply Z.ltb_ge; lia).
  replace (0 <=? i) with true by (symmetry; apply Z.leb_le; lia).
  destruct (i <? Z.of_nat (length l)) eqn:E; simpl; [reflexivity|].
  apply Z.ltb_ge in E.
  replace (nth_error l (Z.to_nat i)) with (@None A); [reflexivity|].
  symmetry. apply nth_error_None. lia.
Qed.

Lemma getitem_slice_from {A} (l : list A) a j :
  0 <= a -> 0 <= j -> getitem (slice_from l a) j = getitem l (a + j).
Proof.
  intros Ha Hj. rewrite !getitem_nonneg by lia. unfold slice_from.
  rewrite nth_error_skipn. unfold slice_bound.
  replace (a <? 0) with false by (symmetry; apply Z.ltb_ge; lia).
  destruct (Z.le_gt_cases a (Z.of_nat (length l))) as [H|H].
  - replace (Z.to_nat (Z.min a (Z.of_nat (length l))) + Z.to_nat j)%nat
      with (Z.to_nat (a + j)) by lia.
    reflexivity.
  - replace (nth_error l (Z.to_nat (a + j))) with (@None A)
      by (symmetry; apply nth_error_None; lia).
    replace (nth_error l _) with (@None A)
      by (symmetry; apply nth_error_None; lia).
    reflexivity.
Qed.

Lemma getitem_slice {A} (l : list A) a b j :
  0 <= a -> 0 <= j -> a + j < b ->
  getitem (slice l a b) j = getitem l (a + j).
Proof.
  intros Ha Hj Hb. rewrite !getitem_nonneg by lia. unfold slice.
  rewrite nth_error_firstn, nth_error_skipn. unfold slice_bound.
  replace (a <? 0) with false by (symmetry; apply Z.ltb_ge; lia).
  replace (b <? 0) with false by (symmetry; apply Z.ltb_ge; lia).
  set (n := Z.of_nat (length l)).
  destruct (Z.to_nat j <? Z.to_nat (Z.min b n) - Z.to_nat (Z.min a n))%nat eqn:E.
  - apply Nat.ltb_lt in E.
    replace (Z.to_nat (Z.min a n) + Z.to_nat j)%nat with (Z.to_nat (a + j))
      by lia.
    reflexivity.
  - apply Nat.ltb_ge in E.
    replace (nth_error l (Z.to_nat (a + j))) with (@None A); [reflexivity|].
    symmetry. apply nth_error_None. unfold n in *. lia.
Qed.

Lemma getitem_thread_slice {A} (l : list A) threads per i j :
  0 <= per -> 0 <= j ->
  (Z.of_nat i < threads - 1 -> j < per) ->
  getitem (thread_slice l threads per i) j = getitem l (Z.of_nat i * per + j).
Proof.
  intros Hper Hj Hin. unfold thread_slice.
  destruct (Z.of_nat i <? threads - 1) eqn:E.
  - apply Z.ltb_lt in E. apply getitem_slice; nia.
  - apply getitem_slice_from; nia.
Qed.

(** ** The aggregation worker *)

#[local] Opaque filter_scores_target_list.
#[local] Opaque test_pair.

Section AggregateWorkerFacts.
Context {K target : Type}.
Variable K_eqb : K -> K -> bool.
Variable K_ltb : K -> K -> bool.
Variable int_of_str : string -> option Z.
Variable float_of_str : string -> option float.
Variable intervalListToIntervalTree : list (string * Z * Z) -> index.
Variable readBed : target -> result (list (string * Z * Z)).
Variable readInteractionFileForAggregateStatistics :
  sample_key -> result (store * @dict K ref).
Variable read_target_object : target -> result target_object.
Variable describe : exn -> string.

Local Abbreviation sloop :=
  (samples_loop K_eqb K_ltb int_of_str float_of_str intervalListToIntervalTree
     readInteractionFileForAggregateStatistics read_target_object).
Local Abbreviation floop :=
  (files_loop K_eqb K_ltb int_of_str float_of_str intervalListToIntervalTree
     readInteractionFileForAggregateStatistics read_target_object).
Local Abbreviation from :=
  (compile_from K_eqb K_ltb int_of_str float_of_str intervalListToIntervalTree
     readBed readInteractionFileForAggregateStatistics read_target_object).
Local Abbreviation worker :=
  (run_target_list_compilation K_eqb K_ltb int_of_str float_of_str
     intervalListToIntervalTree readBed
     readInteractionFileForAggregateStatistics read_target_object describe).

(** A file is handled alike with a slice of the targets and with the whole
    list, when both give the same target at its index. *)
Lemma samples_loop_shift tree (sl targets : list target) i i' samples :
  forall names scores,
  getitem sl i = getitem targets i' ->
  sloop tree (TargetSlice sl) i samples names scores =
  sloop tree (TargetSlice targets) i' samples names scores.
Proof.
  induction samples as [|s rest IH]; intros names scores H; simpl;
    [reflexivity|].
  destruct (readInteractionFileForAggregateStatistics s) as [[h data]|e];
    simpl; [|reflexivity].
  rewrite H. destruct (getitem targets i') as [t|e]; simpl; [|reflexivity].
  destruct (read_target_object t) as [o|e]; simpl; [|reflexivity].
  destruct (filter_scores_target_list K_eqb K_ltb int_of_str float_of_str
              intervalListToIntervalTree h data (Some o) tree)
    as [[h' acc]|e]; simpl; [|reflexivity].
  now apply IH.
Qed.

Lemma samples_loop_one tree (t t' : target) i i' samples names scores :
  sloop tree (OneTarget t) i samples names scores =
  sloop tree (OneTarget t') i' samples names scores.
Proof.
  revert names scores; induction samples as [|s rest IH]; intros; simpl;
    [reflexivity|].
  destruct (readInteractionFileForAggregateStatistics s) as [[h data]|e];
    simpl; [|reflexivity].
  destruct (filter_scores_target_list K_eqb K_ltb int_of_str float_of_str
              intervalListToIntervalTree h data None tree)
    as [[h' acc]|e]; simpl; [|reflexivity].
  apply IH.
Qed.

Lemma files_loop_shift tree (sl targets : list target) off files :
  forall i names scores,
  (forall j, i <= j < i + Z.of_nat (length files) ->
     getitem sl j = getitem targets (off + j)) ->
  floop tree (TargetSlice sl) i files names scores =
  floop tree (TargetSlice targets) (off + i) files names scores.
Proof.
  induction files as [|f rest IH]; intros i names scores H; simpl;
    [reflexivity|].
  rewrite (samples_loop_shift tree sl targets i (off + i))
    by (apply H; simpl length; lia).
  destruct (sloop _ _ _ _ _ _) as [[n s]|e]; simpl; [|reflexivity].
  replace (off + i + 1) with (off + (i + 1)) by lia.
  apply IH. intros j Hj. apply H. simpl length. lia.
Qed.

Lemma files_loop_one tree (t : target) files : forall i i' names scores,
  floop tree (OneTarget t) i files names scores =
  floop tree (OneTarget t) i' files names scores.
Proof.
  induction files as [|f rest IH]; intros; simpl; [reflexivity|].
  rewrite (samples_loop_one tree t t i i').
  destruct (sloop _ _ _ _ _ _) as [[n s]|e]; simpl; [|reflexivity].
  apply IH.
Qed.

(** The accumulators only collect. *)
Lemma files_loop_acc tree tl files : forall i names scores,
  floop tree tl i files names scores =
  (r <- floop tree tl i files [] [] ;;
   Ok (names ++ fst r, scores ++ snd r)).
Proof.
  induction files as [|f rest IH]; intros i names scores; simpl.
  - now rewrite !app_nil_r.
  - destruct (sloop _ _ _ _ _ _) as [[n s]|e]; simpl; [|reflexivity].
    rewrite (IH (i + 1) (names ++ [n]) (scores ++ [s])).
    rewrite (IH (i + 1) [n] [s]).
    destruct (floop tree tl (i + 1) rest [] []) as [[ns ss]|e]; simpl;
      [|reflexivity].
    now rewrite <- !app_assoc.
Qed.

Lemma files_loop_app tree tl files1 files2 : forall i names scores,
  floop tree tl i (files1 ++ files2) names scores =
  (r <- floop tree tl i files1 names scores ;;
   floop tree tl (i + Z.of_nat (length files1)) files2 (fst r) (snd r)).
Proof.
  induction files1 as [|f rest IH]; intros i names scores.
  - simpl. now rewrite Z.add_0_r.
  - cbn [app files_loop].
    destruct (sloop _ _ _ _ _ _) as [[n s]|e]; simpl bind; [|reflexivity].
    rewrite IH. simpl length.
    replace (i + 1 + Z.of_nat (length rest))
      with (i + Z.of_nat (S (length rest))) by lia.
    reflexivity.
Qed.

Lemma compile_from_app tl off files1 files2 :
  from tl off (files1 ++ files2) =
  (p <- from tl off files1 ;;
   q <- from tl (off + Z.of_nat (length files1)) files2 ;;
   Ok (app2 p q)).
Proof.
  unfold compile_from.
  destruct (match tl with
            | OneTarget t =>
                target_regions <- readBed t ;;
                Ok (Some (intervalListToIntervalTree target_regions))
            | TargetSlice _ => Ok None
            end) as [tree|e]; simpl; [|reflexivity].
  rewrite files_loop_app.
  destruct (floop tree tl off files1 [] []) as [[n1 s1]|e]; simpl;
    [|reflexivity].
  rewrite files_loop_acc.
  destruct (floop tree tl _ files2 [] []) as [[n2 s2]|e]; reflexivity.
Qed.

(** What a worker does with its slices is the work on its part of the
    list, with the targets of the whole list. *)
Lemma worker_on_slice (items : list (list sample_key)) (targets : list target)
    threads i :
  let per := Z.of_nat (length items) / threads in
  1 <= threads ->
  worker (thread_slice items threads per i)
    (thread_targets targets threads per i) =
  report describe
    (from (whole_targets targets) (Z.of_nat i * per)
       (thread_slice items threads per i)).
Proof.
  intros per HT.
  assert (Hper : 0 <= per) by (apply Z.div_pos; lia).
  assert (Hfull : threads * per <= Z.of_nat (length items))
    by (apply Z.mul_div_le; lia).
  unfold run_target_list_compilation, report.
  enough (E : compile_targets K_eqb K_ltb int_of_str float_of_str
                intervalListToIntervalTree readBed
                readInteractionFileForAggregateStatistics read_target_object
                (thread_slice items threads per i)
                (thread_targets targets threads per i) =
              from (whole_targets targets) (Z.of_nat i * per)
                (thread_slice items threads per i)) by now rewrite E.
  unfold compile_targets, compile_from, thread_targets, whole_targets.
  assert (Hmany :
    floop None (TargetSlice (thread_slice targets threads per i)) 0
      (thread_slice items threads per i) [] [] =
    floop None (TargetSlice targets) (Z.of_nat i * per)
      (thread_slice items threads per i) [] []).
  { rewrite (files_loop_shift None _ targets (Z.of_nat i * per)).
    - now rewrite Z.add_0_r.
    - intros j Hj. apply getitem_thread_slice; [assumption|lia|].
      intros Hi. rewrite thread_slice_inner in Hj by nia.
      rewrite length_firstn in Hj. lia. }
  destruct targets as [|t [|t' rest]]; simpl bind.
  - exact Hmany.
  - destruct (readBed t) as [regions|e]; simpl; [|reflexivity].
    apply files_loop_one.
  - exact Hmany.
Qed.

End AggregateWorkerFacts.

(** ** The worker of the differential test *)

Section DifferentialWorkerFacts.
Context {key : Type}.
Variable chi2_ppf : float -> Z -> float.
Variable chi2_contingency : group -> group -> option (float * float).
Variable fisher_exact : list group -> option float.
Variable ceil : float -> float.
Variable readAggregatedFileHDF : key -> result (list record * list group).
Variable describe : exn -> string.

Local Abbreviation tloop :=
  (tests_loop chi2_ppf chi2_contingency fisher_exact ceil
     readAggregatedFileHDF).

Lemma tests_loop_acc stat alpha files : forall lists,
  tloop stat alpha files lists =
  (r <- tloop stat alpha files ([], [], []) ;; Ok (app3 lists r)).
Proof.
  induction files as [|f rest IH]; intros [[a b] c]; simpl.
  - unfold app3. simpl. now rewrite !app_nil_r.
  - destruct (test_pair _ _ _ _ _ _ _ f) as [[[[x y] z]|]|e]; simpl;
      [| |reflexivity].
    + rewrite (IH (a ++ [x], b ++ [y], c ++ [z])), (IH ([x], [y], [z])).
      destruct (tloop stat alpha rest ([], [], [])) as [[[a' b'] c']|e];
        simpl; [|reflexivity].
      unfold app3. simpl. now rewrite <- !app_assoc.
    + apply IH.
Qed.

Lemma tests_loop_app stat alpha files1 files2 : forall lists,
  tloop stat alpha (files1 ++ files2) lists =
  (r <- tloop stat alpha files1 lists ;; tloop stat alpha files2 r).
Proof.
  induction files1 as [|f rest IH]; intros [[a b] c]; simpl; [reflexivity|].
  destruct (test_pair _ _ _ _ _ _ _ f) as [[[[x y] z]|]|e]; simpl;
    [apply IH|apply IH|reflexivity].
Qed.

Lemma tests_run_app stat alpha (off : Z) files1 files2 :
  tloop stat alpha (files1 ++ files2) ([], [], []) =
  (p <- tloop stat alpha files1 ([], [], []) ;;
   q <- tloop stat alpha files2 ([], [], []) ;;
   Ok (app3 p q)).
Proof.
  rewrite tests_loop_app.
  destruct (tloop stat alpha files1 ([], [], [])) as [p|e]; simpl;
    [|reflexivity].
  apply tests_loop_acc.
Qed.

End DifferentialWorkerFacts.
End ToolsFacts.

(* ================================================================== *)
(** * Properties of the dispatchers *)

Module DispatchClaims.
Import Aggregate DiffTest Dispatch DispatchSpec Tools ToolsSpec.
Import DispatchFacts ToolsFacts.



Section Claims.
Context {K target key : Type}.
Variable K_eqb : K -> K -> bool.
Variable K_ltb : K -> K -> bool.
Variable int_of_str : string -> option Z.
Variable float_of_str : string -> option float.
Variable intervalListToIntervalTree : list (string * Z * Z) -> index.
Variable readBed : target -> result (list (string * Z * Z)).
Variable readInteractionFileForAggregateStatistics :
  sample_key -> result (store * @dict K ref).
Variable read_target_object : target -> result target_object.
Variable describe : exn -> string.
Variable viewpoint_pairs : string -> string -> result (list (list sample_key)).
Variable chi2_ppf : float -> Z -> float.
Variable chi2_contingency : group -> group -> option (float * float).
Variable fisher_exact : list group -> option float.
Variable ceil : float -> float.
Variable readAggregatedFileHDF : key -> result (list record * list group).

Local Abbreviation aggregation_worker :=
  (run_target_list_compilation K_eqb K_ltb int_of_str float_of_str
     intervalListToIntervalTree readBed
     readInteractionFileForAggregateStatistics read_target_object describe).
Local Abbreviation aggregation_sequential :=
  (compile_targets K_eqb K_ltb int_of_str float_of_str
     intervalListToIntervalTree readBed
     readInteractionFileForAggregateStatistics read_target_object).
Local Abbreviation test_worker :=
  (run_statistical_tests chi2_ppf chi2_contingency fisher_exact ceil
     readAggregatedFileHDF describe).
Local Abbreviation test_sequential :=
  (tests_loop chi2_ppf chi2_contingency fisher_exact ceil
     readAggregatedFileHDF).
Local Abbreviation aggregation_main :=
  (main K_eqb K_ltb int_of_str float_of_str intervalListToIntervalTree
     readBed readInteractionFileForAggregateStatistics read_target_object
     describe viewpoint_pairs).

(** C3, for at least one worker. With [1 <= T <= N] workers, whatever the
    order in which the workers finish, both dispatchers return what one
    worker makes of the whole list, items in their original order; and
    they exit with status 1 when that one worker would fail. *)
Theorem dispatch_preserves_order :
  (forall (items : list (list sample_key)) (targets : list target)
          threads arrival fuel,
     1 <= threads <= Z.of_nat (length items) ->
     (last_arrival arrival (Z.to_nat threads) < fuel)%nat ->
     match aggregation_sequential items (whole_targets targets) with
     | Ok r =>
         call_multi_core items targets aggregation_worker threads arrival fuel
         = Some ([], Returned r)
     | Raise _ =>
         exists text,
           call_multi_core items targets aggregation_worker threads arrival fuel
           = Some ([LogError text], Exited 1)
     end) /\
  (forall (items : list (key * key)) statisticTest alpha threads arrival fuel,
     1 <= threads <= Z.of_nat (length items) ->
     (last_arrival arrival (Z.to_nat threads) < fuel)%nat ->
     match test_sequential statisticTest alpha items ([], [], []) with
     | Ok r =>
         dispatch_tests items (test_worker statisticTest alpha) threads
           arrival fuel
         = Some ([], Returned r)
     | Raise _ =>
         exists text,
           dispatch_tests items (test_worker statisticTest alpha) threads
             arrival fuel
           = Some ([LogError text], Exited 1)
     end).
Proof.
  split.
  - intros items targets threads arrival fuel HT Hf.
    apply (call_multi_core_sequential describe
             (compile_from K_eqb K_ltb int_of_str float_of_str
                intervalListToIntervalTree readBed
                readInteractionFileForAggregateStatistics read_target_object
                (whole_targets targets))); try assumption.
    + intros off l1 l2. apply compile_from_app.
    + intros i _. apply worker_on_slice. lia.
  - intros items stat alpha threads arrival fuel HT Hf.
    apply (dispatch_tests_sequential describe
             (fun (_ : Z) l => test_sequential stat alpha l ([], [], [])));
      try assumption; try lia.
    + intros off l1 l2. now apply tests_run_app.
    + intros i _. reflexivity.
Qed.


(** With fewer than two matrices and a thread count that is not negative,
    the division by the clamped worker count is what ends the aggregation
    tool. *)
Lemma main_with_too_few_matrices keys_interactionFile (targetList : list target)
    threads arrival fuel :
  (length keys_interactionFile < 2)%nat ->
  0 <= threads ->
  aggregation_main keys_interactionFile targetList threads arrival fuel =
  Some ([LogError too_few_matrices], Uncaught ZeroDivisionError).
Proof.
  intros Hk HT. unfold main.
  replace (1 <? length keys_interactionFile)%nat with false
    by (symmetry; apply Nat.ltb_ge; lia).
  unfold call_multi_core. simpl length. change (Z.of_nat 0) with 0.
  destruct threads as [|p|p]; [reflexivity|reflexivity|lia].
Qed.

(** [call_multi_core] never hands out an empty slice once it has clamped
    the worker count to the number of items. *)
Lemma call_multi_core_clamped_slices {item} (items : list item) threads i :
  let n := Z.of_nat (length items) in
  n < threads ->
  (i < Z.to_nat n)%nat ->
  length (thread_slice items n (n / n) i) = 1%nat.
Proof.
  intros n Hn Hi.
  assert (Hpos : 0 < n) by lia.
  rewrite Z.div_same by lia.
  destruct (Z.lt_ge_cases (Z.of_nat i) (n - 1)) as [H|H].
  - rewrite thread_slice_inner by (fold n; lia).
    rewrite length_firstn, length_skipn. unfold n in *. lia.
  - rewrite thread_slice_last by (fold n; lia).
    rewrite length_skipn. unfold n in *. lia.
Qed.

End Claims.

(** ** Fewer items than workers *)

Lemma thread_slice_unclamped {A} (l : list A) (threads : Z) (i : nat) :
  Z.of_nat (length l) < threads ->
  thread_slice l threads (Z.of_nat (length l) / threads) i =
  if Z.of_nat i <? threads - 1 then [] else l.
Proof.
  intros H. rewrite Z.div_small by lia.
  destruct (Z.of_nat i <? threads - 1) eqn:E.
  - rewrite thread_slice_inner; [reflexivity|lia|lia|lia].
  - rewrite thread_slice_last; [|lia|lia|lia].
    now rewrite Nat.mul_0_r.
Qed.

Lemma flatten_singletons {A} (xs : list A) :
  flatten (map (fun x => Some [x]) xs) = Ok xs.
Proof.
  induction xs as [|x xs IH]; simpl; [reflexivity|]. now rewrite IH.
Qed.

Lemma flatten_empties {A B} (xs : list B) :
  flatten (map (fun _ => Some (@nil A)) xs) = Ok [].
Proof.
  induction xs as [|x xs IH]; simpl; [reflexivity|]. now rewrite IH.
Qed.

Lemma unclamped_slices {A} (l : list A) (threads : Z) :
  Z.of_nat (length l) < threads ->
  map (fun i => thread_slice l threads (Z.of_nat (length l) / threads) i)
    (seq 0 (Z.to_nat threads)) =
  repeat [] (Z.to_nat threads - 1) ++ [l].
Proof.
  intros H.
  replace (Z.to_nat threads) with (S (Z.to_nat threads - 1)) at 1 by lia.
  rewrite seq_S, map_app. simpl. f_equal.
  - assert (G : forall m, (m <= Z.to_nat threads - 1)%nat ->
              map (fun i => thread_slice l threads
                              (Z.of_nat (length l) / threads) i) (seq 0 m) =
              repeat [] m).
    { induction m as [|m IH]; intros B; [reflexivity|].
      rewrite seq_S, map_app, IH by lia.
      replace (S m) with (m + 1)%nat by lia.
      rewrite repeat_app. f_equal. simpl.
      rewrite thread_slice_unclamped by assumption.
      replace (Z.of_nat m <? threads - 1) with true
        by (symmetry; apply Z.ltb_lt; lia).
      reflexivity. }
    apply G. lia.
  - rewrite thread_slice_unclamped by assumption.
    replace (_ <? _) with false by (symmetry; apply Z.ltb_ge; lia).
    reflexivity.
Qed.

(** C5, for the dispatch code of the differential test, which keeps the
    requested number of workers: with fewer items than workers, a worker
    that sends back the slice it was given shows every worker but the last
    one running on the empty slice, and the last one on the whole list. *)
Theorem differential_dispatch_keeps_thread_count
    {item : Type} (items : list item) (threads : Z) (arrival : nat -> nat)
    (fuel : nat) :
  Z.of_nat (length items) < threads ->
  (last_arrival arrival (Z.to_nat threads) < fuel)%nat ->
  dispatch_tests items (fun chunk => MData ([chunk], [], [])) threads arrival
    fuel =
  Some ([], Returned (repeat [] (Z.to_nat threads - 1) ++ [items], [], [])).
Proof.
  intros Hn Hf.
  pose proof (dispatch_tests_spec (A := list item) items
                (fun chunk => MData ([chunk], [], [])) threads arrival fuel) as S.
  cbv zeta in S. rewrite S; [|lia|exact Hf|intros; exact I]. clear S.
  rewrite (proj2 (last_failure_None _ _)) by (intros; reflexivity).
  cbv zeta. rewrite !map_map. simpl.
  rewrite (flatten_empties (A := list item)).
  rewrite <- (map_map (fun i => thread_slice items threads
                         (Z.of_nat (length items) / threads) i)
                (fun x => Some [x])).
  rewrite flatten_singletons, unclamped_slices by assumption.
  reflexivity.
Qed.

End DispatchClaims.

(* ================================================================== *)
(** * The aggregator at its edges *)

Module AggregateEdges.
Import Aggregate AggregateSpec PyFacts AggregateFacts.

Section Edges.
Context {K : Type}.
Variable K_eqb : K -> K -> bool.
Variable K_ltb : K -> K -> bool.
Variable int_of_str : string -> option Z.
Variable float_of_str : string -> option float.
Hypothesis K_eqb_spec : forall x y, K_eqb x y = true <-> x = y.
Variable intervalListToIntervalTree : list (string * Z * Z) -> index.

Lemma dict_set_fresh {V} (d : @dict K V) k v :
  ~ In k (map fst d) -> dict_set K_eqb d k v = d ++ [(k, v)].
Proof.
  induction d as [|[k' v'] d IH]; simpl; intros Hn; [reflexivity|].
  rewrite (K_eqb_neq K_eqb K_eqb_spec) by tauto.
  rewrite IH by tauto. reflexivity.
Qed.

(** Keys of different groups are different. *)
Lemma groups_disjoint (c : K -> option Interval) (g : @groups K) :
  NoDup (map fst g) ->
  (forall t ks k, In (t, ks) g -> In k ks -> c k = Some t) ->
  ForallOrdPairs (fun g1 g2 => forall k, In k (snd g1) -> ~ In k (snd g2)) g.
Proof.
  induction g as [|[t ks] g IH]; intros Hnd Hc; constructor.
  - apply Forall_forall. intros [t' ks'] Hin k Hk Hk'. simpl in *.
    inversion Hnd as [|? ? Hnot _]; subst. apply Hnot.
    assert (E : Some t = Some t').
    { rewrite <- (Hc t ks k (or_introl eq_refl) Hk).
      apply (Hc t' ks' k); [now right|assumption]. }
    injection E as ->. change t' with (fst (t', ks')). now apply in_map.
  - apply IH; [now inversion Hnd|].
    intros t' ks' k Hin. apply Hc. now right.
Qed.

Lemma merge_loop_entries scores (g : @groups K) :
  forall h acc h' acc',
  merge_loop K_eqb K_ltb float_of_str h scores g acc = Ok (h', acc') ->
  (forall t ks k, In (t, ks) g -> In k ks -> ~ In k (map fst acc)) ->
  ForallOrdPairs (fun g1 g2 => forall k, In k (snd g1) -> ~ In k (snd g2)) g ->
  exists new,
    acc' = acc ++ new /\
    Forall2 (fun e grp =>
               exists rest, sorted K_ltb (snd grp) = fst e :: rest /\
                            dict_get K_eqb scores (fst e) = Ok (snd e))
      new g.
Proof.
  induction g as [|[t ks] g IH]; simpl; intros h acc h' acc' H Hfresh Hdis.
  - injection H as <- <-. exists []. split; [now rewrite app_nil_r|constructor].
  - apply bind_Ok in H as [[h1 acc1] [Hm H]].
    destruct (merge_target_spec _ _ _ _ _ _ _ _ _ Hm)
      as (k1 & rest & kn & a1 & an & vals & Hs & _ & Ha1 & _ & _ & _ & _ & ->).
    assert (Hk1 : In k1 ks)
      by (apply (sorted_In K_ltb); rewrite Hs; now left).
    rewrite dict_set_fresh in H
      by (apply (Hfresh t ks); [now left|assumption]).
    inversion Hdis as [|? ? Hhd Htl]; subst.
    apply IH in H as [new [-> HF]]; [| |assumption].
    + exists ((k1, a1) :: new). split; [now rewrite <- app_assoc|].
      constructor; [|assumption]. exists rest. now split.
    + intros t' ks' k Hin Hk. rewrite map_app, in_app_iff. simpl.
      intros [Hacc|[<-|[]]].
      * revert Hacc. apply (Hfresh t' ks'); [now right|assumption].
      * rewrite Forall_forall in Hhd. apply (Hhd (t', ks') Hin k1); assumption.
Qed.

(** The returned dict holds one entry for every target that was hit, in the
    order in which the targets were hit first: the least key of the
    target's group, with the line object this key has in the input. *)
Theorem accepted_entries_follow_targets
    h scores pTargetList pTree ix h' accepted same :
  index_used intervalListToIntervalTree pTargetList pTree = Some ix ->
  filter_scores_target_list K_eqb K_ltb int_of_str float_of_str
    intervalListToIntervalTree h scores pTargetList pTree = Ok (h', accepted) ->
  assign_targets K_eqb int_of_str h scores ix = Ok same ->
  Forall2 (fun e grp =>
             exists rest, sorted K_ltb (snd grp) = fst e :: rest /\
                          dict_get K_eqb scores (fst e) = Ok (snd e))
    accepted same.
Proof.
  intros Hused Hf Hsame.
  rewrite (filter_aggregate _ _ _ _ _ _ _ _ _ _ Hused) in Hf.
  unfold aggregate in Hf. rewrite Hsame in Hf. simpl in Hf.
  destruct (assign_targets_groups _ K_ltb _ _ _ _ _ Hsame) as (Hnd & Hks & _).
  assert (Hc : forall t ks k, In (t, ks) same -> In k ks ->
                key_class K_eqb int_of_str h scores ix k = Some t).
  { intros t ks k Hin Hk. destruct (Hks t ks Hin) as [-> _].
    apply filter_In in Hk as [_ Hk]. now apply has_target_true in Hk. }
  destruct (merge_loop_entries _ _ _ _ _ _ Hf) as [new [-> HF]].
  - intros t ks k _ _ [].
  - now apply (groups_disjoint (key_class K_eqb int_of_str h scores ix)).
  - exact HF.
Qed.

(** ** Fields and lengths of the lines *)

Lemma setitem_inv {A} (l l' : list A) i x :
  setitem l i x = Ok l' ->
  exists j, position (length l) i = Some j /\ l' = replace_nth l j x.
Proof.
  unfold setitem. destruct (position (length l) i) as [j|]; [|discriminate].
  intros [= <-]. eauto.
Qed.

Lemma replace_nth_same {A} (l : list A) j x :
  nth_error l j = Some x -> replace_nth l j x = l.
Proof.
  revert j; induction l as [|y t IH]; intros [|j]; simpl; try discriminate.
  - now intros [= ->].
  - intros H. now rewrite IH.
Qed.

Lemma write_line_length line last same vals l :
  write_line line last same vals = Ok l -> length l = length line.
Proof.
  unfold write_line. destruct vals as [[v0 v1] v2]. intros H.
  apply bind_Ok in H as [v [_ H]].
  apply bind_Ok in H as [l1 [H1 H]].
  apply bind_Ok in H as [v' [_ H]].
  apply bind_Ok in H as [l2 [H2 H]].
  apply bind_Ok in H as [l3 [H3 H]].
  apply bind_Ok in H as [l4 [H4 H]].
  apply setitem_length in H1, H2, H3, H4, H. congruence.
Qed.

(** The stores of the second loop reach the fields at the indices 2, -5,
    -3, -2 and -1 and no other one. *)
Lemma write_line_frame line last same v0 v1 v2 l L :
  write_line line last same (v0, v1, v2) = Ok l ->
  length line = L -> length last = L -> (7 <= L)%nat ->
  (same = true -> last = line) ->
  getitem l (-5) = getitem last (-5) /\
  forall j, j <> 2%nat -> j <> (L - 5)%nat -> j <> (L - 3)%nat ->
            j <> (L - 2)%nat -> j <> (L - 1)%nat ->
            nth_error l j = nth_error line j.
Proof.
  unfold write_line. intros H Hline Hlast HL Hsame.
  apply bind_Ok in H as [v [Hv H]].
  apply bind_Ok in H as [l1 [H1 H]].
  apply bind_Ok in H as [v' [Hv' H]].
  apply bind_Ok in H as [l2 [H2 H]].
  apply bind_Ok in H as [l3 [H3 H]].
  apply bind_Ok in H as [l4 [H4 H5]].
  pose proof (setitem_length _ _ _ _ H1) as E1.
  pose proof (setitem_length _ _ _ _ H2) as E2.
  pose proof (setitem_length _ _ _ _ H3) as E3.
  pose proof (setitem_length _ _ _ _ H4) as E4.
  assert (P2 : forall n, n = L -> position n 2 = Some 2%nat)
    by (intros n ->; rewrite position_nonneg by lia; reflexivity).
  assert (P5 : forall n, n = L -> position n (-5) = Some (L - 5)%nat)
    by (intros n ->; rewrite position_neg by lia; f_equal; lia).
  assert (P3 : forall n, n = L -> position n (-3) = Some (L - 3)%nat)
    by (intros n ->; rewrite position_neg by lia; f_equal; lia).
  assert (Q2 : forall n, n = L -> position n (-2) = Some (L - 2)%nat)
    by (intros n ->; rewrite position_neg by lia; f_equal; lia).
  assert (P1 : forall n, n = L -> position n (-1) = Some (L - 1)%nat)
    by (intros n ->; rewrite position_neg by lia; f_equal; lia).
  split.
  - rewrite (setitem_getitem_other _ _ _ (-5) _ H5)
      by (rewrite P5, P1 by congruence; intros [=]; lia).
    rewrite (setitem_getitem_other _ _ _ (-5) _ H4)
      by (rewrite P5, Q2 by congruence; intros [=]; lia).
    rewrite (setitem_getitem_other _ _ _ (-5) _ H3)
      by (rewrite P5, P3 by congruence; intros [=]; lia).
    rewrite (setitem_getitem_same _ _ _ (-5) _ H2) by reflexivity.
    rewrite <- Hv'. destruct same; [|reflexivity].
    rewrite (Hsame eq_refl) in *.
    apply setitem_inv in H1 as [j [Hj ->]].
    rewrite P2 in Hj by assumption. injection Hj as <-.
    rewrite replace_nth_same; [reflexivity|].
    rewrite (getitem_position _ _ _ (P2 _ Hline)) in Hv.
    destruct (nth_error line 2); [now injection Hv as ->|discriminate].
  - intros j N2 N5 N3 M2 N1.
    apply setitem_inv in H1 as [j1 [Hj1 ->]].
    apply setitem_inv in H2 as [j2 [Hj2 ->]].
    apply setitem_inv in H3 as [j3 [Hj3 ->]].
    apply setitem_inv in H4 as [j4 [Hj4 ->]].
    apply setitem_inv in H5 as [j5 [Hj5 ->]].
    rewrite P2 in Hj1 by assumption.
    rewrite P5 in Hj2 by congruence.
    rewrite P3 in Hj3 by congruence.
    rewrite Q2 in Hj4 by congruence.
    rewrite P1 in Hj5 by congruence.
    injection Hj1 as <-. injection Hj2 as <-. injection Hj3 as <-.
    injection Hj4 as <-. injection Hj5 as <-.
    rewrite !nth_error_replace_nth_other by congruence. reflexivity.
Qed.

(** Every line keeps its length: the function overwrites fields, it adds
    and removes none. *)
Theorem filter_keeps_line_lengths h scores pTargetList pTree h' accepted :
  filter_scores_target_list K_eqb K_ltb int_of_str float_of_str
    intervalListToIntervalTree h scores pTargetList pTree = Ok (h', accepted) ->
  forall b, length (h' b) = length (h b).
Proof.
  intros Hf b. apply filter_cases in Hf as [[= -> ->]|[ix [_ Ha]]];
    [reflexivity|].
  unfold aggregate in Ha. apply bind_Ok in Ha as [same [_ Hm]].
  clear K_eqb_spec.
  revert h Hm. generalize (@nil (K * ref)) as acc.
  induction same as [|[t ks] g IH]; simpl; intros acc h H.
  - now injection H as <- <-.
  - apply bind_Ok in H as [[h1 acc1] [Hm H]].
    rewrite (IH _ _ H).
    destruct (merge_target_spec _ _ _ _ _ _ _ _ _ Hm)
      as (k1 & rest & kn & a1 & an & vals & _ & _ & _ & _ & _ & Hw & Hother & _).
    destruct (Nat.eq_dec b a1) as [->|Hne].
    + now apply write_line_length in Hw.
    + now rewrite Hother.
Qed.

(** Besides the fields of C1, the merged line takes the field at index -5
    from the line of the last key; every other field is the one the line
    of the first key had. *)
Theorem merged_line_other_fields
    h scores pTargetList pTree ix L h' accepted same :
  NoDup (map fst scores) ->
  (7 <= L)%nat ->
  (forall k a, In (k, a) scores -> length (h a) = L) ->
  index_used intervalListToIntervalTree pTargetList pTree = Some ix ->
  filter_scores_target_list K_eqb K_ltb int_of_str float_of_str
    intervalListToIntervalTree h scores pTargetList pTree = Ok (h', accepted) ->
  assign_targets K_eqb int_of_str h scores ix = Ok same ->
  forall target ks, In (target, ks) same ->
  exists k1 rest kn a1 an,
    sorted K_ltb ks = k1 :: rest /\
    getitem (sorted K_ltb ks) (-1) = Ok kn /\
    dict_get K_eqb scores k1 = Ok a1 /\
    dict_get K_eqb scores kn = Ok an /\
    getitem (h' a1) (-5) = getitem (h an) (-5) /\
    forall j, j <> 2%nat -> j <> (L - 5)%nat -> j <> (L - 3)%nat ->
              j <> (L - 2)%nat -> j <> (L - 1)%nat ->
              nth_error (h' a1) j = nth_error (h a1) j.
Proof.
  intros Hnd HL Hlen Hused Hf Hsame target ks Hin.
  rewrite (filter_aggregate _ _ _ _ _ _ _ _ _ _ Hused) in Hf.
  destruct (aggregate_spec _ _ _ _ K_eqb_spec _ _ _ _ _ Hf)
    as (same' & Hsame' & _ & _ & M).
  rewrite Hsame in Hsame'. injection Hsame' as <-.
  destruct (M target ks Hin)
    as (k1 & rest & kn & a1 & an & vals & Hs & Hlast & Ha1 & Han & _ & Hw & _).
  assert (Hl : forall k a, dict_get K_eqb scores k = Ok a -> length (h a) = L).
  { intros k a Hk. apply (Hlen k a).
    now apply (dict_get_Ok_In K_eqb K_eqb_spec). }
  destruct vals as [[v0 v1] v2].
  destruct (write_line_frame _ _ _ _ _ _ _ L Hw (Hl _ _ Ha1) (Hl _ _ Han) HL)
    as [G5 Gj].
  { intros E. apply Nat.eqb_eq in E. now subst. }
  exists k1, rest, kn, a1, an. repeat split; assumption.
Qed.

(** A target object without regions accepts nothing: the result is the
    empty dict and no line is read or changed, whatever the scores hold. *)
Theorem empty_target_accepts_nothing h scores target pTree :
  start_list target = [] \/ end_list target = [] ->
  filter_scores_target_list K_eqb K_ltb int_of_str float_of_str
    intervalListToIntervalTree h scores (Some target) pTree = Ok (h, []).
Proof.
  clear K_eqb_spec. intros H. unfold filter_scores_target_list.
  replace (length _) with 0%nat; [reflexivity|].
  rewrite !length_combine, repeat_length.
  destruct H as [-> | ->]; simpl; lia.
Qed.

Lemma assign_loop_raises h scores ix (pre : list (K * ref)) k a rest e :
  (forall k' a', In (k', a') pre ->
     dict_get K_eqb scores k' = Ok a' /\
     exists o, locate int_of_str ix (h a') = Ok o) ->
  dict_get K_eqb scores k = Ok a ->
  locate int_of_str ix (h a) = Raise e ->
  forall acc,
  assign_loop K_eqb int_of_str h scores ix (map fst pre ++ k :: rest) acc =
  Raise e.
Proof.
  clear K_eqb_spec. intros Hpre Hk He.
  induction pre as [|[k' a'] pre IH]; simpl; intros acc.
  - rewrite Hk. simpl. now rewrite He.
  - destruct (Hpre k' a' (or_introl eq_refl)) as [-> [o Ho]]. simpl.
    rewrite Ho. simpl.
    destruct o; apply IH; intros k2 a2 Hin; apply Hpre; now right.
Qed.

(** The first line, in dict order, on which the body of the first loop
    raises decides the outcome: the call raises that exception. The loop
    converts start and end before it looks the chromosome up, so this holds
    for a line on a chromosome without targets as well. *)
Theorem first_bad_line_raises
    h scores pTargetList pTree ix pre k a post e :
  index_used intervalListToIntervalTree pTargetList pTree = Some ix ->
  NoDup (map fst scores) ->
  scores = pre ++ (k, a) :: post ->
  (forall k' a', In (k', a') pre ->
     exists o, locate int_of_str ix (h a') = Ok o) ->
  locate int_of_str ix (h a) = Raise e ->
  filter_scores_target_list K_eqb K_ltb int_of_str float_of_str
    intervalListToIntervalTree h scores pTargetList pTree = Raise e.
Proof.
  intros Hused Hnd -> Hpre He.
  rewrite (filter_aggregate _ _ _ _ _ _ _ _ _ _ Hused).
  unfold aggregate, assign_targets. rewrite map_app. simpl.
  rewrite (assign_loop_raises h _ ix pre k a (map fst post) e); [reflexivity| |
    |assumption].
  - intros k' a' Hin. split; [|now apply (Hpre k')].
    apply (dict_get_In K_eqb K_ltb K_eqb_spec); [assumption|].
    apply in_or_app. now left.
  - apply (dict_get_In K_eqb K_ltb K_eqb_spec); [assumption|].
    apply in_or_app. right. now left.
Qed.

End Edges.
End AggregateEdges.

(* ================================================================== *)
(** * The tester at its edges *)

Module TesterEdges.
Import DiffTest DiffTestSpec PyFacts DiffTestFacts.

(** ** Order of the buckets *)

Lemma bucket_of_from b v (pairs : list (group * group)) i :
  Forall (fun e => i <= fst e) (bucket_of b v (indexed i pairs)).
Proof.
  revert i; induction pairs as [|g pairs IH]; intros i; simpl; [constructor|].
  apply Forall_app. split.
  - destruct (Bool.eqb _ _); repeat constructor. simpl. lia.
  - eapply Forall_impl; [|apply IH]. simpl. intros e He. lia.
Qed.

Lemma bucket_of_sorted b v (pairs : list (group * group)) i :
  Sorted.StronglySorted Z.lt (map fst (bucket_of b v (indexed i pairs))).
Proof.
  revert i; induction pairs as [|g pairs IH]; intros i; simpl; [constructor|].
  rewrite map_app.
  destruct (Bool.eqb _ _); simpl; [|apply IH].
  constructor; [apply IH|].
  apply Forall_map. eapply Forall_impl; [|apply bucket_of_from].
  simpl. intros e He. lia.
Qed.

(** ** The buckets against the result list *)

Lemma bucket_of_recorded b v (pairs : list (group * group)) j q :
  In (j, q) (bucket_of b v (indexed 0 pairs)) ->
  exists g,
    0 <= j /\ nth_error pairs (Z.to_nat j) = Some g /\
    reject (v (fst g) (snd g)) = b /\ q = bucket (v (fst g) (snd g)) /\
    nth_error (map (fun p => recorded (v (fst p) (snd p))) pairs) (Z.to_nat j)
      = Some (recorded (v (fst g) (snd g))).
Proof.
  intros H. apply bucket_of_In in H as (g & Hin & Hr & Hq).
  apply indexed_In in Hin as (k & -> & Hk).
  exists g. rewrite Z.add_0_l, Nat2Z.id.
  repeat split; try assumption; [lia|].
  rewrite nth_error_map, Hk. reflexivity.
Qed.

(** ** Float comparison *)

(** Finite numbers of one sign compare by exponent, then by mantissa. *)
Lemma SFleb_finite s1 m1 e1 s2 m2 e2 :
  SFleb (S754_finite s1 m1 e1) (S754_finite s2 m2 e2) = true <->
  match s1, s2 with
  | true, false => True
  | false, true => False
  | false, false => e1 < e2 \/ (e1 = e2 /\ (m1 <= m2)%positive)
  | true, true => e2 < e1 \/ (e2 = e1 /\ (m2 <= m1)%positive)
  end.
Proof.
  unfold SFleb, SFcompare.
  change (Pos.compare_cont Eq) with Pos.compare.
  destruct s1, s2; [|tauto|split; [discriminate|tauto]|];
    destruct (Z.compare_spec e1 e2); try (split; [lia|discriminate]);
    try (split; [lia|reflexivity]);
    destruct (Pos.compare_spec m1 m2); simpl;
    try (split; [intros _; lia|reflexivity]);
    split; try discriminate; lia.
Qed.

Lemma SFleb_trans x y z :
  SFleb x y = true -> SFleb y z = true -> SFleb x z = true.
Proof.
  intros Hxy Hyz.
  destruct x as [sx|sx| |sx mx ex], y as [sy|sy| |sy my ey],
    z as [sz|sz| |sz mz ez];
    try (apply SFleb_finite in Hxy); try (apply SFleb_finite in Hyz);
    try (apply SFleb_finite);
    repeat match goal with s : bool |- _ => destruct s end;
    repeat match goal with H : SFleb _ _ = true |- _ => cbv in H end;
    try discriminate; try contradiction; try exact I; try reflexivity;
    lia.
Qed.

Lemma float_leb_trans (x y z : float) :
  (x <=? y)%float = true -> (y <=? z)%float = true -> (x <=? z)%float = true.
Proof. rewrite !leb_spec. apply SFleb_trans. Qed.

Section Claims.
Variable chi2_ppf : float -> Z -> float.
Variable chi2_contingency : group -> group -> option (float * float).
Variable fisher_exact : list group -> option float.
Variable ceil : float -> float.

(** Both tests list the indices of each bucket in increasing order. *)
Theorem buckets_are_ascending d1 d2 alpha :
  let oc := snd (chisquare_test chi2_ppf chi2_contingency d1 d2 alpha) in
  let ofi := fisher_exact_test fisher_exact ceil d1 d2 alpha in
  Sorted.StronglySorted Z.lt (map fst (accepted oc)) /\
  Sorted.StronglySorted Z.lt (map fst (rejected oc)) /\
  Sorted.StronglySorted Z.lt (map fst (accepted ofi)) /\
  Sorted.StronglySorted Z.lt (map fst (rejected ofi)).
Proof.
  cbv zeta.
  destruct (chisquare_test_spec chi2_ppf chi2_contingency d1 d2 alpha)
    as (_ & -> & -> & _).
  destruct (fisher_exact_test_spec fisher_exact ceil d1 d2 alpha)
    as (_ & -> & ->).
  repeat split; apply bucket_of_sorted.
Qed.

(** The p-value a bucket holds for an index is the one the result list
    holds at that index, but for an index on which the test is undefined:
    there the accepted bucket holds 1.0 and the result list nan. *)
Theorem bucket_values_match_results d1 d2 alpha :
  let oc := snd (chisquare_test chi2_ppf chi2_contingency d1 d2 alpha) in
  let ofi := fisher_exact_test fisher_exact ceil d1 d2 alpha in
  (forall i p, In (i, p) (rejected oc) ->
     0 <= i /\ nth_error (test_result oc) (Z.to_nat i) = Some p) /\
  (forall i p, In (i, p) (accepted oc) ->
     0 <= i /\
     (nth_error (test_result oc) (Z.to_nat i) = Some p \/
      p = 1%float /\ nth_error (test_result oc) (Z.to_nat i) = Some nan)) /\
  (forall i p, In (i, p) (rejected ofi) ->
     0 <= i /\ nth_error (test_result ofi) (Z.to_nat i) = Some p) /\
  (forall i p, In (i, p) (accepted ofi) ->
     0 <= i /\
     (nth_error (test_result ofi) (Z.to_nat i) = Some p \/
      p = 1%float /\ nth_error (test_result ofi) (Z.to_nat i) = Some nan)).
Proof.
  cbv zeta.
  destruct (chisquare_test_spec chi2_ppf chi2_contingency d1 d2 alpha)
    as (-> & -> & -> & _).
  destruct (fisher_exact_test_spec fisher_exact ceil d1 d2 alpha)
    as (-> & -> & ->).
  split; [|split; [|split]]; intros i p H;
    apply bucket_of_recorded in H as (g & H0 & _ & Hr & -> & ->);
    (split; [assumption|]).
  - revert Hr. unfold chi_verdict.
    destruct (chi2_contingency _ _) as [[c q]|]; simpl; [reflexivity|discriminate].
  - revert Hr. unfold chi_verdict.
    destruct (chi2_contingency _ _) as [[c q]|]; simpl; [now left|now right].
  - revert Hr. unfold fisher_verdict.
    destruct (fisher_exact _) as [q|]; simpl; [reflexivity|discriminate].
  - revert Hr. unfold fisher_verdict.
    destruct (fisher_exact _) as [q|]; simpl; [now left|now right].
Qed.

(** [chisquare_test] logs exactly when the statistic is undefined on some
    pair of the zipped input. *)
Theorem chisquare_logs_only_untestable d1 d2 alpha :
  fst (chisquare_test chi2_ppf chi2_contingency d1 d2 alpha) = [] <->
  Forall (fun p => chi2_contingency (fst p) (snd p) <> None) (combine d1 d2).
Proof.
  destruct (chisquare_test_spec chi2_ppf chi2_contingency d1 d2 alpha)
    as (_ & _ & _ & ->).
  unfold untestable. induction (combine d1 d2) as [|p l IH]; simpl.
  - split; [constructor|reflexivity].
  - destruct (chi2_contingency (fst p) (snd p)) eqn:E; simpl.
    + rewrite IH. split; intros H.
      * constructor; [congruence|assumption].
      * now inversion H.
    + split; [discriminate|]. intros H. inversion H. congruence.
Qed.

(** A pair rejected at a level is rejected at every larger level: in the
    Fisher test as it stands, in the chi-squared test when the critical
    value does not grow with the level. *)
Theorem rejections_grow_with_alpha d1 d2 alpha alpha' :
  (alpha <=? alpha')%float = true ->
  (forall i p,
     In (i, p) (rejected (fisher_exact_test fisher_exact ceil d1 d2 alpha)) ->
     In (i, p) (rejected (fisher_exact_test fisher_exact ceil d1 d2 alpha'))) /\
  ((chi2_ppf (1 - alpha') 1 <=? chi2_ppf (1 - alpha) 1)%float = true ->
   forall i p,
     In (i, p)
       (rejected (snd (chisquare_test chi2_ppf chi2_contingency d1 d2 alpha))) ->
     In (i, p)
       (rejected (snd (chisquare_test chi2_ppf chi2_contingency d1 d2 alpha')))).
Proof.
  intros Ha. split.
  - intros i p.
    destruct (fisher_exact_test_spec fisher_exact ceil d1 d2 alpha)
      as (_ & _ & ->).
    destruct (fisher_exact_test_spec fisher_exact ceil d1 d2 alpha')
      as (_ & _ & ->).
    rewrite !bucket_of_In. intros (g & Hin & Hr & ->).
    exists g. split; [assumption|]. revert Hr. unfold fisher_verdict.
    destruct (fisher_exact _) as [q|]; simpl; [|discriminate].
    intros Hq. now rewrite (float_leb_trans _ _ _ Hq Ha).
  - intros Hc i p.
    destruct (chisquare_test_spec chi2_ppf chi2_contingency d1 d2 alpha)
      as (_ & _ & -> & _).
    destruct (chisquare_test_spec chi2_ppf chi2_contingency d1 d2 alpha')
      as (_ & _ & -> & _).
    rewrite !bucket_of_In. intros (g & Hin & Hr & ->).
    exists g. split; [assumption|]. revert Hr. unfold chi_verdict.
    destruct (chi2_contingency _ _) as [[c q]|]; simpl; [|discriminate].
    unfold float_geb. intros Hq. now rewrite (float_leb_trans _ _ _ Hc Hq).
Qed.

End Claims.
End TesterEdges.

(* ================================================================== *)
(** * What the writers put into the file *)

Module WriterFacts.
Import Store StoreSpec PyFacts StoreFacts ToolsFacts.

#[local] Hint Resolve extends_refl extends_trans : store.

Lemma has_In f p : has f p = true <-> exists c, In (p, c) (objects f).
Proof.
  unfold has. rewrite existsb_exists. split.
  - intros [[q c] [Hin Hq]]. unfold path_eqb in Hq. simpl in Hq.
    destruct (list_eq_dec string_dec q p); [subst|discriminate]. eauto.
  - intros [c Hin]. exists (p, c). split; [assumption|].
    unfold path_eqb. simpl. now destruct (list_eq_dec string_dec p p).
Qed.

Lemma has_extends f f' p : extends f f' -> has f p = true -> has f' p = true.
Proof.
  rewrite !has_In. intros E [c H]. exists c. now apply (extends_In f).
Qed.

Lemma getitem_last {A} (pre : list A) x : getitem (pre ++ [x]) (-1) = Ok x.
Proof.
  unfold getitem. rewrite position_neg by (rewrite length_app; simpl; lia).
  replace (Z.to_nat _) with (length pre) by (rewrite length_app; simpl; lia).
  now rewrite nth_error_app2, Nat.sub_diag by lia.
Qed.

(** [require_group] does not raise. *)
Lemma require_group_Ok f p : exists f', require_group f p = Ok f'.
Proof.
  unfold require_group, create. destruct (has f p); eauto.
Qed.

(** ** [writeResultHDF] *)

Section Result.
Variable py_str : value -> string.




Lemma write_categories_objects dict : forall f go gene i f',
  write_categories py_str f go gene dict i = Ok f' ->
  forall category lists,
  In (category, lists) dict ->
  exists data f0 f1,
    getitem lists i = Ok data /\
    write_category py_str f0 (go ++ [category]) gene data = Ok f1 /\
    extends f1 f'.
Proof.
  induction dict as [|[c0 l0] rest IH]; simpl; intros f go gene i f' H
    category lists Hin; [contradiction|].
  apply bind_Ok in H as [_ [_ H]].
  apply bind_Ok in H as [data [Hd H]].
  apply bind_Ok in H as [f1 [H1 H]].
  destruct Hin as [[= <- <-]|Hin].
  - exists data, f, f1. repeat split; try assumption.
    now apply write_categories_extends in H.
  - now apply (IH _ _ _ _ _ H).
Qed.

Lemma create_attrs f p c f' : create f p c = Ok f' -> attrs f' = attrs f.
Proof.
  unfold create. destruct (has f p); [discriminate|]. now intros [= <-].
Qed.

Lemma require_group_attrs f p f' :
  require_group f p = Ok f' -> attrs f' = attrs f.
Proof.
  unfold require_group. destruct (has f p); [now intros [= <-]|].
  apply create_attrs.
Qed.

(** Runs a chain of creations down to its end, collecting the attributes. *)
Ltac attrs_chain H :=
  repeat match type of H with
    | bind (create _ _ _) _ = Ok _ =>
        let f := fresh "f" in let Hc := fresh "Hc" in
        apply bind_Ok in H as [f [Hc H]]; apply create_attrs in Hc
    | bind (require_group _ _) _ = Ok _ =>
        let f := fresh "f" in let Hc := fresh "Hc" in
        apply bind_Ok in H as [f [Hc H]]; apply require_group_attrs in Hc
    | bind _ _ = Ok _ =>
        let x := fresh "x" in let Hx := fresh "Hx" in
        apply bind_Ok in H as [x [Hx H]]
    end.

Lemma write_category_attrs f wo gene data f' :
  write_category py_str f wo gene data = Ok f' -> attrs f' = attrs f.
Proof.
  unfold write_category. destruct (Nat.eqb (length data) 0);
    [now intros [= <-]|].
  intros H. attrs_chain H. apply create_attrs in H. congruence.
Qed.

Lemma write_categories_attrs dict : forall f go gene i f',
  write_categories py_str f go gene dict i = Ok f' -> attrs f' = attrs f.
Proof.
  induction dict as [|[c l] rest IH]; simpl; intros f go gene i f' H.
  - now injection H as <-.
  - apply bind_Ok in H as [_ [_ H]]. apply bind_Ok in H as [d [_ H]].
    apply bind_Ok in H as [f1 [H1 H]].
    apply write_category_attrs in H1. apply IH in H. congruence.
Qed.

Lemma open_gene_attrs f inputData f' go gene :
  open_gene f inputData = Ok (f', go, gene) ->
  attrs f' = attrs f /\ (x <- getitem inputData 0 ;; getitem x 3) = Ok gene.
Proof.
  unfold open_gene. intros H.
  apply bind_Ok in H as [m1 [_ H]]. apply bind_Ok in H as [m2 [_ H]].
  apply bind_Ok in H as [c [_ H]]. apply bind_Ok in H as [g [Hg H]].
  attrs_chain H. injection H as <- _ <-. split; [congruence|assumption].
Qed.

Lemma write_inputs_extends dict inputs f i f' :
  write_inputs py_str f dict i inputs = Ok f' -> extends f f'.
Proof. intros H. now apply write_inputs_groups in H. Qed.

Lemma write_inputs_objects dict inputs : forall f i f',
  write_inputs py_str f dict i inputs = Ok f' ->
  0 <= i ->
  attrs f' = attrs f /\
  forall k inputData category lists,
  nth_error inputs k = Some inputData ->
  In (category, lists) dict ->
  exists go gene data f0 f1,
    gene_path inputData = Ok go /\
    (x <- getitem inputData 0 ;; getitem x 3) = Ok gene /\
    nth_error lists (Z.to_nat i + k) = Some data /\
    write_category py_str f0 (go ++ [category]) gene data = Ok f1 /\
    extends f1 f'.
Proof.
  induction inputs as [|x rest IH]; simpl; intros f i f' H Hi.
  - injection H as <-. split; [reflexivity|]. now intros [|k].
  - apply bind_Ok in H as [[[f1 go] gene] [Ho H]].
    apply bind_Ok in H as [f2 [Hc H]].
    destruct (IH _ _ _ H ltac:(lia)) as [Ha Hrest].
    destruct (open_gene_attrs _ _ _ _ _ Ho) as [Ha1 Hg].
    split.
    { rewrite Ha, (write_categories_attrs _ _ _ _ _ _ Hc). exact Ha1. }
    intros [|k] inputData category lists Hk Hin; simpl in Hk.
    + injection Hk as <-.
      destruct (write_categories_objects _ _ _ _ _ _ Hc _ _ Hin)
        as (data & f0 & f3 & Hd & Hw & E).
      apply open_gene_groups in Ho as (_ & Hp & _).
      exists go, gene, data, f0, f3.
      split; [assumption|]. split; [assumption|]. split.
      { rewrite Nat.add_0_r. rewrite getitem_nonneg in Hd by assumption.
        destruct (nth_error lists (Z.to_nat i));
          [now injection Hd as ->|discriminate]. }
      split; [assumption|].
      apply write_inputs_extends in H. eauto with store.
    + destruct (Hrest k inputData category lists Hk Hin)
        as (go' & gene' & data & f0 & f3 & Hp & Hg' & Hn & Hw & E).
      exists go', gene', data, f0, f3. repeat split; try assumption.
      rewrite <- Hn. f_equal. lia.
Qed.


Lemma result_lists_lengths dict pInputData f f' :
  write_inputs py_str f dict 0 pInputData = Ok f' ->
  forall category lists,
  In (category, lists) dict -> (length pInputData <= length lists)%nat.
Proof.
  intros H category lists Hin.
  apply write_inputs_objects in H as [_ Hobj]; [|lia].
  destruct pInputData as [|x0 rest0] eqn:E; [simpl; lia|]. rewrite <- E in *.
  assert (Hlast : exists x, nth_error pInputData (length pInputData - 1) = Some x).
  { destruct (nth_error pInputData (length pInputData - 1)) eqn:En; [eauto|].
    apply nth_error_None in En. rewrite E in En. simpl in En. lia. }
  destruct Hlast as [x Hx].
  destruct (Hobj _ x category lists Hx Hin)
    as (_ & _ & data & _ & _ & _ & _ & Hn & _).
  simpl in Hn.
  assert (Hl : nth_error lists (length pInputData - 1) <> None) by congruence.
  apply nth_error_Some in Hl. rewrite E in *; simpl in *; lia.
Qed.

(** The writer needs an entry in each of the three lists for every input
    key: it succeeds on no call that gives it fewer. *)
Theorem result_lists_cover_the_inputs
    pAcceptedData pRejectedData pAllResultData pInputData pAlpha f :
  writeResultHDF py_str pAcceptedData pRejectedData pAllResultData pInputData
    pAlpha = Ok f ->
  (length pInputData <= length pAcceptedData)%nat /\
  (length pInputData <= length pRejectedData)%nat /\
  (length pInputData <= length pAllResultData)%nat.
Proof.
  unfold writeResultHDF. intros H.
  repeat split; eapply (result_lists_lengths _ _ _ _ H); simpl; eauto.
Qed.

End Result.

(** ** [writeAggregateHDF] *)

Section Aggregated.
Context {K : Type}.

Lemma collect_lists (data : @scores K) : forall acc fl,
  collect data acc = Ok fl ->
  (exists vs, start_list fl = start_list acc ++ vs /\
              Forall2 (fun e v => getitem (snd e) 1 = Ok v) data vs) /\
  (exists vs, end_list fl = end_list acc ++ vs /\
              Forall2 (fun e v => getitem (snd e) 2 = Ok v) data vs) /\
  (exists vs, relative_distance_list fl = relative_distance_list acc ++ vs /\
              Forall2 (fun e v => getitem (snd e) 5 = Ok v) data vs) /\
  (exists vs, raw_target_list fl = raw_target_list acc ++ vs /\
              Forall2 (fun e v => getitem (snd e) (-1) = Ok v) data vs).
Proof.
  induction data as [|[k line] data IH]; simpl; intros acc fl H.
  - injection H as <-.
    repeat split; exists []; (split; [now rewrite app_nil_r|constructor]).
  - apply bind_Ok in H as [c [Hc H]]. apply bind_Ok in H as [s [Hs H]].
    apply bind_Ok in H as [e [He H]]. apply bind_Ok in H as [g [Hg H]].
    apply bind_Ok in H as [i [Hi H]]. apply bind_Ok in H as [d [Hd H]].
    apply bind_Ok in H as [r [Hr H]].
    apply IH in H as ((vs & Es & Fs) & (ve & Ee & Fe) & (vd & Ed & Fd)
                      & (vr & Er & Fr)).
    simpl in *. split; [|split; [|split]].
    + exists (s :: vs). split; [now rewrite Es, <- app_assoc|now constructor].
    + exists (e :: ve). split; [now rewrite Ee, <- app_assoc|now constructor].
    + exists (d :: vd). split; [now rewrite Ed, <- app_assoc|now constructor].
    + exists (r :: vr). split; [now rewrite Er, <- app_assoc|now constructor].
Qed.

Lemma collect_last (pre : @scores K) e : forall acc fl,
  collect (pre ++ [e]) acc = Ok fl ->
  exists c g s,
    getitem (snd e) 0 = Ok c /\ getitem (snd e) 3 = Ok g /\
    getitem (snd e) 4 = Ok s /\
    chromosome fl = Some c /\ gene_name fl = Some g /\
    sum_of_interactions fl = Some s.
Proof.
  induction pre as [|[k0 l0] pre IH]; simpl; intros acc fl H.
  - destruct e as [k line]. simpl in *.
    apply bind_Ok in H as [c [Hc H]]. apply bind_Ok in H as [s [Hs H]].
    apply bind_Ok in H as [en [He H]]. apply bind_Ok in H as [g [Hg H]].
    apply bind_Ok in H as [i [Hi H]]. apply bind_Ok in H as [d [Hd H]].
    apply bind_Ok in H as [r [Hr H]].
    injection H as <-. exists c, g, i. simpl. now repeat split.
  - apply bind_Ok in H as [c [Hc H]]. apply bind_Ok in H as [s [Hs H]].
    apply bind_Ok in H as [en [He H]]. apply bind_Ok in H as [g [Hg H]].
    apply bind_Ok in H as [i [Hi H]]. apply bind_Ok in H as [d [Hd H]].
    apply bind_Ok in H as [r [Hr H]].
    now apply IH in H.
Qed.

Lemma scalar_Some v c : scalar v = Ok c -> exists x, v = Some x /\ c = Scalar x.
Proof. destruct v; simpl; [intros [= <-]; eauto|discriminate]. Qed.

(** What the body of the inner loop leaves in the file for a key with
    lines. *)
Lemma write_key_objects f combination key (pre : @scores K) e f' :
  write_key f combination key (pre ++ [e]) = Ok f' ->
  exists k0 k1 kl chromosomeObject fl,
    getitem key 0 = Ok k0 /\ getitem key 1 = Ok k1 /\
    getitem key (-1) = Ok kl /\
    collect (pre ++ [e]) (mkFields None [] [] None None [] []) = Ok fl /\
    (chromosomeObject = combination ++ [k0; k1] \/
     exists c, chromosome fl = Some (VStr c) /\
               chromosomeObject = combination ++ [k0; c]) /\
    extends f f' /\
    let groupObject := chromosomeObject ++ [kl] in
    In (groupObject, Group) (objects f') /\
    (exists c, chromosome fl = Some c /\
       In (groupObject ++ ["chromosome"%string], Scalar c) (objects f')) /\
    In (groupObject ++ ["start_list"%string], Dataset (start_list fl))
      (objects f') /\
    In (groupObject ++ ["end_list"%string], Dataset (end_list fl))
      (objects f') /\
    (exists g, gene_name fl = Some g /\
       In (groupObject ++ ["gene_name"%string], Scalar g) (objects f')) /\
    (exists s, sum_of_interactions fl = Some s /\
       In (groupObject ++ ["sum_of_interactions"%string], Scalar s)
         (objects f')) /\
    In (groupObject ++ ["relative_distance_list"%string],
        Dataset (relative_distance_list fl)) (objects f') /\
    In (groupObject ++ ["raw_target_list"%string],
        Dataset (raw_target_list fl)) (objects f') /\
    In (combination ++ [k0; "genes"%string; kl], Link groupObject)
      (objects f').
Proof.
  unfold write_key. intros H.
  replace (Nat.eqb (length (pre ++ [e])) 0) with false in H
    by (rewrite length_app; simpl; symmetry; apply Nat.eqb_neq; lia).
  apply bind_Ok in H as [fl [Hfl H]].
  apply bind_Ok in H as [k0 [Hk0 H]].
  apply bind_Ok in H as [f1 [H1 H]]. apply require_group_extends in H1.
  apply bind_Ok in H as [k1 [Hk1 H]].
  apply bind_Ok in H as [[f2 chromosomeObject] [H2 H]].
  assert (G2 : extends f1 f2 /\
               (chromosomeObject = combination ++ [k0; k1] \/
                exists c, chromosome fl = Some (VStr c) /\
                          chromosomeObject = combination ++ [k0; c])).
  { destruct (negb (has f1 ((combination ++ [k0]) ++ [k1]))).
    - apply bind_Ok in H2 as [f2' [Hc H2]]. injection H2 as <- <-.
      apply create_extends in Hc as [Hc _]. split; [assumption|].
      left. now rewrite <- app_assoc.
    - apply bind_Ok in H2 as [p [Hp H2]]. injection H2 as <- <-.
      split; [apply extends_refl|]. right. unfold lookup_name in Hp.
      destruct (chromosome fl) as [[c| |]|]; try discriminate.
      destruct (has f1 _); [|discriminate]. injection Hp as <-.
      exists c. split; [reflexivity|]. now rewrite <- app_assoc. }
  destruct G2 as [E2 Hchrom]. clear H2.
  apply bind_Ok in H as [f3 [H3 H]]. apply require_group_extends in H3.
  apply bind_Ok in H as [kl [Hkl H]].
  apply bind_Ok in H as [f4 [H4 H]]. apply create_extends in H4 as [E4 I4].
  apply bind_Ok in H as [c [Hc H]]. apply scalar_Some in Hc as [vc [Evc ->]].
  apply bind_Ok in H as [f5 [H5 H]]. apply create_extends in H5 as [E5 I5].
  apply bind_Ok in H as [f6 [H6 H]]. apply create_extends in H6 as [E6 I6].
  apply bind_Ok in H as [f7 [H7 H]]. apply create_extends in H7 as [E7 I7].
  apply bind_Ok in H as [g [Hg H]]. apply scalar_Some in Hg as [vg [Evg ->]].
  apply bind_Ok in H as [f8 [H8 H]]. apply create_extends in H8 as [E8 I8].
  apply bind_Ok in H as [s [Hs H]]. apply scalar_Some in Hs as [vs [Evs ->]].
  apply bind_Ok in H as [f9 [H9 H]]. apply create_extends in H9 as [E9 I9].
  apply bind_Ok in H as [f10 [H10 H]]. apply create_extends in H10 as [E10 I10].
  apply bind_Ok in H as [f11 [H11 H]]. apply create_extends in H11 as [E11 I11].
  apply bind_Ok in H as [kl' [Hkl' H]].
  rewrite Hkl in Hkl'. injection Hkl' as <-.
  apply bind_Ok in H as [_ [_ H]]. apply create_extends in H as [E12 I12].
  assert (X11 : extends f11 f') by exact E12.
  assert (X10 : extends f10 f') by eauto with store.
  assert (X9 : extends f9 f') by eauto with store.
  assert (X8 : extends f8 f') by eauto with store.
  assert (X7 : extends f7 f') by eauto with store.
  assert (X6 : extends f6 f') by eauto with store.
  assert (X5 : extends f5 f') by eauto with store.
  assert (X4 : extends f4 f') by eauto with store.
  assert (X0 : extends f f') by eauto 8 with store.
  exists k0, k1, kl, chromosomeObject, fl.
  repeat (split; [assumption|]). cbv zeta.
  split; [exact (extends_In _ _ _ X4 I4)|].
  split; [exists vc; split; [assumption|exact (extends_In _ _ _ X5 I5)]|].
  split; [exact (extends_In _ _ _ X6 I6)|].
  split; [exact (extends_In _ _ _ X7 I7)|].
  split; [exists vg; split; [assumption|exact (extends_In _ _ _ X8 I8)]|].
  split; [exists vs; split; [assumption|exact (extends_In _ _ _ X9 I9)]|].
  split; [exact (extends_In _ _ _ X10 I10)|].
  split; [exact (extends_In _ _ _ X11 I11)|].
  rewrite <- !app_assoc in I12. exact I12.
Qed.

Lemma write_key_extends f combination key (data : @scores K) f' :
  write_key f combination key data = Ok f' -> extends f f'.
Proof.
  destruct data as [|e0 data0] eqn:E.
  - unfold write_key. simpl. intros [= <-]. apply extends_refl.
  - rewrite <- E. assert (Hne : data <> []) by (rewrite E; discriminate).
    destruct (exists_last Hne) as (pre & e & ->).
    intros H. now apply write_key_objects in H as (? & ? & ? & ? & ? & _ & _ & _ & _ & _ & X & _).
Qed.

Lemma write_keys_extends combination (pairs : list (list string * @scores K)) :
  forall f f', write_keys f combination pairs = Ok f' -> extends f f'.
Proof.
  induction pairs as [|[key data] rest IH]; simpl; intros f f' H.
  - injection H as <-. apply extends_refl.
  - apply bind_Ok in H as [f1 [H1 H]]. apply write_key_extends in H1.
    apply IH in H. eauto with store.
Qed.

Lemma write_keys_objects combination (pairs : list (list string * @scores K)) :
  forall f f' j key data,
  write_keys f combination pairs = Ok f' ->
  nth_error pairs j = Some (key, data) ->
  exists f0 f1, write_key f0 combination key data = Ok f1 /\ extends f1 f'.
Proof.
  induction pairs as [|[key0 data0] rest IH]; simpl; intros f f' j key data H Hj.
  - now destruct j.
  - apply bind_Ok in H as [f1 [H1 H]]. destruct j as [|j]; simpl in Hj.
    + injection Hj as <- <-. exists f, f1. split; [assumption|].
      now apply write_keys_extends in H.
    + now apply (IH _ _ _ _ _ H Hj).
Qed.

Lemma write_outer_extends (pairs : list (list (list string) * list (@scores K))) :
  forall f f', write_outer f pairs = Ok f' -> extends f f'.
Proof.
  induction pairs as [|[ko dato] rest IH]; simpl; intros f f' H.
  - injection H as <-. apply extends_refl.
  - apply bind_Ok in H as [a [_ H]]. apply bind_Ok in H as [b [_ H]].
    apply bind_Ok in H as [f1 [H1 H]]. apply require_group_extends in H1.
    apply bind_Ok in H as [f2 [H2 H]]. apply write_keys_extends in H2.
    apply IH in H. eauto with store.
Qed.

Lemma write_outer_objects (pairs : list (list (list string) * list (@scores K))) :
  forall f f' i key_outer data_outer j key data,
  write_outer f pairs = Ok f' ->
  nth_error pairs i = Some (key_outer, data_outer) ->
  nth_error (combine key_outer data_outer) j = Some (key, data) ->
  exists a b f0 f1,
    (k <- getitem key_outer 0 ;; getitem k 0) = Ok a /\
    (k <- getitem key_outer 1 ;; getitem k 0) = Ok b /\
    write_key f0 [(a ++ "_" ++ b)%string] key data = Ok f1 /\
    extends f1 f'.
Proof.
  induction pairs as [|[ko dato] rest IH]; simpl;
    intros f f' i key_outer data_outer j key data H Hi Hj.
  - now destruct i.
  - apply bind_Ok in H as [a [Ha H]]. apply bind_Ok in H as [b [Hb H]].
    apply bind_Ok in H as [f1 [H1 H]].
    apply bind_Ok in H as [f2 [H2 H]].
    destruct i as [|i]; simpl in Hi.
    + injection Hi as <- <-.
      destruct (write_keys_objects _ _ _ _ _ _ _ H2 Hj) as (f0 & f3 & Hw & E).
      exists a, b, f0, f3. repeat split; try assumption.
      apply write_outer_extends in H. eauto with store.
    + now apply (IH _ _ _ _ _ _ _ _ H Hi Hj).
Qed.

(** An aggregated file holds, for every viewpoint with lines, a group
    named by the last entry of the key, inside the group of the
    chromosome: with the starts, ends, distances and raw counts of the
    lines in the order of the lines, with the chromosome, the gene name
    and the sum of interactions of the last line, and with a link to it
    under [genes]. The group of the chromosome is the one named by the
    second entry of the key when the writer makes it, and the one named by
    the chromosome of the last line when the former is there already. *)
Theorem aggregate_file_holds_the_lines
    pOutfileNamesList (pAcceptedScoresList : list (list (@scores K))) f :
  writeAggregateHDF pOutfileNamesList pAcceptedScoresList = Ok f ->
  forall i key_outer data_outer j key pre e,
  nth_error pOutfileNamesList i = Some key_outer ->
  nth_error pAcceptedScoresList i = Some data_outer ->
  nth_error key_outer j = Some key ->
  nth_error data_outer j = Some (pre ++ [e]) ->
  let data := pre ++ [e] in
  exists a b k0 k1 kl chromosomeObject c g s starts ends distances raws,
    (k <- getitem key_outer 0 ;; getitem k 0) = Ok a /\
    (k <- getitem key_outer 1 ;; getitem k 0) = Ok b /\
    getitem key 0 = Ok k0 /\ getitem key 1 = Ok k1 /\
    getitem key (-1) = Ok kl /\
    getitem (snd e) 0 = Ok c /\ getitem (snd e) 3 = Ok g /\
    getitem (snd e) 4 = Ok s /\
    Forall2 (fun e v => getitem (snd e) 1 = Ok v) data starts /\
    Forall2 (fun e v => getitem (snd e) 2 = Ok v) data ends /\
    Forall2 (fun e v => getitem (snd e) 5 = Ok v) data distances /\
    Forall2 (fun e v => getitem (snd e) (-1) = Ok v) data raws /\
    let matrixGroup := [(a ++ "_" ++ b)%string; k0] in
    (chromosomeObject = matrixGroup ++ [k1] \/
     exists name, c = VStr name /\ chromosomeObject = matrixGroup ++ [name]) /\
    let groupObject := chromosomeObject ++ [kl] in
    In (groupObject, Group) (objects f) /\
    In (groupObject ++ ["chromosome"%string], Scalar c) (objects f) /\
    In (groupObject ++ ["start_list"%string], Dataset starts) (objects f) /\
    In (groupObject ++ ["end_list"%string], Dataset ends) (objects f) /\
    In (groupObject ++ ["gene_name"%string], Scalar g) (objects f) /\
    In (groupObject ++ ["sum_of_interactions"%string], Scalar s) (objects f) /\
    In (groupObject ++ ["relative_distance_list"%string], Dataset distances)
      (objects f) /\
    In (groupObject ++ ["raw_target_list"%string], Dataset raws) (objects f) /\
    In (matrixGroup ++ ["genes"%string; kl], Link groupObject) (objects f).
Proof.
  unfold writeAggregateHDF.
  intros H i key_outer data_outer j key pre e Hi Hi' Hj Hj'.
  pose proof (DiffTestFacts.combine_nth_error _ _ _ _ _ Hi Hi') as Hc.
  pose proof (DiffTestFacts.combine_nth_error _ _ _ _ _ Hj Hj') as Hc'.
  destruct (write_outer_objects _ _ _ _ _ _ _ _ _ H Hc Hc')
    as (a & b & f0 & f1 & Ha & Hb & Hw & E).
  apply write_key_objects in Hw
    as (k0 & k1 & kl & co & fl & Hk0 & Hk1 & Hkl & Hfl & Hco & _ & I1
        & (c & Ec & I2) & I3 & I4 & (g & Eg & I5) & (s & Es & I6) & I7 & I8
        & I9).
  destruct (collect_last _ _ _ _ Hfl)
    as (c' & g' & s' & Hc0 & Hg0 & Hs0 & Ec' & Eg' & Es').
  rewrite Ec in Ec'. injection Ec' as <-.
  rewrite Eg in Eg'. injection Eg' as <-.
  rewrite Es in Es'. injection Es' as <-.
  destruct (collect_lists _ _ _ Hfl)
    as ((starts & Est & Fst) & (ends & Een & Fen) & (dist & Edi & Fdi)
        & (raws & Era & Fra)).
  simpl in Est, Een, Edi, Era.
  rewrite Est in I3. rewrite Een in I4. rewrite Edi in I7. rewrite Era in I8.
  exists a, b, k0, k1, kl, co, c, g, s, starts, ends, dist, raws.
  cbv zeta. repeat (split; [assumption|]).
  split.
  { destruct Hco as [->|[name [En ->]]]; [now left|].
    right. exists name. split; [congruence|reflexivity]. }
  repeat (split; [eapply (extends_In f1); [exact E|eassumption]|]).
  eapply (extends_In f1); [exact E|exact I9].
Qed.

(** A viewpoint is written once: when its group is in the file already,
    under the chromosome its lines name, the body of the inner loop raises
    the [ValueError] of h5py for a name that is taken. *)
Theorem second_write_of_a_viewpoint_raises
    f combination k0 k1 kl (data : @scores K) fl :
  data <> [] ->
  collect data (mkFields None [] [] None None [] []) = Ok fl ->
  chromosome fl = Some (VStr k1) ->
  has f (combination ++ [k0; k1]) = true ->
  has f (combination ++ [k0; k1; kl]) = true ->
  write_key f combination [k0; k1; kl] data = Raise ValueError.
Proof.
  intros Hne Hfl Hc Hg Hv. unfold write_key.
  destruct data as [|e0 data0]; [contradiction|].
  change (Nat.eqb (length (e0 :: data0)) 0) with false. cbv iota.
  rewrite Hfl. simpl.
  change (getitem [k0; k1; kl] 0) with (Ok k0).
  change (getitem [k0; k1; kl] 1) with (Ok k1).
  change (getitem [k0; k1; kl] (-1)) with (Ok kl). simpl.
  destruct (require_group f (combination ++ [k0])) as [f1|ex] eqn:H1.
  2:{ destruct (require_group_Ok f (combination ++ [k0])) as [f1 E1].
      congruence. }
  simpl. apply require_group_extends in H1.
  rewrite <- !app_assoc. simpl.
  rewrite (has_extends _ _ _ H1 Hg). simpl.
  unfold lookup_name. rewrite Hc. rewrite <- !app_assoc. simpl.
  rewrite (has_extends _ _ _ H1 Hg). simpl.
  destruct (require_group f1 (combination ++ [k0; "genes"%string]))
    as [f2|ex] eqn:H2.
  2:{ destruct (require_group_Ok f1 (combination ++ [k0; "genes"%string]))
        as [f2 E2].
      congruence. }
  simpl. apply require_group_extends in H2.
  unfold create.
  replace ((combination ++ [k0; k1]) ++ [kl])
    with (combination ++ [k0; k1; kl]) by now rewrite <- app_assoc.
  rewrite (has_extends _ _ _ (extends_trans _ _ _ H1 H2) Hv). reflexivity.
Qed.

End Aggregated.

End WriterFacts.

(* ================================================================== *)
(** * The dispatchers at their edges *)

Module DispatchEdges.
Import Dispatch DispatchSpec PyFacts DispatchFacts DispatchClaims.

(** ** The slices *)

Lemma firstn_add_skipn {A} (a b : nat) (l : list A) :
  firstn (a + b) l = firstn a l ++ firstn b (skipn a l).
Proof.
  revert l; induction a as [|a IH]; intros l; simpl; [reflexivity|].
  destruct l as [|x l]; simpl; [now rewrite firstn_nil|]. now rewrite IH.
Qed.

Lemma concat_chunks {A} (per : nat) (l : list A) (m : nat) :
  concat (map (fun i => firstn per (skipn (i * per) l)) (seq 0 m)) =
  firstn (m * per) l.
Proof.
  induction m as [|m IH]; [reflexivity|].
  rewrite seq_S, map_app, concat_app, IH. simpl.
  rewrite app_nil_r, <- firstn_add_skipn. f_equal. lia.
Qed.

Lemma slices_as_chunks {A} (l : list A) (threads : Z) :
  1 <= threads ->
  let per := Z.of_nat (length l) / threads in
  map (thread_slice l threads per) (seq 0 (Z.to_nat threads)) =
  map (fun i => firstn (Z.to_nat per) (skipn (i * Z.to_nat per) l))
    (seq 0 (Z.to_nat threads - 1))
  ++ [skipn ((Z.to_nat threads - 1) * Z.to_nat per) l].
Proof.
  intros Ht per.
  assert (Hper : 0 <= per) by (apply Z.div_pos; lia).
  assert (Hmul : threads * per <= Z.of_nat (length l))
    by (apply Z.mul_div_le; lia).
  replace (Z.to_nat threads) with (S (Z.to_nat threads - 1)) at 1 by lia.
  rewrite seq_S, map_app. simpl. f_equal.
  - apply map_ext_in. intros i Hi. apply in_seq in Hi.
    apply thread_slice_inner; [assumption|lia|nia].
  - f_equal. apply thread_slice_last; [assumption|lia|nia].
Qed.

(** The slices handed to the workers are consecutive pieces of the work
    list: put one after the other they give the list back, and every slice
    but the last holds [len(list) // threads] items. *)
Theorem slices_partition_the_list {A} (l : list A) (threads : Z) :
  1 <= threads ->
  let per := Z.of_nat (length l) / threads in
  concat (map (thread_slice l threads per) (seq 0 (Z.to_nat threads))) = l /\
  forall i, Z.of_nat i < threads - 1 ->
            length (thread_slice l threads per i) = Z.to_nat per.
Proof.
  intros Ht per.
  assert (Hper : 0 <= per) by (apply Z.div_pos; lia).
  assert (Hmul : threads * per <= Z.of_nat (length l))
    by (apply Z.mul_div_le; lia).
  split.
  - pose proof (slices_as_chunks l threads Ht) as C.
    cbv zeta in C. fold per in C. rewrite C.
    rewrite concat_app, concat_chunks. simpl. rewrite app_nil_r.
    apply firstn_skipn.
  - intros i Hi. rewrite thread_slice_inner by (assumption || nia).
    rewrite length_firstn, length_skipn. nia.
Qed.

Lemma singletons_as_chunks {A} (l : list A) :
  map (fun i => firstn 1 (skipn i l)) (seq 0 (length l)) =
  map (fun x => [x]) l.
Proof.
  induction l as [|x l IH]; [reflexivity|].
  simpl. f_equal. rewrite <- seq_shift, map_map. exact IH.
Qed.

Lemma clamped_slices {A} (l : list A) :
  l <> [] ->
  let n := Z.of_nat (length l) in
  map (fun i => thread_slice l n (n / n) i) (seq 0 (Z.to_nat n)) =
  map (fun x => [x]) l.
Proof.
  intros Hne n.
  assert (Hn : 1 <= n) by (destruct l; [contradiction|unfold n; simpl; lia]).
  subst n. set (n := Z.of_nat (length l)) in *.
  rewrite <- singletons_as_chunks.
  replace (Z.to_nat n) with (length l) by (unfold n; lia).
  rewrite Z.div_same by lia.
  apply map_ext_in. intros i Hi. apply in_seq in Hi.
  destruct (Z.lt_ge_cases (Z.of_nat i) (n - 1)) as [H|H].
  - rewrite thread_slice_inner by (unfold n in *; lia).
    change (Z.to_nat 1) with 1%nat. now rewrite Nat.mul_1_r.
  - rewrite thread_slice_last by (unfold n in *; lia).
    change (Z.to_nat 1) with 1%nat. rewrite Nat.mul_1_r.
    assert (Hl : length (skipn i l) = 1%nat)
      by (rewrite length_skipn; unfold n in *; lia).
    destruct (skipn i l) as [|y [|z t]]; try discriminate. reflexivity.
Qed.

(** With more workers asked for than there are items, [call_multi_core]
    starts one worker per item: a worker that sends back the slice it was
    given shows each of them running on one item. *)
Theorem clamped_dispatch_one_item_each
    {item target B : Type} (items : list item) (targets : list target)
    (threads : Z) (arrival : nat -> nat) (fuel : nat) :
  items <> [] ->
  Z.of_nat (length items) < threads ->
  (last_arrival arrival (length items) < fuel)%nat ->
  call_multi_core items targets
    (fun chunk _ => MData ([chunk], @nil B)) threads arrival fuel =
  Some ([], Returned (map (fun x => [x]) items, [])).
Proof.
  intros Hne Hn Hf.
  assert (H1 : 1 <= Z.of_nat (length items))
    by (destruct items; [contradiction|simpl; lia]).
  pose proof (call_multi_core_spec (A := list item) (B := B) items targets
                (fun chunk _ => MData ([chunk], @nil B)) threads arrival fuel)
    as S.
  cbv zeta in S.
  replace (Z.of_nat (length items) <? threads) with true in S
    by (symmetry; apply Z.ltb_lt; lia).
  rewrite Nat2Z.id in S.
  rewrite S; [|lia|exact Hf|intros; exact I]. clear S.
  rewrite (proj2 (last_failure_None _ _)) by (intros; reflexivity).
  cbv zeta. rewrite !map_map. simpl.
  rewrite (flatten_empties (A := B)).
  rewrite <- (map_map (fun i => thread_slice items (Z.of_nat (length items))
                         (Z.of_nat (length items) / Z.of_nat (length items)) i)
                (fun x => Some [x])).
  rewrite flatten_singletons.
  pose proof (clamped_slices items Hne) as C. cbv zeta in C.
  rewrite Nat2Z.id in C. now rewrite C.
Qed.

(** ** Worker counts below one *)

(** A negative number of workers starts no worker and waits for none: both
    dispatchers return empty result lists on the first pass, whatever the
    work list holds. *)
Theorem negative_thread_count_runs_nothing
    {item target A B : Type} (threads : Z) (arrival : nat -> nat) (fuel : nat) :
  threads < 0 ->
  (0 < fuel)%nat ->
  (forall (items : list item) (targets : list target)
          (worker : list item -> target_arg target -> message (list A * list B)),
     call_multi_core items targets worker threads arrival fuel =
     Some ([], Returned ([], []))) /\
  (forall (items : list item) (worker : list item -> message (@lists3 A)),
     dispatch_tests items worker threads arrival fuel =
     Some ([], Returned ([], [], []))).
Proof.
  intros Ht Hf. destruct fuel as [|fuel]; [lia|].
  assert (E0 : Z.to_nat threads = 0%nat) by lia.
  split.
  - intros items targets worker. unfold call_multi_core.
    replace (Z.of_nat (length items) <? threads) with false
      by (symmetry; apply Z.ltb_ge; lia).
    replace (threads =? 0) with false by (symmetry; apply Z.eqb_neq; lia).
    unfold init_state. simpl. rewrite E0. reflexivity.
  - intros items worker. unfold dispatch_tests.
    replace (threads =? 0) with false by (symmetry; apply Z.eqb_neq; lia).
    unfold init_state. simpl. rewrite E0. reflexivity.
Qed.

(** ** Timing *)

Lemma last_failure_order {P} (queue : nat -> message P) (o1 o2 : list nat) :
  (forall i, In i o1 <-> In i o2) ->
  (last_failure queue o1 None = None <-> last_failure queue o2 None = None).
Proof.
  intros H. rewrite !last_failure_None. split; intros G i Hi; apply G, H, Hi.
Qed.

(** The order in which the queues fill does not show in what
    [call_multi_core] gives back: if no worker fails, two runs with
    different timing return the same lists; if some worker fails, both
    runs end with exit status 1. *)
Theorem timing_does_not_change_the_result
    {item target A B : Type} (items : list item) (targets : list target)
    (worker : list item -> target_arg target -> message (list A * list B))
    (threads : Z) (arrival arrival' : nat -> nat) (fuel fuel' : nat) :
  let n := Z.of_nat (length items) in
  let used := if n <? threads then n else threads in
  let queue i :=
    worker (thread_slice items used (n / used) i)
      (thread_targets targets used (n / used) i) in
  used <> 0 ->
  (last_arrival arrival (Z.to_nat used) < fuel)%nat ->
  (last_arrival arrival' (Z.to_nat used) < fuel')%nat ->
  (forall i, (i < Z.to_nat used)%nat -> well_formed (queue i)) ->
  ((forall i, (i < Z.to_nat used)%nat -> failure_text (queue i) = None) ->
   call_multi_core items targets worker threads arrival fuel =
   call_multi_core items targets worker threads arrival' fuel') /\
  ((exists i, (i < Z.to_nat used)%nat /\ failure_text (queue i) <> None) ->
   exists text text',
     call_multi_core items targets worker threads arrival fuel =
       Some ([LogError text], Exited 1) /\
     call_multi_core items targets worker threads arrival' fuel' =
       Some ([LogError text'], Exited 1)).
Proof.
  intros n used queue Hu Hf Hf' Hw.
  pose proof (call_multi_core_spec items targets worker threads arrival fuel
                Hu Hf Hw) as S.
  pose proof (call_multi_core_spec items targets worker threads arrival' fuel'
                Hu Hf' Hw) as S'.
  cbv zeta in S, S'. fold n in S, S'. fold used in S, S'. fold queue in S, S'.
  split.
  - intros Hnone. rewrite S, S'.
    rewrite (proj2 (last_failure_None queue _)), (proj2 (last_failure_None queue _));
      [reflexivity| |];
      intros i Hi; apply Hnone; now apply reception_order_In in Hi.
  - intros [i [Hi Hfail]].
    destruct (last_failure_Some queue (reception_order arrival (Z.to_nat used)) i)
      as [text Ht]; [now apply reception_order_In|assumption|].
    destruct (last_failure_Some queue (reception_order arrival' (Z.to_nat used)) i)
      as [text' Ht']; [now apply reception_order_In|assumption|].
    exists text, text'. rewrite S, S', Ht, Ht'. split; reflexivity.
Qed.

End DispatchEdges.

(* ================================================================== *)
(** * What the workers send back *)

Module WorkerFacts.
Import Aggregate DiffTest DiffTestSpec Dispatch DispatchSpec Tools ToolsSpec.
Import PyFacts DiffTestFacts.

#[local] Opaque filter_scores_target_list.

Lemma map_result_length {A B} (f : A -> result B) (l : list A) (l' : list B) :
  map_result f l = Ok l' -> length l' = length l.
Proof.
  revert l'; induction l as [|x l IH]; simpl; intros l' H.
  - now injection H as <-.
  - apply bind_Ok in H as [y [_ H]]. apply bind_Ok in H as [ys [Hys H]].
    injection H as <-. simpl. f_equal. now apply IH.
Qed.

(** ** [run_target_list_compilation] *)

Section AggregateWorker.
Context {K target : Type}.
Variable K_eqb : K -> K -> bool.
Variable K_ltb : K -> K -> bool.
Variable int_of_str : string -> option Z.
Variable float_of_str : string -> option float.
Variable intervalListToIntervalTree : list (string * Z * Z) -> index.
Variable readBed : target -> result (list (string * Z * Z)).
Variable readInteractionFileForAggregateStatistics :
  sample_key -> result (store * @dict K ref).
Variable read_target_object : target -> result target_object.
Variable describe : exn -> string.

Lemma samples_loop_names tree tl i samples : forall names scores names' scores',
  samples_loop K_eqb K_ltb int_of_str float_of_str intervalListToIntervalTree
    readInteractionFileForAggregateStatistics read_target_object
    tree tl i samples names scores = Ok (names', scores') ->
  names' = names ++ samples /\
  (length scores' = length scores + length samples)%nat.
Proof.
  induction samples as [|sample rest IH]; simpl;
    intros names scores names' scores' H.
  - injection H as <- <-. rewrite app_nil_r. split; [reflexivity|lia].
  - apply bind_Ok in H as [[h d] [_ H]].
    apply bind_Ok in H as [tf [_ H]].
    apply bind_Ok in H as [to [_ H]].
    apply bind_Ok in H as [[h' acc] [_ H]].
    apply IH in H as [-> Hl]. rewrite <- app_assoc. split; [reflexivity|].
    rewrite Hl, length_app. simpl. lia.
Qed.

Lemma files_loop_names tree tl files : forall i names scores names' scores',
  files_loop K_eqb K_ltb int_of_str float_of_str intervalListToIntervalTree
    readInteractionFileForAggregateStatistics read_target_object
    tree tl i files names scores = Ok (names', scores') ->
  names' = names ++ files /\
  exists new, scores' = scores ++ new /\
              Forall2 (fun f s => length s = length f) files new.
Proof.
  induction files as [|file rest IH]; simpl;
    intros i names scores names' scores' H.
  - injection H as <- <-. rewrite !app_nil_r. split; [reflexivity|].
    exists []. split; [now rewrite app_nil_r|constructor].
  - apply bind_Ok in H as [[n s] [Hs H]].
    apply samples_loop_names in Hs as [-> Hl]. simpl in Hl.
    apply IH in H as [-> [new [-> HF]]].
    rewrite <- !app_assoc. split; [reflexivity|].
    exists (s :: new). split; [reflexivity|]. now constructor.
Qed.

(** A worker that succeeds sends back the viewpoints it was given, as they
    are and in the same order, and for every file one dict of accepted
    scores per viewpoint of the file. *)
Theorem compilation_returns_its_input
    (pInteractionFilesList : list (list sample_key))
    (pTargetList : target_arg target) outfile_names_list accepted_scores_list :
  run_target_list_compilation K_eqb K_ltb int_of_str float_of_str
    intervalListToIntervalTree readBed
    readInteractionFileForAggregateStatistics read_target_object describe
    pInteractionFilesList pTargetList =
    MData (outfile_names_list, accepted_scores_list) ->
  outfile_names_list = pInteractionFilesList /\
  Forall2 (fun file scores => length scores = length file)
    pInteractionFilesList accepted_scores_list.
Proof.
  unfold run_target_list_compilation, compile_targets. intros H.
  destruct (bind _ _) as [[n s]|e] eqn:E; [|discriminate].
  injection H as -> ->.
  apply bind_Ok in E as [tree [_ E]].
  apply files_loop_names in E as [-> [new [-> HF]]]. now split.
Qed.

End AggregateWorker.

(** ** [run_statistical_tests] *)

Section DifferentialWorker.
Context {key : Type}.
Variable chi2_ppf : float -> Z -> float.
Variable chi2_contingency : group -> group -> option (float * float).
Variable fisher_exact : list group -> option float.
Variable ceil : float -> float.
Variable readAggregatedFileHDF : key -> result (list record * list group).
Variable describe : exn -> string.

Lemma all_lines_length l1 l2 d1 d2 rs : forall i ls,
  all_lines l1 l2 d1 d2 i rs = Ok ls -> length ls = length rs.
Proof.
  induction rs as [|p rs IH]; simpl; intros i ls H.
  - now injection H as <-.
  - apply bind_Ok in H as [l [_ H]]. apply bind_Ok in H as [ls' [H' H]].
    injection H as <-. simpl. f_equal. now apply (IH (i + 1)).
Qed.

Lemma test_pair_lengths stat alpha pair a r l :
  test_pair chi2_ppf chi2_contingency fisher_exact ceil readAggregatedFileHDF
    stat alpha pair = Ok (Some (a, r, l)) ->
  (length a + length r = length l)%nat /\
  exists l1 d1 l2 d2,
    readAggregatedFileHDF (fst pair) = Ok (l1, d1) /\
    readAggregatedFileHDF (snd pair) = Ok (l2, d2) /\
    l1 <> [] /\ l2 <> [] /\
    length l = Nat.min (length d1) (length d2).
Proof.
  unfold test_pair. intros H.
  apply bind_Ok in H as [[l1 d1] [H1 H]].
  apply bind_Ok in H as [[l2 d2] [H2 H]].
  destruct (Nat.eqb (length l1) 0 || Nat.eqb (length l2) 0) eqn:E;
    [discriminate|].
  apply orb_false_iff in E as [E1 E2].
  apply Nat.eqb_neq in E1, E2.
  apply bind_Ok in H as [wl [Hl H]].
  apply bind_Ok in H as [wa [Ha H]].
  apply bind_Ok in H as [wr [Hr H]].
  injection H as <- <- <-.
  apply all_lines_length in Hl. apply map_result_length in Ha, Hr.
  rewrite Hl, Ha, Hr.
  assert (C : complete d1 d2
                match stat with
                | chi2 => snd (chisquare_test chi2_ppf chi2_contingency d1 d2 alpha)
                | fisher => fisher_exact_test fisher_exact ceil d1 d2 alpha
                end).
  { destruct stat.
    - destruct (chisquare_test_spec chi2_ppf chi2_contingency d1 d2 alpha)
        as (T & A & R & _).
      exact (buckets_complete _ _ _ _ T A R).
    - destruct (fisher_exact_test_spec fisher_exact ceil d1 d2 alpha)
        as (T & A & R).
      exact (buckets_complete _ _ _ _ T A R). }
  destruct C as (C1 & C2 & _).
  split; [exact C1|].
  exists l1, d1, l2, d2. repeat split; try assumption.
  - now destruct l1.
  - now destruct l2.
Qed.

Lemma tests_loop_lists stat alpha files : forall A R L A' R' L',
  tests_loop chi2_ppf chi2_contingency fisher_exact ceil readAggregatedFileHDF
    stat alpha files (A, R, L) = Ok (A', R', L') ->
  exists a r l,
    A' = A ++ a /\ R' = R ++ r /\ L' = L ++ l /\
    length a = length l /\ length r = length l /\
    (length l <= length files)%nat /\
    (length l = length files ->
     forall pair, In pair files ->
     exists l1 d1 l2 d2,
       readAggregatedFileHDF (fst pair) = Ok (l1, d1) /\
       readAggregatedFileHDF (snd pair) = Ok (l2, d2) /\
       l1 <> [] /\ l2 <> []) /\
    forall k x y z,
      nth_error a k = Some x -> nth_error r k = Some y ->
      nth_error l k = Some z -> (length x + length y = length z)%nat.
Proof.
  induction files as [|pair rest IH]; simpl; intros A R L A' R' L' H.
  - injection H as <- <- <-. exists [], [], [].
    rewrite !app_nil_r. do 5 (split; [reflexivity|]).
    split; [simpl; lia|]. split; [intros _ pair []|].
    intros [|k] x y z; discriminate.
  - apply bind_Ok in H as [o [Hp H]]. destruct o as [[[x y] z]|].
    + apply IH in H as (a & r & l & -> & -> & -> & Ha & Hr & Hle & Hall & Hk).
      apply test_pair_lengths in Hp as [Hxyz (l1 & d1 & l2 & d2 & R1 & R2 & N1 & N2 & _)].
      exists (x :: a), (y :: r), (z :: l). rewrite <- !app_assoc. simpl.
      do 3 (split; [reflexivity|]).
      split; [lia|]. split; [lia|]. split; [lia|]. split.
      * intros E pair' [<-|Hin]; [exists l1, d1, l2, d2; now repeat split|].
        apply Hall; [lia|assumption].
      * intros [|k] x' y' z'; simpl.
        -- now intros [= <-] [= <-] [= <-].
        -- apply Hk.
    + apply IH in H as (a & r & l & -> & -> & -> & Ha & Hr & Hle & Hall & Hk).
      exists a, r, l. do 3 (split; [reflexivity|]).
      split; [lia|]. split; [lia|]. split; [lia|]. split; [|exact Hk].
      intros E. lia.
Qed.

(** A worker that succeeds sends three lists of the same length, with one
    entry for every pair it did not skip; in every entry the accepted and
    the rejected lines together are as many as all lines. *)
Theorem test_results_are_aligned stat alpha
    (pInteractionFilesList : list (key * key)) accepted_list rejected_list
    all_results_list :
  run_statistical_tests chi2_ppf chi2_contingency fisher_exact ceil
    readAggregatedFileHDF describe stat alpha pInteractionFilesList =
    MData (accepted_list, rejected_list, all_results_list) ->
  length accepted_list = length all_results_list /\
  length rejected_list = length all_results_list /\
  (length all_results_list <= length pInteractionFilesList)%nat /\
  forall k a r l,
    nth_error accepted_list k = Some a ->
    nth_error rejected_list k = Some r ->
    nth_error all_results_list k = Some l ->
    (length a + length r = length l)%nat.
Proof.
  unfold run_statistical_tests. intros H.
  destruct (tests_loop _ _ _ _ _ _ _ _ _) as [[[A R] L]|e] eqn:E;
    [|discriminate].
  injection H as -> -> ->.
  apply tests_loop_lists in E as (a & r & l & -> & -> & -> & Ha & Hr & Hle & _ & Hk).
  simpl. repeat split; assumption.
Qed.

End DifferentialWorker.
End WorkerFacts.

(* ================================================================== *)
(** * The work lists of the two tools *)

Module MainFacts.
Import Hdf Main Store StoreSpec Dispatch DispatchSpec Tools.
Import PyFacts DispatchFacts ToolsFacts WorkerFacts WriterFacts.

Lemma combine_same {A} (l : list A) (x y : A) :
  In (x, y) (combine l l) -> x = y /\ In x l.
Proof.
  induction l as [|z l IH]; simpl; [tauto|].
  intros [[= <- <-]|H]; [now split; [|left]|].
  destruct (IH H). split; [assumption|now right].
Qed.

Lemma member_head {A} (g : group A) n x :
  member ((n, x) :: g) n = Ok x.
Proof. simpl. now rewrite String.eqb_refl. Qed.

(** ** [chicDifferentialTest.main] *)

Lemma chromosome_entries_shape comb m1 m2 obj1 obj2 chromosomes : forall l,
  chromosome_entries comb m1 m2 obj1 obj2 chromosomes = Ok l ->
  forall e, In e l ->
  exists c1 c2 g1 g2, e = ([comb; m1; c1; g1], [comb; m2; c2; g2]) /\
                      In (c1, c2) chromosomes.
Proof.
  induction chromosomes as [|[c1 c2] rest IH]; simpl; intros l H e He.
  - injection H as <-. contradiction.
  - apply bind_Ok in H as [g1 [_ H]]. apply bind_Ok in H as [g2 [_ H]].
    apply bind_Ok in H as [entries [Hr H]]. injection H as <-.
    apply in_app_or in He as [He|He].
    + unfold gene_entries in He. apply in_map_iff in He as [[x y] [<- _]].
      exists c1, c2, x, y. split; [reflexivity|now left].
    + destruct (IH _ Hr e He) as (c1' & c2' & x & y & -> & Hin).
      exists c1', c2', x, y. split; [reflexivity|now right].
Qed.

Lemma combination_entries_shape comb combination l :
  combination_entries comb combination = Ok l ->
  forall e, In e l ->
  exists m1 m2 c1 c2 g1 g2,
    e = ([comb; m1; c1; g1], [comb; m2; c2; g2]) /\
    getitem (keys combination) 0 = Ok m1 /\
    getitem (keys combination) 1 = Ok m2.
Proof.
  unfold combination_entries.
  destruct (Nat.eqb (length (keys combination)) 0).
  - intros [= <-] e [].
  - intros H e He.
    apply bind_Ok in H as [m1 [H1 H]]. apply bind_Ok in H as [m2 [H2 H]].
    apply bind_Ok in H as [o1 [_ H]]. apply bind_Ok in H as [o2 [_ H]].
    apply bind_Ok in H as [cl1 [_ H]]. apply bind_Ok in H as [cl2 [_ H]].
    destruct (chromosome_entries_shape _ _ _ _ _ _ _ H e He)
      as (c1 & c2 & g1 & g2 & -> & _).
    exists m1, m2, c1, c2, g1, g2. now repeat split.
Qed.

(** Every entry of [aggregatedList] holds two keys of four names under one
    combination of matrices, with the first two matrices of the
    combination: the writer finds in it the names of the groups it makes. *)
Theorem aggregated_entries_are_writer_keys file aggregated :
  aggregatedList file = Ok aggregated ->
  forall entry, In entry aggregated ->
  exists combinationOfMatrix combination matrix1 matrix2 c1 c2 g1 g2,
    In (combinationOfMatrix, combination) file /\
    getitem (keys combination) 0 = Ok matrix1 /\
    getitem (keys combination) 1 = Ok matrix2 /\
    entry = ([combinationOfMatrix; matrix1; c1; g1],
             [combinationOfMatrix; matrix2; c2; g2]) /\
    gene_path (as_input entry) = Ok [matrix1; matrix2; c1; g1].
Proof.
  revert aggregated; induction file as [|[comb combination] rest IH]; simpl;
    intros aggregated H entry He.
  - injection H as <-. contradiction.
  - apply bind_Ok in H as [entries [Hc H]].
    apply bind_Ok in H as [more [Hm H]]. injection H as <-.
    apply in_app_or in He as [He|He].
    + destruct (combination_entries_shape _ _ _ Hc entry He)
        as (m1 & m2 & c1 & c2 & g1 & g2 & -> & H1 & H2).
      exists comb, combination, m1, m2, c1, c2, g1, g2.
      repeat split; try assumption; try reflexivity. now left.
    + destruct (IH _ Hm entry He)
        as (comb' & cb & m1 & m2 & c1 & c2 & g1 & g2 & Hin & H1 & H2 & -> & Hp).
      exists comb', cb, m1, m2, c1, c2, g1, g2.
      repeat split; try assumption; try reflexivity. now right.
Qed.

(** A combination without any matrix is skipped; one that holds a single
    matrix makes the tool raise [IndexError]. *)
Theorem single_matrix_combination_raises
    (before after : aggregated_file) entries name matrix1 (obj : matrix) :
  aggregatedList before = Ok entries ->
  aggregatedList (before ++ (name, []) :: after) =
    aggregatedList (before ++ after) /\
  aggregatedList (before ++ (name, [(matrix1, obj)]) :: after) =
    Raise IndexError.
Proof.
  revert entries; induction before as [|[c cb] rest IH]; simpl;
    intros entries H.
  - split; [now destruct (aggregatedList after)|reflexivity].
  - apply bind_Ok in H as [e1 [Hc H]]. apply bind_Ok in H as [more [Hm H]].
    destruct (IH _ Hm) as [E1 E2]. rewrite Hc, E1, E2. simpl.
    split; reflexivity.
Qed.

Section Differential.
Variable chi2_ppf : float -> Z -> float.
Variable chi2_contingency : DiffTest.group -> DiffTest.group -> option (float * float).
Variable fisher_exact : list DiffTest.group -> option float.
Variable ceil : float -> float.
Variable readAggregatedFileHDF :
  aggregated_key -> result (list record * list DiffTest.group).
Variable describe : exn -> string.
Variable py_str : value -> string.

(** The worker skips a pair with an entry that has no line, and the writer
    is then given fewer results than keys. So the tool ends normally only
    if every entry of every pair has lines. *)
Theorem normal_end_needs_lines_everywhere
    file statisticTest alpha threads arrival fuel log f :
  1 <= threads ->
  (last_arrival arrival (Z.to_nat threads) < fuel)%nat ->
  differential_main chi2_ppf chi2_contingency fisher_exact ceil
    readAggregatedFileHDF describe py_str file statisticTest alpha threads
    arrival fuel = Some (log, Returned f) ->
  exists aggregated,
    aggregatedList file = Ok aggregated /\
    forall entry, In entry aggregated ->
    exists l1 d1 l2 d2,
      readAggregatedFileHDF (fst entry) = Ok (l1, d1) /\
      readAggregatedFileHDF (snd entry) = Ok (l2, d2) /\
      l1 <> [] /\ l2 <> [].
Proof.
  intros Ht Hf. unfold differential_main.
  destruct (aggregatedList file) as [aggregated|e]; [|discriminate].
  pose proof (dispatch_tests_sequential describe
                (fun (_ : Z) l =>
                   tests_loop chi2_ppf chi2_contingency fisher_exact ceil
                     readAggregatedFileHDF statisticTest alpha l ([], [], []))
                (fun off l1 l2 =>
                   tests_run_app chi2_ppf chi2_contingency fisher_exact ceil
                     readAggregatedFileHDF statisticTest alpha off l1 l2)
                aggregated
                (run_statistical_tests chi2_ppf chi2_contingency fisher_exact
                   ceil readAggregatedFileHDF describe statisticTest alpha)
                threads arrival fuel Ht (fun i _ => eq_refl) Hf) as S.
  cbv beta in S.
  destruct (tests_loop _ _ _ _ _ _ _ aggregated _) as [[[A R] L]|e] eqn:E.
  - rewrite S.
    destruct (writeResultHDF py_str A R L (map as_input aggregated) alpha)
      as [f'|e] eqn:W; [|discriminate].
    intros _. exists aggregated. split; [reflexivity|].
    apply tests_loop_lists in E
      as (a & r & l & -> & -> & -> & _ & _ & Hle & Hall & _).
    simpl in *. apply Hall.
    unfold writeResultHDF in W.
    pose proof (result_lists_lengths py_str _ _ _ _ W "all"%string l
                  ltac:(simpl; tauto)) as G.
    rewrite length_map in G. lia.
  - destruct S as [text ->]. discriminate.
Qed.

End Differential.

(** ** [chicAggregateStatistic.main] *)

Lemma present_entries_shape present_genes s s2 c1 c2 genes : forall l,
  present_entries present_genes s s2 c1 c2 genes = Ok l ->
  forall e, In e l ->
  exists g1 g2 by_inner listed,
    In (g1, g2) genes /\ e = [[s; c1; g1]; [s2; c2; g2]] /\
    member present_genes s = Ok by_inner /\
    member by_inner s2 = Ok listed /\ has_item listed g1 = true.
Proof.
  induction genes as [|[g1 g2] rest IH]; simpl; intros l H e He.
  - injection H as <-. contradiction.
  - apply bind_Ok in H as [bi [Hb H]]. apply bind_Ok in H as [li [Hl H]].
    apply bind_Ok in H as [entries [Hr H]]. injection H as <-.
    assert (Hrest : In e entries ->
              exists g1' g2' by_inner listed,
                (((g1, g2) = (g1', g2')) \/ In (g1', g2') rest) /\
                e = [[s; c1; g1']; [s2; c2; g2']] /\
                member present_genes s = Ok by_inner /\
                member by_inner s2 = Ok listed /\
                has_item listed g1' = true).
    { intros Hin. destruct (IH _ Hr e Hin) as (x & y & b & li' & Hi & G).
      exists x, y, b, li'. split; [now right|exact G]. }
    destruct (has_item li g1) eqn:Eh; [|now apply Hrest].
    destruct He as [<-|He]; [|now apply Hrest].
    exists g1, g2, bi, li. repeat split; try assumption. now left.
Qed.

Lemma present_chromosomes_shape present_genes s s2 obj chromosomes : forall l,
  present_chromosomes present_genes s s2 obj obj chromosomes = Ok l ->
  (forall c1 c2, In (c1, c2) chromosomes -> c1 = c2) ->
  forall e, In e l ->
  exists c g by_inner listed,
    e = [[s; c; g]; [s2; c; g]] /\
    member present_genes s = Ok by_inner /\
    member by_inner s2 = Ok listed /\ has_item listed g = true.
Proof.
  induction chromosomes as [|[c1 c2] rest IH]; simpl; intros l H Hsame e He.
  - injection H as <-. contradiction.
  - assert (c1 = c2) by (apply Hsame; now left). subst c2.
    apply bind_Ok in H as [g1 [H1 H]]. apply bind_Ok in H as [g2 [H2 H]].
    rewrite H1 in H2. injection H2 as <-.
    apply bind_Ok in H as [entries [Hen H]].
    apply bind_Ok in H as [more [Hm H]]. injection H as <-.
    apply in_app_or in He as [He|He].
    + destruct (present_entries_shape _ _ _ _ _ _ _ Hen e He)
        as (x & y & b & li & Hin & -> & Hb & Hl & Hh).
      apply combine_same in Hin as [<- _].
      exists c1, x, b, li. now repeat split.
    + apply (IH _ Hm); [|assumption].
      intros x y Hin. apply Hsame. now right.
Qed.

Lemma pair_with_shape file present_genes sample others : forall l,
  pair_with (viewpoint_pairs file present_genes) sample others = Ok l ->
  forall e, In e l ->
  exists sample2 c g by_inner listed,
    In sample2 others /\ e = [[sample; c; g]; [sample2; c; g]] /\
    member present_genes sample = Ok by_inner /\
    member by_inner sample2 = Ok listed /\ has_item listed g = true.
Proof.
  induction others as [|s2 rest IH]; simpl; intros l H e He.
  - injection H as <-. contradiction.
  - apply bind_Ok in H as [l1 [H1 H]]. apply bind_Ok in H as [l2 [H2 H]].
    injection H as <-. apply in_app_or in He as [He|He].
    + unfold viewpoint_pairs in H1.
      apply bind_Ok in H1 as [o1 [Ho1 H1]]. apply bind_Ok in H1 as [o2 [Ho2 H1]].
      rewrite Ho1 in Ho2. injection Ho2 as <-.
      apply bind_Ok in H1 as [cl1 [Hc1 H1]]. apply bind_Ok in H1 as [cl2 [Hc2 H1]].
      rewrite Hc1 in Hc2. injection Hc2 as <-.
      destruct (present_chromosomes_shape _ _ _ _ _ _ H1) with (e := e)
        as (c & g & b & li & -> & Hb & Hl & Hh); [|assumption|].
      { intros x y Hin. now apply combine_same in Hin. }
      exists s2, c, g, b, li. repeat split; try assumption. now left.
    + destruct (IH _ H2 e He) as (x & c & g & b & li & Hin & G).
      exists x, c, g, b, li. split; [now right|exact G].
Qed.

(** Both viewpoints of an entry of [interactionList] carry the same
    chromosome and the same gene, those read under the first matrix; the
    matrices are two members of the file, the first one before the second,
    and the gene is listed in the target file for this pair of matrices. *)
Theorem interaction_entries_share_their_viewpoint
    (file : interaction_file) (present_genes : present) entries :
  interactionList file present_genes = Ok entries ->
  forall entry, In entry entries ->
  exists before sample between sample2 after c g by_inner listed,
    keys file = before ++ sample :: between ++ sample2 :: after /\
    entry = [[sample; c; g]; [sample2; c; g]] /\
    member present_genes sample = Ok by_inner /\
    member by_inner sample2 = Ok listed /\ has_item listed g = true.
Proof.
  unfold interactionList.
  destruct (1 <? length (keys file))%nat; [|intros [= <-] e []].
  generalize (keys file) as ks.
  intros ks. revert entries. induction ks as [|s rest IH]; simpl;
    intros entries H e He.
  - injection H as <-. contradiction.
  - apply bind_Ok in H as [l1 [H1 H]]. apply bind_Ok in H as [l2 [H2 H]].
    injection H as <-. apply in_app_or in He as [He|He].
    + destruct (pair_with_shape _ _ _ _ _ H1 e He)
        as (s2 & c & g & b & li & Hin & -> & Hb & Hl & Hh).
      apply in_split in Hin as (between & after & ->).
      exists [], s, between, s2, after, c, g, b, li. now repeat split.
    + destruct (IH _ H2 e He)
        as (before & s1 & between & s2 & after & c & g & b & li & -> & G).
      exists (s :: before), s1, between, s2, after, c, g, b, li.
      split; [reflexivity|exact G].
Qed.

(** With a target file that is not an HDF5 file nothing is listed in
    [present_genes], and the tool ends with an uncaught [KeyError] as soon
    as the first of two or more matrices holds a viewpoint: the work list
    is not built and nothing is dispatched. *)
Theorem plain_target_file_raises {K : Type}
    (K_eqb K_ltb : K -> K -> bool) int_of_str float_of_str
    intervalListToIntervalTree readBed
    (readInteractionFileForAggregateStatistics :
       sample_key -> result (Aggregate.store * @Aggregate.dict K Aggregate.ref))
    read_target_object describe
    targetFile sample (obj : matrix) sample2 obj2
    (more : interaction_file) chromosome chromosomes (genes : names)
    threads arrival fuel :
  remove (sorted String.ltb (keys obj)) "genes" = Ok (chromosome :: chromosomes) ->
  member obj chromosome = Ok genes ->
  genes <> [] ->
  let file := (sample, obj) :: (sample2, obj2) :: more in
  interactionList file [] = Raise KeyError /\
  aggregate_main K_eqb K_ltb int_of_str float_of_str
    intervalListToIntervalTree readBed
    readInteractionFileForAggregateStatistics read_target_object describe
    file targetFile None threads arrival fuel = Some ([], Uncaught KeyError).
Proof.
  intros Hr Hm Hg file.
  assert (E : interaction_list (viewpoint_pairs file []) (keys file) =
              Raise KeyError).
  { unfold file. simpl keys.
    simpl interaction_list. unfold viewpoint_pairs at 1.
    rewrite member_head. simpl bind at 1. rewrite Hr. simpl.
    rewrite Hm. simpl.
    destruct (sorted String.ltb (keys genes)) as [|g gs] eqn:Es;
      [|reflexivity].
    apply sorted_nil_inv in Es. destruct genes; [contradiction|discriminate]. }
  split.
  - unfold interactionList. unfold file at 1. simpl keys at 1.
    simpl length. change (1 <? S (S (length (map fst more))))%nat with true.
    exact E.
  - unfold aggregate_main, read_targets, main.
    unfold file at 1. simpl keys at 1. simpl length.
    change (1 <? S (S (length (map fst more))))%nat with true.
    cbv iota. fold file. rewrite E. reflexivity.
Qed.

End MainFacts.

(* ================================================================== *)
(** * The properties on concrete inputs *)

Module Examples.
Import Aggregate AggregateSpec DiffTest DiffTestSpec Dispatch DispatchSpec.
Import Tools ToolsSpec Scenario.
Local Open Scope string_scope.

(** C1 on the scenario of the specification: the merged line is keyed
    ["r1"], starts at 100, ends at 200 and carries the sums 8, 0.375, 3. *)
Lemma merged_record_witness :
  exists k1 rest kn a1 an contrib,
    sorted String.ltb ["r1"; "r2"] = k1 :: rest /\
    getitem (sorted String.ltb ["r1"; "r2"]) (-1) = Ok kn /\
    dict_get String.eqb scores k1 = Ok a1 /\
    dict_get String.eqb scores kn = Ok an /\
    Forall2 (fun k c => exists a, dict_get String.eqb scores k = Ok a /\
                                  trailing no_float (lines a) = Ok c)
      (sorted String.ltb ["r1"; "r2"]) contrib /\
    dict_get String.eqb aggregated_scores k1 = Ok a1 /\
    getitem (aggregated_store a1) 1 = getitem (lines a1) 1 /\
    getitem (aggregated_store a1) 2 = getitem (lines an) 2 /\
    getitem (aggregated_store a1) (-3) = Ok (VFloat (fsum (map fst3 contrib))) /\
    getitem (aggregated_store a1) (-2) = Ok (VFloat (fsum (map snd3 contrib))) /\
    getitem (aggregated_store a1) (-1) = Ok (VFloat (fsum (map thd3 contrib))).
Proof.
  eapply (AggregateFacts.merged_record_conservation String.eqb String.ltb
           no_int no_float String.eqb_eq interval_index lines scores None
           (Some targets) targets 7 aggregated_store aggregated_scores
           [(target, ["r1"; "r2"])]).
  - repeat constructor; simpl; intuition discriminate.
  - lia.
  - intros k a [H|[H|[]]]; injection H as <- <-; reflexivity.
  - reflexivity.
  - reflexivity.
  - reflexivity.
  - left. reflexivity.
Defined.

(** The values the scenario gives, by evaluation. *)
Example scenario_merged_line :
  aggregated_scores = [("r1", 0%nat)] /\
  aggregated_store 0%nat =
    [VStr "chr1"; VInt 100; VInt 200; VStr "gene";
     VFloat 8; VFloat 0.375; VFloat 3].
Proof. split; reflexivity. Qed.


(** C9 as stated fails on the scenario: the line that the scores dict
    holds under ["r1"] is not the same after the call. *)
Lemma filter_overwrites_its_input :
  aggregated = Ok (aggregated_store, aggregated_scores) /\
  dict_get String.eqb scores "r1" = Ok 0%nat /\
  lines 0%nat =
    [VStr "chr1"; VInt 100; VInt 150; VStr "gene";
     VFloat 5; VFloat 0.125; VFloat 2] /\
  aggregated_store 0%nat =
    [VStr "chr1"; VInt 100; VInt 200; VStr "gene";
     VFloat 8; VFloat 0.375; VFloat 3] /\
  aggregated_store 0%nat <> lines 0%nat.
Proof.
  repeat split; try reflexivity. discriminate.
Qed.

(** The amended C9 on the scenario. *)
Lemma filter_frame_witness :
  (forall b, ~ In b (map snd aggregated_scores) -> aggregated_store b = lines b) /\
  (forall k a, In (k, a) aggregated_scores ->
               dict_get String.eqb scores k = Ok a).
Proof.
  apply (AggregateFacts.filter_frame String.eqb String.ltb no_int no_float
           String.eqb_eq interval_index lines scores None (Some targets)
           aggregated_store aggregated_scores).
  - repeat constructor; simpl; intuition discriminate.
  - reflexivity.
Defined.

(** C7 on made-up statistics: the pair at index 1 has no count at all, so
    neither test is defined on it. *)
Lemma untestable_pair_witness :
  (let o := snd (chisquare_test toy_ppf toy_chi2 data1 data2 0.0625) in
   nth_error (test_result o) 1 = Some nan /\
   In (1, 1%float) (accepted o) /\
   (forall q, ~ In (1, q) (rejected o)) /\
   (0 < length (untestable toy_chi2 (combine data1 data2)))%nat /\
   fst (chisquare_test toy_ppf toy_chi2 data1 data2 0.0625) =
     [LogInfo (Z.of_nat (length (untestable toy_chi2 (combine data1 data2))))]) /\
  (let o := fisher_exact_test toy_fisher toy_ceil data1 data2 0.0625 in
   nth_error (test_result o) 1 = Some nan /\
   In (1, 1%float) (accepted o) /\
   (forall q, ~ In (1, q) (rejected o))).
Proof.
  destruct (DiffTestFacts.untestable_pair_defaults toy_ppf toy_chi2 toy_fisher
              toy_ceil data1 data2 0.0625%float 1%nat [0; 0]%float [0; 0]%float
              eq_refl eq_refl) as [A B].
  split; [apply A|apply B]; reflexivity.
Defined.

(** C8 on made-up statistics: the pair at index 0 has the statistic 4, the
    critical value, and the Fisher p-value 0.03125, the threshold. *)
Lemma threshold_boundary_witness :
  (let o := snd (chisquare_test toy_ppf toy_chi2 data1 data2 0.0625) in
   In (0, 0.5%float) (rejected o) /\
   (forall q, ~ In (0, q) (accepted o))) /\
  (let o := fisher_exact_test toy_fisher toy_ceil data1 data2 0.03125 in
   In (0, 0.03125%float) (rejected o) /\
   (forall q, ~ In (0, q) (accepted o))).
Proof.
  split.
  - apply (proj1 (DiffTestFacts.threshold_boundary_rejects toy_ppf toy_chi2
                    toy_fisher toy_ceil data1 data2 0.0625%float 0%nat
                    [100; 50]%float [100; 46]%float eq_refl eq_refl)
             4%float 0.5%float); reflexivity.
  - apply (proj2 (DiffTestFacts.threshold_boundary_rejects toy_ppf toy_chi2
                    toy_fisher toy_ceil data1 data2 0.03125%float 0%nat
                    [100; 50]%float [100; 46]%float eq_refl eq_refl)
             0.03125%float); reflexivity.
Defined.

(** C3 as stated fails for a worker count of zero, which is not above the
    length of the work list: the sequential run gives a result, the
    dispatcher divides by zero. *)
Lemma zero_threads_divide_by_zero :
  0 <= Z.of_nat (length work_list) /\
  (exists r,
     compile_targets String.eqb String.ltb no_int no_float interval_index
       read_bed read_interactions read_target work_list
       (whole_targets ["targets.bed"]) = Ok r) /\
  call_multi_core work_list ["targets.bed"] aggregation_worker 0 at_once 1 =
    Some ([], Uncaught ZeroDivisionError) /\
  dispatch_tests test_pairs test_worker 0 at_once 1 =
    Some ([], Uncaught ZeroDivisionError).
Proof.
  split; [simpl; lia|]. split; [|split; reflexivity].
  destruct (compile_targets String.eqb String.ltb no_int no_float
              interval_index read_bed read_interactions read_target work_list
              (whole_targets ["targets.bed"])) as [r|e] eqn:E.
  - now exists r.
  - vm_compute in E. discriminate.
Qed.

(** The amended C3 on the scenario, with two workers for two items. *)
Lemma dispatch_order_witness :
  (exists r,
     compile_targets String.eqb String.ltb no_int no_float interval_index
       read_bed read_interactions read_target work_list
       (whole_targets ["targets.bed"]) = Ok r /\
     call_multi_core work_list ["targets.bed"] aggregation_worker 2 at_once 1 =
       Some ([], Returned r)) /\
  (exists r,
     tests_loop toy_ppf toy_chi2 toy_fisher toy_ceil read_aggregated chi2
       0.0625 test_pairs ([], [], []) = Ok r /\
     dispatch_tests test_pairs test_worker 2 at_once 1 =
       Some ([], Returned r)).
Proof.
  destruct (@DispatchClaims.dispatch_preserves_order string string string
              String.eqb String.ltb no_int no_float interval_index read_bed
              read_interactions read_target describe toy_ppf toy_chi2
              toy_fisher toy_ceil read_aggregated) as [A B].
  split.
  - assert (H := A work_list ["targets.bed"] 2 at_once 1%nat).
    destruct (compile_targets String.eqb String.ltb no_int no_float
                interval_index read_bed read_interactions read_target
                work_list (whole_targets ["targets.bed"])) as [r|e] eqn:E.
    + exists r. split; [reflexivity|].
      apply H; [simpl; lia|vm_compute; lia].
    + vm_compute in E. discriminate.
  - assert (H := B test_pairs chi2 0.0625%float 2 at_once 1%nat).
    destruct (tests_loop toy_ppf toy_chi2 toy_fisher toy_ceil read_aggregated
                chi2 0.0625 test_pairs ([], [], [])) as [r|e] eqn:E.
    + exists r. split; [reflexivity|].
      apply H; [simpl; lia|vm_compute; lia].
    + vm_compute in E. discriminate.
Defined.



(** C10 as stated fails for the result writer: an input key whose three
    categories hold no line still gets its gene group and the three
    category groups. *)
Lemma empty_category_groups_are_created :
  written = Ok written_file /\
  Store.objects written_file =
    [(["m1"], Store.Group); (["m1"; "m2"], Store.Group);
     (["m1"; "m2"; "chr1"], Store.Group);
     (["m1"; "m2"; "chr1"; "geneA"], Store.Group);
     (["m1"; "m2"; "chr1"; "geneA"; "accepted"], Store.Group);
     (["m1"; "m2"; "chr1"; "geneA"; "rejected"], Store.Group);
     (["m1"; "m2"; "chr1"; "geneA"; "all"], Store.Group)].
Proof. split; reflexivity. Qed.

(** The amended C10 on the same input. *)
Lemma empty_data_witness :
  Store.write_key (Store.mkFile [] []) ["m1_m2"] ["m1"; "chr1"; "geneA"]
    ([] : @Store.scores string) = Ok (Store.mkFile [] []) /\
  Store.write_category show (Store.mkFile [] [])
    ["m1"; "m2"; "chr1"; "geneA"; "accepted"] "geneA" [] =
    Ok (Store.mkFile [] []) /\
  exists gene_object,
    StoreSpec.gene_path gene_key = Ok gene_object /\
    In (gene_object, Store.Group) (Store.objects written_file) /\
    In ((gene_object ++ ["accepted"])%list, Store.Group)
      (Store.objects written_file) /\
    In ((gene_object ++ ["rejected"])%list, Store.Group)
      (Store.objects written_file) /\
    In ((gene_object ++ ["all"])%list, Store.Group)
      (Store.objects written_file).
Proof.
  destruct (@StoreFacts.empty_data_is_skipped string show) as (A & _ & C & D).
  split; [apply A; reflexivity|]. split; [apply C; reflexivity|].
  apply (D [[]] [[]] [[]] [gene_key] 0.0625%float written_file);
    [reflexivity|now left].
Defined.

(** C5: one item and four workers in the differential test. *)
Lemma unclamped_dispatch_witness :
  dispatch_tests ["x"] probe 4 at_once 1 =
    Some ([], Returned ([[]; []; []; ["x"]]%list, [], [])).
Proof.
  apply (DispatchClaims.differential_dispatch_keeps_thread_count ["x"] 4
           at_once 1%nat); [simpl; lia|vm_compute; lia].
Defined.

(** The same item and worker count in the aggregation tool: one worker. *)
Example clamped_dispatch :
  call_multi_core ["x"] ([] : list string)
    (fun chunk _ => MData ([chunk], ([] : list string))) 4 at_once 1 =
    Some ([], Returned ([["x"]], [])).
Proof. reflexivity. Qed.

End Examples.

(* ================================================================== *)
(** * Further properties on concrete inputs *)

Module MoreExamples.
Import Aggregate AggregateSpec DiffTest DiffTestSpec Dispatch DispatchSpec.
Import Tools ToolsSpec Scenario Cases.
Local Open Scope string_scope.

Lemma accepted_entries_witness :
  Forall2 (fun e grp =>
             exists rest, sorted String.ltb (snd grp) = fst e :: rest /\
                          dict_get String.eqb scores (fst e) = Ok (snd e))
    aggregated_scores [(target, ["r1"; "r2"])].
Proof.
  apply (AggregateEdges.accepted_entries_follow_targets String.eqb String.ltb
           no_int no_float String.eqb_eq interval_index lines scores None
           (Some targets) targets aggregated_store);
    reflexivity.
Defined.

Lemma line_lengths_witness :
  length (aggregated_store 0%nat) = length (lines 0%nat) /\
  length (aggregated_store 1%nat) = length (lines 1%nat).
Proof.
  split;
    apply (AggregateEdges.filter_keeps_line_lengths String.eqb String.ltb
             no_int no_float interval_index lines scores None (Some targets)
             aggregated_store aggregated_scores);
    reflexivity.
Defined.

Lemma other_fields_witness :
  exists k1 rest kn a1 an,
    sorted String.ltb ["r1"; "r2"] = k1 :: rest /\
    getitem (sorted String.ltb ["r1"; "r2"]) (-1) = Ok kn /\
    dict_get String.eqb scores k1 = Ok a1 /\
    dict_get String.eqb scores kn = Ok an /\
    getitem (aggregated_store a1) (-5) = getitem (lines an) (-5) /\
    forall j, j <> 2%nat -> j <> (7 - 5)%nat -> j <> (7 - 3)%nat ->
              j <> (7 - 2)%nat -> j <> (7 - 1)%nat ->
              nth_error (aggregated_store a1) j = nth_error (lines a1) j.
Proof.
  eapply (AggregateEdges.merged_line_other_fields String.eqb String.ltb
            no_int no_float String.eqb_eq interval_index lines scores None
            (Some targets) targets 7 aggregated_store aggregated_scores
            [(target, ["r1"; "r2"])]).
  - repeat constructor; simpl; intuition discriminate.
  - lia.
  - intros k a [H|[H|[]]]; injection H as <- <-; reflexivity.
  - reflexivity.
  - reflexivity.
  - reflexivity.
  - left. reflexivity.
Defined.

Lemma empty_target_witness :
  filter_scores_target_list String.eqb String.ltb no_int no_float
    interval_index lines scores (Some no_regions) None = Ok (lines, []).
Proof.
  apply AggregateEdges.empty_target_accepts_nothing. left. reflexivity.
Defined.

Lemma first_bad_line_witness :
  filter_scores_target_list String.eqb String.ltb no_int no_float
    interval_index lines scores_bad None (Some targets) = Raise IndexError.
Proof.
  apply (AggregateEdges.first_bad_line_raises String.eqb String.ltb no_int
           no_float String.eqb_eq interval_index lines scores_bad None
           (Some targets) targets [("r1", 0%nat)] "bad" 5%nat []).
  - reflexivity.
  - repeat constructor; simpl; intuition discriminate.
  - reflexivity.
  - intros k a [H|[]]. injection H as <- <-. eexists. reflexivity.
  - reflexivity.
Defined.

Lemma rejections_grow_witness :
  In (0, 0.03125%float)
    (rejected (fisher_exact_test toy_fisher toy_ceil data1 data2 0.0625)) /\
  In (0, 0.5%float)
    (rejected (snd (chisquare_test toy_ppf toy_chi2 data1 data2 0.0625))).
Proof.
  destruct (TesterEdges.rejections_grow_with_alpha toy_ppf toy_chi2 toy_fisher
              toy_ceil data1 data2 0.03125%float 0.0625%float eq_refl)
    as [F C].
  split.
  - apply F. simpl. now left.
  - apply (C eq_refl). simpl. now left.
Defined.


Lemma result_lists_witness :
  (length [gene_key] <= length [[result1]])%nat /\
  (length [gene_key] <= length [@nil Store.result_line])%nat /\
  (length [gene_key] <= length [[result1]])%nat.
Proof.
  apply (WriterFacts.result_lists_cover_the_inputs show [[result1]] [[]]
           [[result1]] [gene_key] 0.0625%float results_file eq_refl).
Defined.

Lemma aggregate_file_witness :
  exists a b k0 k1 kl chromosomeObject c g s starts ends distances raws,
    (k <- getitem viewpoint_names 0 ;; getitem k 0) = Ok a /\
    (k <- getitem viewpoint_names 1 ;; getitem k 0) = Ok b /\
    getitem ["m2"; "chr1"; "geneA"] 0 = Ok k0 /\
    getitem ["m2"; "chr1"; "geneA"] 1 = Ok k1 /\
    getitem ["m2"; "chr1"; "geneA"] (-1) = Ok kl /\
    getitem (lines 0%nat) 0 = Ok c /\ getitem (lines 0%nat) 3 = Ok g /\
    getitem (lines 0%nat) 4 = Ok s /\
    Forall2 (fun e v => getitem (snd e) 1 = Ok v) viewpoint_scores starts /\
    Forall2 (fun e v => getitem (snd e) 2 = Ok v) viewpoint_scores ends /\
    Forall2 (fun e v => getitem (snd e) 5 = Ok v) viewpoint_scores distances /\
    Forall2 (fun e v => getitem (snd e) (-1) = Ok v) viewpoint_scores raws /\
    (chromosomeObject = [a ++ "_" ++ b; k0; k1] \/
     exists name, c = VStr name /\
                  chromosomeObject = [a ++ "_" ++ b; k0; name]) /\
    In ((chromosomeObject ++ [kl])%list, Store.Group)
      (Store.objects aggregate_file) /\
    In (((chromosomeObject ++ [kl]) ++ ["chromosome"])%list, Store.Scalar c)
      (Store.objects aggregate_file) /\
    In (((chromosomeObject ++ [kl]) ++ ["start_list"])%list,
        Store.Dataset starts) (Store.objects aggregate_file) /\
    In (((chromosomeObject ++ [kl]) ++ ["end_list"])%list, Store.Dataset ends)
      (Store.objects aggregate_file) /\
    In (((chromosomeObject ++ [kl]) ++ ["gene_name"])%list, Store.Scalar g)
      (Store.objects aggregate_file) /\
    In (((chromosomeObject ++ [kl]) ++ ["sum_of_interactions"])%list,
        Store.Scalar s) (Store.objects aggregate_file) /\
    In (((chromosomeObject ++ [kl]) ++ ["relative_distance_list"])%list,
        Store.Dataset distances) (Store.objects aggregate_file) /\
    In (((chromosomeObject ++ [kl]) ++ ["raw_target_list"])%list,
        Store.Dataset raws) (Store.objects aggregate_file) /\
    In ([a ++ "_" ++ b; k0; "genes"; kl],
        Store.Link (chromosomeObject ++ [kl])%list)
      (Store.objects aggregate_file).
Proof.
  apply (WriterFacts.aggregate_file_holds_the_lines [viewpoint_names]
           [[viewpoint_scores; viewpoint_scores]] aggregate_file eq_refl
           0%nat viewpoint_names [viewpoint_scores; viewpoint_scores] 1%nat
           ["m2"; "chr1"; "geneA"] [] ("r1", lines 0%nat));
    reflexivity.
Defined.

Lemma second_write_witness :
  Store.write_key aggregate_file ["m1_m2"] ["m2"; "chr1"; "geneA"]
    viewpoint_scores = Raise ValueError.
Proof.
  eapply (WriterFacts.second_write_of_a_viewpoint_raises aggregate_file
            ["m1_m2"] "m2" "chr1" "geneA" viewpoint_scores).
  - discriminate.
  - reflexivity.
  - reflexivity.
  - reflexivity.
  - reflexivity.
Defined.

Lemma slices_partition_witness :
  concat (map (thread_slice [1; 2; 3; 4; 5] 2 (5 / 2)) (seq 0 2)) =
    [1; 2; 3; 4; 5] /\
  length (thread_slice [1; 2; 3; 4; 5] 2 (5 / 2) 0) = 2%nat.
Proof.
  destruct (DispatchEdges.slices_partition_the_list [1; 2; 3; 4; 5] 2
              ltac:(lia)) as [C L].
  split; [exact C|]. apply (L 0%nat). simpl. lia.
Defined.

Lemma clamped_dispatch_witness :
  call_multi_core ["x"] ([] : list string)
    (fun chunk _ => MData ([chunk], ([] : list string))) 4 at_once 1 =
    Some ([], Returned ([["x"]], [])).
Proof.
  apply (DispatchEdges.clamped_dispatch_one_item_each ["x"] [] 4 at_once
           1%nat); [discriminate|simpl; lia|vm_compute; lia].
Defined.

Lemma negative_threads_witness :
  call_multi_core work_list ["targets.bed"] aggregation_worker (-1) at_once 1 =
    Some ([], Returned ([], [])) /\
  dispatch_tests test_pairs test_worker (-1) at_once 1 =
    Some ([], Returned ([], [], [])).
Proof.
  split.
  - apply (proj1 (@DispatchEdges.negative_thread_count_runs_nothing
                    (list sample_key) string (list sample_key)
                    (list (@scores_out string))
                    (-1) at_once 1%nat ltac:(lia) ltac:(lia))).
  - apply (proj2 (@DispatchEdges.negative_thread_count_runs_nothing
                    (string * string) string (list Store.result_line) string
                    (-1) at_once 1%nat ltac:(lia) ltac:(lia))).
Defined.

Lemma timing_witness :
  call_multi_core work_list ["targets.bed"] aggregation_worker 2 at_once 1 =
  call_multi_core work_list ["targets.bed"] aggregation_worker 2 reversed 2.
Proof.
  apply (DispatchEdges.timing_does_not_change_the_result work_list
           ["targets.bed"] aggregation_worker 2 at_once reversed 1%nat 2%nat).
  - simpl. lia.
  - vm_compute. lia.
  - vm_compute. lia.
  - intros [|[|i]] Hi; [exact I|exact I|simpl in Hi; lia].
  - intros [|[|i]] Hi; [reflexivity|reflexivity|simpl in Hi; lia].
Defined.

Lemma compilation_witness :
  fst compiled = work_list /\
  Forall2 (fun file scores => length scores = length file) work_list
    (snd compiled).
Proof.
  apply (WorkerFacts.compilation_returns_its_input String.eqb String.ltb
           no_int no_float interval_index read_bed read_interactions
           read_target describe work_list (OneTarget "targets.bed")).
  reflexivity.
Defined.

Lemma test_results_witness :
  length (fst (fst tested)) = length (snd tested) /\
  length (snd (fst tested)) = length (snd tested) /\
  (length (snd tested) <= length test_pairs)%nat /\
  forall k a r l,
    nth_error (fst (fst tested)) k = Some a ->
    nth_error (snd (fst tested)) k = Some r ->
    nth_error (snd tested) k = Some l ->
    (length a + length r = length l)%nat.
Proof.
  apply (WorkerFacts.test_results_are_aligned toy_ppf toy_chi2 toy_fisher
           toy_ceil read_aggregated describe chi2 0.0625%float test_pairs).
  reflexivity.
Defined.

Lemma aggregated_entries_witness :
  exists combinationOfMatrix combination matrix1 matrix2 c1 c2 g1 g2,
    In (combinationOfMatrix, combination) aggregated_input /\
    getitem (Hdf.keys combination) 0 = Ok matrix1 /\
    getitem (Hdf.keys combination) 1 = Ok matrix2 /\
    gene_entry = ([combinationOfMatrix; matrix1; c1; g1],
                  [combinationOfMatrix; matrix2; c2; g2]) /\
    StoreSpec.gene_path (Main.as_input gene_entry) =
      Ok [matrix1; matrix2; c1; g1].
Proof.
  apply (MainFacts.aggregated_entries_are_writer_keys aggregated_input
           [gene_entry] eq_refl gene_entry).
  now left.
Defined.

Lemma single_matrix_witness :
  Main.aggregatedList (("m1_m2", []) :: aggregated_input) =
    Main.aggregatedList aggregated_input /\
  Main.aggregatedList [("m1_m2", [("m1", one_gene)])] = Raise IndexError.
Proof.
  split.
  - apply (proj1 (MainFacts.single_matrix_combination_raises [] aggregated_input
                    [] "m1_m2" "m1" one_gene eq_refl)).
  - apply (proj2 (MainFacts.single_matrix_combination_raises [] [] []
                    "m1_m2" "m1" one_gene eq_refl)).
Defined.

Lemma normal_end_witness :
  exists aggregated,
    Main.aggregatedList aggregated_input = Ok aggregated /\
    forall entry, In entry aggregated ->
    exists l1 d1 l2 d2,
      read_key (fst entry) = Ok (l1, d1) /\
      read_key (snd entry) = Ok (l2, d2) /\
      l1 <> [] /\ l2 <> [].
Proof.
  apply (MainFacts.normal_end_needs_lines_everywhere toy_ppf toy_chi2
           toy_fisher toy_ceil read_key describe show aggregated_input chi2
           0.0625%float 1 at_once 1%nat [] differential_file).
  - lia.
  - vm_compute. lia.
  - reflexivity.
Defined.

Lemma interaction_entries_witness :
  exists before sample between sample2 after c g by_inner listed,
    Hdf.keys interaction_input =
      (before ++ sample :: between ++ sample2 :: after)%list /\
    [["m1"; "chr1"; "geneA"]; ["m2"; "chr1"; "geneA"]] =
      [[sample; c; g]; [sample2; c; g]] /\
    Hdf.member listed_genes sample = Ok by_inner /\
    Hdf.member by_inner sample2 = Ok listed /\
    Hdf.has_item listed g = true.
Proof.
  apply (MainFacts.interaction_entries_share_their_viewpoint interaction_input
           listed_genes [[["m1"; "chr1"; "geneA"]; ["m2"; "chr1"; "geneA"]]]
           eq_refl).
  now left.
Defined.

Lemma plain_target_witness :
  Main.interactionList interaction_input [] = Raise KeyError /\
  Main.aggregate_main String.eqb String.ltb no_int no_float interval_index
    (fun _ => Ok [("chr1", 100, 200)]) read_interactions
    (fun _ => Ok (mkTarget "chr1" [100] [200])) describe
    interaction_input "targets.bed" None 4 at_once 1 =
    Some ([], Uncaught KeyError).
Proof.
  apply (MainFacts.plain_target_file_raises String.eqb String.ltb no_int
           no_float interval_index (fun _ => Ok [("chr1", 100, 200)])
           read_interactions (fun _ => Ok (mkTarget "chr1" [100] [200]))
           describe "targets.bed" "m1" one_gene "m2" one_gene [] "chr1" []
           [("geneA", tt)] 4 at_once 1%nat);
    [reflexivity|reflexivity|discriminate].
Defined.

End MoreExamples.
